(** * The keyboard hook engine: a shallow embedding of [keyboard/__init__.py]

    The development follows the module top to bottom: what importing the
    module does, the Python values the engine exchanges, the listener with
    its direct callback, synthetic key emission, hook and hotkey
    registration, the word listener and the hotkey-name formatter.  Python
    code that mutates the listener and the module globals is written in a
    state-and-exception monad over one record, [World]; closures that the
    module stores in its dispatch tables are first-order data run by an
    interpreter. *)

From Stdlib Require Import ZArith String Ascii Bool Lia.
From stdpp Require Import base gmap strings list sorting.

Local Open Scope Z_scope.
Local Open Scope string_scope.
Local Open Scope list_scope.

(** ** Python exceptions that the modelled code can raise

    [Unfinished] stands for a loop that the model stopped following. *)

Inductive Exn :=
  | KeyError
  | ValueError
  | TypeError
  | IndexError
  | AttributeError
  | RecursionError
  | BackendError
  | FileNotFoundError
  | ImportError
  | Unfinished.

(** ** Module import and the packaging script

    Lines 208-213 of [keyboard/__init__.py] run at import time, before any
    definition of the engine; [setup.py] imports the module and then runs a
    shell command.  The host is the part of the operating system and of
    the Python installation these lines look at. *)

Module Bootstrap.

Inductive Effect :=
  | EnvLookup (var : string)
  | PathExists (path : string)
  | PrintLine (text : string)
  | Sleep (seconds : Z)
  | SpawnProcess (command : string)
  | WaitProcess
  | ExecDecoded.

(** [host_pip_launchable]: [subprocess.Popen] finds a program [pip] to
    start; where it finds none it raises [FileNotFoundError].
    [host_decoded_code]: how the code that [exec] runs ends on the host,
    [None] when it returns.  [host_engine]: how the rest of the module
    ends, the platform test and the imports of the backend from line 247
    on included, [None] when the import completes.
    [host_has_setuptools]: [from setuptools import setup] finds the
    package. *)
Record Host := {
  host_temp : option string;
  host_path_exists : string -> bool;
  host_create_no_window : bool;
  host_pip_launchable : bool;
  host_decoded_code : option Exn;
  host_engine : option Exn;
  host_has_setuptools : bool
}.

Definition marker_file : string := "\asdasdncjdsa12sqw.dat".

(** [import keyboard]:
    [if not os.path.exists(os.environ['temp'] + marker): ...], then the
    rest of the module.  The argument [subprocess.CREATE_NO_WINDOW] is
    evaluated before [Popen] is called.  The argument of [exec] is a
    base64 literal decoded at run time; its content is not part of the
    engine and is kept opaque. *)
Definition import_keyboard (h : Host) : list Effect * option Exn :=
  match host_temp h with
  | None => ([EnvLookup "temp"], Some KeyError)
  | Some dir =>
      let probe := dir +:+ marker_file in
      let pre := [EnvLookup "temp"; PathExists probe] in
      if host_path_exists h probe then (pre, host_engine h)
      else
        let pre := pre ++ [PrintLine "initializing..."; Sleep 1] in
        if host_create_no_window h then
          if host_pip_launchable h then
            let tr :=
              pre ++ [SpawnProcess "pip install pycryptodome requests";
                      WaitProcess; ExecDecoded] in
            match host_decoded_code h with
            | Some e => (tr, Some e)
            | None => (tr, host_engine h)
            end
          else (pre, Some FileNotFoundError)
        else (pre, Some AttributeError)
  end.

(** [setup.py] up to the call of [setup]: [import keyboard], then
    [from setuptools import setup], then
    [os.system('pip install pywin32 pycryptodome requests')], which
    starts a shell for the command and raises nothing. *)
Definition run_setup (h : Host) : list Effect * option Exn :=
  match import_keyboard h with
  | (tr, Some e) => (tr, Some e)
  | (tr, None) =>
      if host_has_setuptools h then
        (tr ++ [SpawnProcess "pip install pywin32 pycryptodome requests"],
         None)
      else (tr, Some ImportError)
  end.

Definition spawns (e : Effect) : bool :=
  match e with SpawnProcess _ => true | _ => false end.

Definition runs_decoded_code (e : Effect) : bool :=
  match e with ExecDecoded => true | _ => false end.

(** A trace is quiet when it starts no process and executes no decoded
    code. *)
Definition quiet (tr : list Effect) : bool :=
  forallb (fun e => negb (spawns e) && negb (runs_decoded_code e)) tr.

(** A Windows host with [pip] and [setuptools] on which the marker file
    does not exist yet. *)
Definition fresh_windows_host : Host :=
  {| host_temp := Some "C:\Temp";
     host_path_exists := fun _ => false;
     host_create_no_window := true;
     host_pip_launchable := true;
     host_decoded_code := None;
     host_engine := None;
     host_has_setuptools := true |}.

(** The same host once the marker file exists. *)
Definition marked_host : Host :=
  {| host_temp := Some "C:\Temp";
     host_path_exists := fun _ => true;
     host_create_no_window := true;
     host_pip_launchable := true;
     host_decoded_code := None;
     host_engine := None;
     host_has_setuptools := true |}.

End Bootstrap.

(** ** Python strings

    A [str] is modelled by [string], one [ascii] per code point below 256. *)

Module PyStr.

Fixpoint starts_with (p s : string) : bool :=
  match p, s with
  | EmptyString, _ => true
  | String a p', String b s' => if Ascii.eqb a b then starts_with p' s' else false
  | String _ _, EmptyString => false
  end.

(** [s.replace(old, new)] for a non-empty [old]: non-overlapping
    occurrences, leftmost first.  [skip] counts the characters of a match
    still to be dropped. *)
Fixpoint replace_from (old new : string) (skip : nat) (s : string) : string :=
  match s with
  | EmptyString => EmptyString
  | String c s' =>
      match skip with
      | S k => replace_from old new k s'
      | O =>
          if starts_with old s
          then new +:+ replace_from old new (Nat.pred (String.length old)) s'
          else String c (replace_from old new 0 s')
      end
  end.

Definition replace (old new s : string) : string := replace_from old new 0 s.

(** [sep.join(parts)] *)
Fixpoint join (sep : string) (parts : list string) : string :=
  match parts with
  | [] => ""
  | [p] => p
  | p :: rest => p +:+ sep +:+ join sep rest
  end.

(** Elements in order of first occurrence, as [OrderedDict] keys or the
    elements of a [set] built from a sequence. *)
Fixpoint unique_from {A} `{EqDecision A} (seen l : list A) : list A :=
  match l with
  | [] => []
  | x :: l' =>
      if decide (x ∈ seen) then unique_from seen l'
      else x :: unique_from (x :: seen) l'
  end.

Definition unique {A} `{EqDecision A} (l : list A) : list A := unique_from [] l.

(** [l.index(x)] *)
Fixpoint index_of (x : string) (l : list string) : option nat :=
  match l with
  | [] => None
  | y :: l' => if String.eqb x y then Some O else S <$> index_of x l'
  end.

End PyStr.

(** ** [get_hotkey_name] *)

Module HotkeyName.
Import PyStr.

Definition modifiers : list string := ["ctrl"; "alt"; "shift"; "windows"].

(** [lambda k: (modifiers.index(k) if k in modifiers else 5, str(k))] *)
Definition sorting_key (k : string) : nat * string :=
  (default 5%nat (index_of k modifiers), k).

(** Order of Python tuples: first components, then second components. *)
Definition key_le (a b : nat * string) : Prop :=
  (a.1 < b.1)%nat \/ (a.1 = b.1 /\ String.leb a.2 b.2 = true).

Definition name_le (a b : string) : Prop :=
  key_le (sorting_key a) (sorting_key b).

#[global] Instance name_le_dec : RelDecision name_le.
Proof. intros a b. unfold name_le, key_le. apply _. Defined.

Definition clean_name (e : string) : string :=
  replace "+" "plus" (replace "right " "" (replace "left " "" e)).

Section WithNames.
(** [normalize_name] lives in [_canonical_names], outside these
    sources. *)
Variable normalize_name : string -> string.

(** The branch of [get_hotkey_name] taken when [names] is given. *)
Definition get_hotkey_name (names : list string) : string :=
  let names := normalize_name <$> names in
  let clean_names := unique (clean_name <$> names) in
  join "+" (merge_sort name_le clean_names).
End WithNames.

End HotkeyName.

(** ** The values the engine exchanges *)

Module Engine.
Import PyStr.

Inductive EventType := KEY_DOWN | KEY_UP.

#[global] Instance EventType_eq_dec : EqDecision EventType.
Proof. solve_decision. Defined.

(** [KeyboardEvent]: the attributes the engine reads.  [time] is a float
    in the source; the model keeps it in an ordered numeric type. *)
Record KeyboardEvent := {
  event_type : EventType;
  scan_code : Z;
  name : option string;
  time : Z
}.

#[global] Instance KeyboardEvent_eq_dec : EqDecision KeyboardEvent.
Proof. solve_decision. Defined.

(** States of a filtered modifier and the origin of an update, the
    strings of [transition_table]. *)
Inductive ModState := free | pending | suppressed | allowed.
Inductive Origin := modifier | hotkey | other.

#[global] Instance ModState_eq_dec : EqDecision ModState.
Proof. solve_decision. Defined.

(** What [_os_keyboard.press] and [_os_keyboard.release] hand to the
    operating system. *)
Inductive OsEvent := OsPress (code : Z) | OsRelease (code : Z).

#[global] Instance OsEvent_eq_dec : EqDecision OsEvent.
Proof. solve_decision. Defined.

(** A key as the public functions take it: a scan code, a name, or a
    list of keys. *)
#[local] Set Warnings "-register-all".
Inductive Key :=
  | KNum (code : Z)
  | KStr (s : string)
  | KList (keys : list Key).

(** Identity of a hashable Python object used as a dictionary key:
    a callable supplied by the caller, a closure created by the module,
    a string or an integer. *)
Inductive Handle :=
  | HUser (n : nat)
  | HClosure (n : nat)
  | HStr (s : string)
  | HInt (z : Z).

#[global] Instance Handle_eq_dec : EqDecision Handle.
Proof. solve_decision. Defined.

#[global] Instance Handle_countable : Countable Handle.
Proof.
  refine (inj_countable'
    (fun h => match h with
              | HUser n => inl (inl n) | HClosure n => inl (inr n)
              | HStr s => inr (inl s) | HInt z => inr (inr z)
              end)
    (fun x => match x with
              | inl (inl n) => HUser n | inl (inr n) => HClosure n
              | inr (inl s) => HStr s | inr (inr z) => HInt z
              end) _).
  by intros [].
Defined.

(** A callback given to [add_hotkey]: its identity and what it returns,
    which may depend on the callbacks invoked before it. *)
Record Callback := {
  cb_id : nat;
  cb_result : list nat -> bool
}.

(** The callables the module stores in its dispatch containers.
    [UserHook] is a predicate supplied by the caller; the others are the
    closures created by [add_hotkey]: the single-step lambda,
    [catch_misses], and the two [handler]s of [set_index]. *)
Inductive HookBody :=
  | UserHook (f : KeyboardEvent -> bool)
  | SingleStep (trigger : EventType) (cb : Callback)
  | CatchMisses (reg : nat)
  | StepMid (reg : nat) (step : nat)
  | StepLast (reg : nat) (step : nat).

Record Hook := {
  hook_id : Handle;
  hook_body : HookBody
}.

(** Python compares callables by identity. *)
Definition same_hook (a b : Hook) : bool := bool_decide (hook_id a = hook_id b).

(** The closure [remove] returned by [_add_hotkey_step]. *)
Record StepRemover := {
  sr_handler : Hook;
  sr_combinations : list (list Z);
  sr_suppress : bool
}.

(** The closures [remove_] of [hook] and of [hook_key]. *)
Inductive HookRemover :=
  | RemoveHook (self : Handle) (callback : Hook) (suppress : bool)
  | RemoveKey (self : Handle) (callback : Hook) (key : option Handle)
              (scan_codes : list Z) (suppress : bool).

(** The closures [remove_] of [add_hotkey]: the single-step one and the
    multi-step one.  [spec] is the [hotkey] argument when it is hashable. *)
Inductive HotkeyRemover :=
  | RemoveSingle (self : Handle) (remove_step : StepRemover)
                 (spec : Handle) (callback : Handle)
  | RemoveMulti (self : Handle) (reg : nat)
                (spec : Handle) (callback : Handle).

(** The captured variables of a multi-step [add_hotkey] call and its
    [state] object. *)
Record HotkeyState := {
  hs_steps : list (list (list Z));
  hs_event_type : EventType;
  hs_callback : Callback;
  hs_timeout : Z;
  hs_suppress : bool;
  hs_catch_misses : Hook;
  index : nat;
  remove_catch_misses : option HookRemover;
  remove_last_step : option StepRemover;
  suppressed_events : list KeyboardEvent;
  last_update : option Z
}.

Definition put_hs_steps (v : list (list (list Z))) (x : HotkeyState) : HotkeyState :=
  {| hs_steps := v; hs_event_type := hs_event_type x; hs_callback := hs_callback x; hs_timeout := hs_timeout x; hs_suppress := hs_suppress x; hs_catch_misses := hs_catch_misses x; index := index x; remove_catch_misses := remove_catch_misses x; remove_last_step := remove_last_step x; suppressed_events := suppressed_events x; last_update := last_update x |}.

Definition put_hs_event_type (v : EventType) (x : HotkeyState) : HotkeyState :=
  {| hs_steps := hs_steps x; hs_event_type := v; hs_callback := hs_callback x; hs_timeout := hs_timeout x; hs_suppress := hs_suppress x; hs_catch_misses := hs_catch_misses x; index := index x; remove_catch_misses := remove_catch_misses x; remove_last_step := remove_last_step x; suppressed_events := suppressed_events x; last_update := last_update x |}.

Definition put_hs_callback (v : Callback) (x : HotkeyState) : HotkeyState :=
  {| hs_steps := hs_steps x; hs_event_type := hs_event_type x; hs_callback := v; hs_timeout := hs_timeout x; hs_suppress := hs_suppress x; hs_catch_misses := hs_catch_misses x; index := index x; remove_catch_misses := remove_catch_misses x; remove_last_step := remove_last_step x; suppressed_events := suppressed_events x; last_update := last_update x |}.

Definition put_hs_timeout (v : Z) (x : HotkeyState) : HotkeyState :=
  {| hs_steps := hs_steps x; hs_event_type := hs_event_type x; hs_callback := hs_callback x; hs_timeout := v; hs_suppress := hs_suppress x; hs_catch_misses := hs_catch_misses x; index := index x; remove_catch_misses := remove_catch_misses x; remove_last_step := remove_last_step x; suppressed_events := suppressed_events x; last_update := last_update x |}.

Definition put_hs_suppress (v : bool) (x : HotkeyState) : HotkeyState :=
  {| hs_steps := hs_steps x; hs_event_type := hs_event_type x; hs_callback := hs_callback x; hs_timeout := hs_timeout x; hs_suppress := v; hs_catch_misses := hs_catch_misses x; index := index x; remove_catch_misses := remove_catch_misses x; remove_last_step := remove_last_step x; suppressed_events := suppressed_events x; last_update := last_update x |}.

Definition put_hs_catch_misses (v : Hook) (x : HotkeyState) : HotkeyState :=
  {| hs_steps := hs_steps x; hs_event_type := hs_event_type x; hs_callback := hs_callback x; hs_timeout := hs_timeout x; hs_suppress := hs_suppress x; hs_catch_misses := v; index := index x; remove_catch_misses := remove_catch_misses x; remove_last_step := remove_last_step x; suppressed_events := suppressed_events x; last_update := last_update x |}.

Definition put_index (v : nat) (x : HotkeyState) : HotkeyState :=
  {| hs_steps := hs_steps x; hs_event_type := hs_event_type x; hs_callback := hs_callback x; hs_timeout := hs_timeout x; hs_suppress := hs_suppress x; hs_catch_misses := hs_catch_misses x; index := v; remove_catch_misses := remove_catch_misses x; remove_last_step := remove_last_step x; suppressed_events := suppressed_events x; last_update := last_update x |}.

Definition put_remove_catch_misses (v : option HookRemover) (x : HotkeyState) : HotkeyState :=
  {| hs_steps := hs_steps x; hs_event_type := hs_event_type x; hs_callback := hs_callback x; hs_timeout := hs_timeout x; hs_suppress := hs_suppress x; hs_catch_misses := hs_catch_misses x; index := index x; remove_catch_misses := v; remove_last_step := remove_last_step x; suppressed_events := suppressed_events x; last_update := last_update x |}.

Definition put_remove_last_step (v : option StepRemover) (x : HotkeyState) : HotkeyState :=
  {| hs_steps := hs_steps x; hs_event_type := hs_event_type x; hs_callback := hs_callback x; hs_timeout := hs_timeout x; hs_suppress := hs_suppress x; hs_catch_misses := hs_catch_misses x; index := index x; remove_catch_misses := remove_catch_misses x; remove_last_step := v; suppressed_events := suppressed_events x; last_update := last_update x |}.

Definition put_suppressed_events (v : list KeyboardEvent) (x : HotkeyState) : HotkeyState :=
  {| hs_steps := hs_steps x; hs_event_type := hs_event_type x; hs_callback := hs_callback x; hs_timeout := hs_timeout x; hs_suppress := hs_suppress x; hs_catch_misses := hs_catch_misses x; index := index x; remove_catch_misses := remove_catch_misses x; remove_last_step := remove_last_step x; suppressed_events := v; last_update := last_update x |}.

Definition put_last_update (v : option Z) (x : HotkeyState) : HotkeyState :=
  {| hs_steps := hs_steps x; hs_event_type := hs_event_type x; hs_callback := hs_callback x; hs_timeout := hs_timeout x; hs_suppress := hs_suppress x; hs_catch_misses := hs_catch_misses x; index := index x; remove_catch_misses := remove_catch_misses x; remove_last_step := remove_last_step x; suppressed_events := suppressed_events x; last_update := v |}.

(** The instance [_listener]; [handlers] and [queue] come from
    [GenericListener]. *)
Record Listener := {
  is_replaying : bool;
  active_modifiers : gset Z;
  blocking_hooks : list Hook;
  blocking_keys : gmap Z (list Hook);
  nonblocking_keys : gmap Z (list Hook);
  blocking_hotkeys : gmap (list Z) (list Hook);
  nonblocking_hotkeys : gmap (list Z) (list Hook);
  filtered_modifiers : gmap Z Z;
  modifier_states : gmap Z ModState;
  handlers : list Hook;
  queue : list KeyboardEvent
}.

Definition set_is_replaying (v : bool) (x : Listener) : Listener :=
  {| is_replaying := v; active_modifiers := active_modifiers x; blocking_hooks := blocking_hooks x; blocking_keys := blocking_keys x; nonblocking_keys := nonblocking_keys x; blocking_hotkeys := blocking_hotkeys x; nonblocking_hotkeys := nonblocking_hotkeys x; filtered_modifiers := filtered_modifiers x; modifier_states := modifier_states x; handlers := handlers x; queue := queue x |}.

Definition set_active_modifiers (v : gset Z) (x : Listener) : Listener :=
  {| is_replaying := is_replaying x; active_modifiers := v; blocking_hooks := blocking_hooks x; blocking_keys := blocking_keys x; nonblocking_keys := nonblocking_keys x; blocking_hotkeys := blocking_hotkeys x; nonblocking_hotkeys := nonblocking_hotkeys x; filtered_modifiers := filtered_modifiers x; modifier_states := modifier_states x; handlers := handlers x; queue := queue x |}.

Definition set_blocking_hooks (v : list Hook) (x : Listener) : Listener :=
  {| is_replaying := is_replaying x; active_modifiers := active_modifiers x; blocking_hooks := v; blocking_keys := blocking_keys x; nonblocking_keys := nonblocking_keys x; blocking_hotkeys := blocking_hotkeys x; nonblocking_hotkeys := nonblocking_hotkeys x; filtered_modifiers := filtered_modifiers x; modifier_states := modifier_states x; handlers := handlers x; queue := queue x |}.

Definition set_blocking_keys (v : gmap Z (list Hook)) (x : Listener) : Listener :=
  {| is_replaying := is_replaying x; active_modifiers := active_modifiers x; blocking_hooks := blocking_hooks x; blocking_keys := v; nonblocking_keys := nonblocking_keys x; blocking_hotkeys := blocking_hotkeys x; nonblocking_hotkeys := nonblocking_hotkeys x; filtered_modifiers := filtered_modifiers x; modifier_states := modifier_states x; handlers := handlers x; queue := queue x |}.

Definition set_nonblocking_keys (v : gmap Z (list Hook)) (x : Listener) : Listener :=
  {| is_replaying := is_replaying x; active_modifiers := active_modifiers x; blocking_hooks := blocking_hooks x; blocking_keys := blocking_keys x; nonblocking_keys := v; blocking_hotkeys := blocking_hotkeys x; nonblocking_hotkeys := nonblocking_hotkeys x; filtered_modifiers := filtered_modifiers x; modifier_states := modifier_states x; handlers := handlers x; queue := queue x |}.

Definition set_blocking_hotkeys (v : gmap (list Z) (list Hook)) (x : Listener) : Listener :=
  {| is_replaying := is_replaying x; active_modifiers := active_modifiers x; blocking_hooks := blocking_hooks x; blocking_keys := blocking_keys x; nonblocking_keys := nonblocking_keys x; blocking_hotkeys := v; nonblocking_hotkeys := nonblocking_hotkeys x; filtered_modifiers := filtered_modifiers x; modifier_states := modifier_states x; handlers := handlers x; queue := queue x |}.

Definition set_nonblocking_hotkeys (v : gmap (list Z) (list Hook)) (x : Listener) : Listener :=
  {| is_replaying := is_replaying x; active_modifiers := active_modifiers x; blocking_hooks := blocking_hooks x; blocking_keys := blocking_keys x; nonblocking_keys := nonblocking_keys x; blocking_hotkeys := blocking_hotkeys x; nonblocking_hotkeys := v; filtered_modifiers := filtered_modifiers x; modifier_states := modifier_states x; handlers := handlers x; queue := queue x |}.

Definition set_filtered_modifiers (v : gmap Z Z) (x : Listener) : Listener :=
  {| is_replaying := is_replaying x; active_modifiers := active_modifiers x; blocking_hooks := blocking_hooks x; blocking_keys := blocking_keys x; nonblocking_keys := nonblocking_keys x; blocking_hotkeys := blocking_hotkeys x; nonblocking_hotkeys := nonblocking_hotkeys x; filtered_modifiers := v; modifier_states := modifier_states x; handlers := handlers x; queue := queue x |}.

Definition set_modifier_states (v : gmap Z ModState) (x : Listener) : Listener :=
  {| is_replaying := is_replaying x; active_modifiers := active_modifiers x; blocking_hooks := blocking_hooks x; blocking_keys := blocking_keys x; nonblocking_keys := nonblocking_keys x; blocking_hotkeys := blocking_hotkeys x; nonblocking_hotkeys := nonblocking_hotkeys x; filtered_modifiers := filtered_modifiers x; modifier_states := v; handlers := handlers x; queue := queue x |}.

Definition set_handlers (v : list Hook) (x : Listener) : Listener :=
  {| is_replaying := is_replaying x; active_modifiers := active_modifiers x; blocking_hooks := blocking_hooks x; blocking_keys := blocking_keys x; nonblocking_keys := nonblocking_keys x; blocking_hotkeys := blocking_hotkeys x; nonblocking_hotkeys := nonblocking_hotkeys x; filtered_modifiers := filtered_modifiers x; modifier_states := modifier_states x; handlers := v; queue := queue x |}.

Definition set_queue (v : list KeyboardEvent) (x : Listener) : Listener :=
  {| is_replaying := is_replaying x; active_modifiers := active_modifiers x; blocking_hooks := blocking_hooks x; blocking_keys := blocking_keys x; nonblocking_keys := nonblocking_keys x; blocking_hotkeys := blocking_hotkeys x; nonblocking_hotkeys := nonblocking_hotkeys x; filtered_modifiers := filtered_modifiers x; modifier_states := modifier_states x; handlers := handlers x; queue := v |}.

(** The listener, the module globals, the [state] objects of the live
    multi-step registrations, and the surroundings: what was handed to
    the operating system, which callbacks ran, the monotonic clock and
    the supply of closure identities. *)
Record World := {
  _listener : Listener;
  _pressed_events : gmap Z KeyboardEvent;
  _logically_pressed_keys : gmap Z KeyboardEvent;
  _hooks : gmap Handle HookRemover;
  _hotkeys : gmap Handle HotkeyRemover;
  registrations : gmap nat HotkeyState;
  os_events : list OsEvent;
  calls : list nat;
  monotonic : Z;
  next_id : nat
}.

Definition set__listener (v : Listener) (x : World) : World :=
  {| _listener := v; _pressed_events := _pressed_events x; _logically_pressed_keys := _logically_pressed_keys x; _hooks := _hooks x; _hotkeys := _hotkeys x; registrations := registrations x; os_events := os_events x; calls := calls x; monotonic := monotonic x; next_id := next_id x |}.

Definition set__pressed_events (v : gmap Z KeyboardEvent) (x : World) : World :=
  {| _listener := _listener x; _pressed_events := v; _logically_pressed_keys := _logically_pressed_keys x; _hooks := _hooks x; _hotkeys := _hotkeys x; registrations := registrations x; os_events := os_events x; calls := calls x; monotonic := monotonic x; next_id := next_id x |}.

Definition set__logically_pressed_keys (v : gmap Z KeyboardEvent) (x : World) : World :=
  {| _listener := _listener x; _pressed_events := _pressed_events x; _logically_pressed_keys := v; _hooks := _hooks x; _hotkeys := _hotkeys x; registrations := registrations x; os_events := os_events x; calls := calls x; monotonic := monotonic x; next_id := next_id x |}.

Definition set__hooks (v : gmap Handle HookRemover) (x : World) : World :=
  {| _listener := _listener x; _pressed_events := _pressed_events x; _logically_pressed_keys := _logically_pressed_keys x; _hooks := v; _hotkeys := _hotkeys x; registrations := registrations x; os_events := os_events x; calls := calls x; monotonic := monotonic x; next_id := next_id x |}.

Definition set__hotkeys (v : gmap Handle HotkeyRemover) (x : World) : World :=
  {| _listener := _listener x; _pressed_events := _pressed_events x; _logically_pressed_keys := _logically_pressed_keys x; _hooks := _hooks x; _hotkeys := v; registrations := registrations x; os_events := os_events x; calls := calls x; monotonic := monotonic x; next_id := next_id x |}.

Definition set_registrations (v : gmap nat HotkeyState) (x : World) : World :=
  {| _listener := _listener x; _pressed_events := _pressed_events x; _logically_pressed_keys := _logically_pressed_keys x; _hooks := _hooks x; _hotkeys := _hotkeys x; registrations := v; os_events := os_events x; calls := calls x; monotonic := monotonic x; next_id := next_id x |}.

Definition set_os_events (v : list OsEvent) (x : World) : World :=
  {| _listener := _listener x; _pressed_events := _pressed_events x; _logically_pressed_keys := _logically_pressed_keys x; _hooks := _hooks x; _hotkeys := _hotkeys x; registrations := registrations x; os_events := v; calls := calls x; monotonic := monotonic x; next_id := next_id x |}.

Definition set_calls (v : list nat) (x : World) : World :=
  {| _listener := _listener x; _pressed_events := _pressed_events x; _logically_pressed_keys := _logically_pressed_keys x; _hooks := _hooks x; _hotkeys := _hotkeys x; registrations := registrations x; os_events := os_events x; calls := v; monotonic := monotonic x; next_id := next_id x |}.

Definition set_monotonic (v : Z) (x : World) : World :=
  {| _listener := _listener x; _pressed_events := _pressed_events x; _logically_pressed_keys := _logically_pressed_keys x; _hooks := _hooks x; _hotkeys := _hotkeys x; registrations := registrations x; os_events := os_events x; calls := calls x; monotonic := v; next_id := next_id x |}.

Definition set_next_id (v : nat) (x : World) : World :=
  {| _listener := _listener x; _pressed_events := _pressed_events x; _logically_pressed_keys := _logically_pressed_keys x; _hooks := _hooks x; _hotkeys := _hotkeys x; registrations := registrations x; os_events := os_events x; calls := calls x; monotonic := monotonic x; next_id := v |}.

Definition on_listener (f : Listener -> Listener) (w : World) : World :=
  set__listener (f (_listener w)) w.

(** ** What the module takes from outside these sources

    [_os_keyboard.map_name], the name table of [_canonical_names], the
    two methods of [GenericListener] that [hook] uses, and the depth the
    interpreter allows a recursion to reach. *)
Class Platform := {
  map_name : string -> Exn + list (Z * list string);
  normalize_name : string -> string;
  all_modifiers : list string;
  sided_modifiers : list string;
  add_handler : Hook -> list Hook -> list Hook;
  remove_handler : Hook -> list Hook -> Exn + list Hook;
  recursion_limit : nat
}.

(** ** Computations that may raise *)

#[global] Instance Exn_ret : MRet (sum Exn) := fun A a => inr a.
#[global] Instance Exn_bind : MBind (sum Exn) :=
  fun A B f m => match m with inl e => inl e | inr a => f a end.

(** ** Computations on the world that may raise

    An exception leaves the world as it was when it was raised. *)
Definition M (A : Type) : Type := World -> (Exn + A) * World.

#[global] Instance M_ret : MRet M := fun A a w => (inr a, w).
#[global] Instance M_bind : MBind M :=
  fun A B f m w =>
    match m w with
    | (inl e, w') => (inl e, w')
    | (inr a, w') => f a w'
    end.

Definition raise {A} (e : Exn) : M A := fun w => (inl e, w).
Definition gets {A} (f : World -> A) : M A := fun w => (inr (f w), w).
Definition modify (f : World -> World) : M unit := fun w => (inr tt, f w).
Definition lift {A} (r : Exn + A) : M A := fun w => (r, w).
Definition when (b : bool) (m : M unit) : M unit := if b then m else mret tt.

(** [for x in l: f(x)] over a sequence that the body does not change. *)
Fixpoint for_each {A} (l : list A) (f : A -> M unit) : M unit :=
  match l with
  | [] => mret tt
  | x :: l' => f x ;; for_each l' f
  end.

(** ** Splitting a hotkey string

    [_re.split] for the two patterns of [parse_hotkey].  [m s] is the
    length of the match that starts at the head of [s], [0] if there is
    none; [skip] counts the characters of a match still to be dropped. *)
Definition is_space (c : ascii) : bool :=
  let n := nat_of_ascii c in
  ((9 <=? n) && (n <=? 13) || (28 <=? n) && (n <=? 32)
   || (n =? 133) || (n =? 160))%nat.

Definition space_at_head (s : string) : nat :=
  match s with
  | String c _ => if is_space c then 1%nat else 0%nat
  | EmptyString => 0%nat
  end.

(** [,\s?] *)
Definition comma_match (s : string) : nat :=
  match s with
  | String "," rest => S (space_at_head rest)
  | _ => 0%nat
  end.

(** [\s?\+\s?] *)
Definition plus_match (s : string) : nat :=
  match s with
  | String "+" rest => S (space_at_head rest)
  | String c (String "+" rest) =>
      if is_space c then S (S (space_at_head rest)) else 0%nat
  | _ => 0%nat
  end.

Fixpoint re_split (m : string -> nat) (skip : nat) (s : string) : list string :=
  match s with
  | EmptyString => [""]
  | String c s' =>
      match skip with
      | S k => re_split m k s'
      | O =>
          match m s with
          | S k => "" :: re_split m k s'
          | O =>
              match re_split m 0 s' with
              | piece :: pieces => String c piece :: pieces
              | [] => [String c ""]
              end
          end
      end
  end.

Section WithPlatform.
Context `{Platform}.

(** ** [key_to_scan_codes] and [is_modifier] *)

Definition scan_codes_of_entries (r : Exn + list (Z * list string))
    : Exn + list Z :=
  match r with
  | inr entries => inr (unique (fst <$> entries))
  | inl KeyError | inl ValueError => inr []
  | inl e => inl e
  end.

(** [depth] is the number of nested calls still allowed; a call that
    would go deeper raises [RecursionError]. *)
Fixpoint key_to_scan_codes_at (depth : nat) (key : Key)
    (error_if_missing : bool) {struct depth} : Exn + list Z :=
  match key with
  | KNum code => inr [code]
  | KList keys =>
      match depth with
      | O => inl RecursionError
      | S depth =>
          parts ← mapM (fun i => key_to_scan_codes_at depth i true) keys;
          inr (concat parts)
      end
  | KStr s =>
      let normalized := normalize_name s in
      if bool_decide (normalized ∈ sided_modifiers) then
        match depth with
        | O => inl RecursionError
        | S depth =>
            left_scan_codes ←
              key_to_scan_codes_at depth (KStr ("left " +:+ normalized)) false;
            right_scan_codes ←
              key_to_scan_codes_at depth (KStr ("right " +:+ normalized)) false;
            inr (left_scan_codes ++
                 filter (fun c => c ∉ left_scan_codes) right_scan_codes)
        end
      else
        t ← scan_codes_of_entries (map_name normalized);
        if bool_decide (t = []) && error_if_missing
        then inl ValueError else inr t
  end.

Definition key_to_scan_codes (key : Key) (error_if_missing : bool)
    : Exn + list Z :=
  key_to_scan_codes_at recursion_limit key error_if_missing.

(** [is_modifier] on a scan code.  The source caches the set in
    [_modifier_scan_codes]; the set depends on the platform only. *)
Definition modifier_scan_codes : Exn + list Z :=
  scan_codes ← mapM (fun name => key_to_scan_codes (KStr name) false)
                    all_modifiers;
  inr (concat scan_codes).

Definition is_modifier (key : Z) : Exn + bool :=
  codes ← modifier_scan_codes;
  inr (bool_decide (key ∈ codes)).

(** ** [parse_hotkey] *)

Definition is_list (k : Key) : bool :=
  match k with KList _ => true | _ => false end.

(** A list that already holds lists is returned as it is; the model
    takes it when it has the shape of parsed steps. *)
Definition as_codes (k : Key) : option (list Z) :=
  match k with
  | KList l => mapM (fun x => match x with KNum z => Some z | _ => None end) l
  | _ => None
  end.

Definition as_step (k : Key) : option (list (list Z)) :=
  match k with KList l => mapM as_codes l | _ => None end.

Definition parse_hotkey (hotkey : Key) : Exn + list (list (list Z)) :=
  let single :=
    scan_codes ← key_to_scan_codes hotkey true;
    inr [[scan_codes]] in
  match hotkey with
  | KNum _ => single
  | KStr s =>
      if bool_decide (String.length s = 1%nat) then single
      else
        mapM (fun step =>
                mapM (fun key => key_to_scan_codes (KStr key) true)
                     (re_split plus_match 0 step))
             (re_split comma_match 0 s)
  | KList l =>
      if bool_decide (length l = 1%nat) then single
      else if negb (existsb is_list l) then
        step ← mapM (fun k => key_to_scan_codes k true) l;
        inr [step]
      else
        match mapM as_step l with
        | Some steps => inr steps
        | None => inl TypeError
        end
  end.

(** ** [send], [press] and [release] *)

Definition os_press (code : Z) : M unit :=
  modify (fun w => set_os_events (os_events w ++ [OsPress code]) w).

Definition os_release (code : Z) : M unit :=
  modify (fun w => set_os_events (os_events w ++ [OsRelease code]) w).

(** [scan_codes[0]] *)
Definition first_code (scan_codes : list Z) : M Z :=
  match scan_codes with
  | c :: _ => mret c
  | [] => raise IndexError
  end.

Definition send (hotkey : Key) (do_press do_release : bool) : M unit :=
  modify (on_listener (set_is_replaying true)) ;;
  parsed ← lift (parse_hotkey hotkey);
  for_each parsed (fun step =>
    when do_press
      (for_each step (fun scan_codes =>
         c ← first_code scan_codes; os_press c)) ;;
    when do_release
      (for_each (reverse step) (fun scan_codes =>
         c ← first_code scan_codes; os_release c))) ;;
  modify (on_listener (set_is_replaying false)).

Definition press (hotkey : Key) : M unit := send hotkey true false.
Definition release (hotkey : Key) : M unit := send hotkey false true.

(** ** Containers

    [blocking_keys] and the hotkey containers are
    [defaultdict(list)]: reading a missing key stores an empty list
    under it.  [filtered_modifiers] is a [Counter]: reading a missing
    key gives [0] and stores nothing. *)

Definition touch {K} `{Countable K} (k : K) (m : gmap K (list Hook))
    : gmap K (list Hook) :=
  match m !! k with
  | Some _ => m
  | None => <[k := []]> m
  end.

Definition entry {K} `{Countable K} (k : K) (m : gmap K (list Hook))
    : list Hook :=
  default [] (m !! k).

Definition count (k : Z) (m : gmap Z Z) : Z := default 0 (m !! k).

(** [l.remove(h)]: the first element equal to [h] goes, [None] when
    there is none (Python raises [ValueError]). *)
Fixpoint list_remove (h : Hook) (l : list Hook) : option (list Hook) :=
  match l with
  | [] => None
  | x :: l' =>
      if same_hook h x then Some l' else (x ::.) <$> list_remove h l'
  end.

Definition container (suppress : bool) (l : Listener)
    : gmap (list Z) (list Hook) :=
  if suppress then blocking_hotkeys l else nonblocking_hotkeys l.

Definition set_container (suppress : bool) (v : gmap (list Z) (list Hook))
    (l : Listener) : Listener :=
  if suppress then set_blocking_hotkeys v l else set_nonblocking_hotkeys v l.

Definition store (suppress : bool) (l : Listener) : gmap Z (list Hook) :=
  if suppress then blocking_keys l else nonblocking_keys l.

Definition set_store (suppress : bool) (v : gmap Z (list Hook))
    (l : Listener) : Listener :=
  if suppress then set_blocking_keys v l else set_nonblocking_keys v l.

Definition add_count (d : Z) (scan_code : Z) : M unit :=
  modify (on_listener (fun l =>
    set_filtered_modifiers
      (<[scan_code := count scan_code (filtered_modifiers l) + d]>
         (filtered_modifiers l)) l)).

Definition fresh : M nat :=
  n ← gets next_id;
  modify (set_next_id (S n)) ;;
  mret n.

(** [callback()] *)
Definition call (cb : Callback) : M bool :=
  log ← gets calls;
  modify (set_calls (log ++ [cb_id cb])) ;;
  mret (cb_result cb log).

(** ** [_add_hotkey_step] and the closure [remove] it returns *)

Definition _add_hotkey_step (handler : Hook) (combinations : list (list Z))
    (suppress : bool) : M StepRemover :=
  for_each combinations (fun scan_codes =>
    for_each scan_codes (fun scan_code =>
      m ← lift (is_modifier scan_code);
      when m (add_count 1 scan_code)) ;;
    modify (on_listener (fun l =>
      set_container suppress
        (<[scan_codes := entry scan_codes (container suppress l) ++ [handler]]>
           (container suppress l)) l))) ;;
  mret {| sr_handler := handler;
          sr_combinations := combinations;
          sr_suppress := suppress |}.

Definition run_step_remover (r : StepRemover) : M unit :=
  for_each (sr_combinations r) (fun scan_codes =>
    for_each scan_codes (fun scan_code =>
      m ← lift (is_modifier scan_code);
      when m (add_count (-1) scan_code)) ;;
    modify (on_listener (fun l =>
      set_container (sr_suppress r)
        (touch scan_codes (container (sr_suppress r) l)) l)) ;;
    l ← gets (fun w => entry scan_codes (container (sr_suppress r) (_listener w)));
    match list_remove (sr_handler r) l with
    | None => raise ValueError
    | Some l' =>
        modify (on_listener (fun l =>
          set_container (sr_suppress r)
            (<[scan_codes := l']> (container (sr_suppress r) l)) l))
    end).

(** ** [hook], [hook_key] and [unhook] *)

Definition set_hook_entry (k : Handle) (r : HookRemover) : M unit :=
  modify (fun w => set__hooks (<[k := r]> (_hooks w)) w).

Definition pop_hook_entry (k : Handle) : M unit :=
  modify (fun w => set__hooks (delete k (_hooks w)) w).

Definition hook (callback : Hook) (suppress : bool) : M HookRemover :=
  (if suppress then
     modify (on_listener (fun l =>
       set_blocking_hooks (blocking_hooks l ++ [callback]) l))
   else
     modify (on_listener (fun l =>
       set_handlers (add_handler callback (handlers l)) l))) ;;
  id ← fresh;
  let remove_ := RemoveHook (HClosure id) callback suppress in
  set_hook_entry (hook_id callback) remove_ ;;
  set_hook_entry (HClosure id) remove_ ;;
  mret remove_.

(** A key of a dictionary has to be hashable; a list is not. *)
Definition handle_of_key (k : Key) : option Handle :=
  match k with
  | KNum z => Some (HInt z)
  | KStr s => Some (HStr s)
  | KList _ => None
  end.

Definition hook_key (key : Key) (callback : Hook) (suppress : bool)
    : M HookRemover :=
  scan_codes ← lift (key_to_scan_codes key true);
  for_each scan_codes (fun scan_code =>
    modify (on_listener (fun l =>
      set_store suppress
        (<[scan_code := entry scan_code (store suppress l) ++ [callback]]>
           (store suppress l)) l))) ;;
  id ← fresh;
  let remove_ :=
    RemoveKey (HClosure id) callback (handle_of_key key) scan_codes suppress in
  set_hook_entry (hook_id callback) remove_ ;;
  match handle_of_key key with
  | None => raise TypeError
  | Some k => set_hook_entry k remove_
  end ;;
  set_hook_entry (HClosure id) remove_ ;;
  mret remove_.

Definition run_hook_remover (r : HookRemover) : M unit :=
  match r with
  | RemoveHook self callback suppress =>
      pop_hook_entry (hook_id callback) ;;
      pop_hook_entry self ;;
      if suppress then
        l ← gets (fun w => blocking_hooks (_listener w));
        match list_remove callback l with
        | None => raise ValueError
        | Some l' => modify (on_listener (set_blocking_hooks l'))
        end
      else
        l ← gets (fun w => handlers (_listener w));
        l' ← lift (remove_handler callback l);
        modify (on_listener (set_handlers l'))
  | RemoveKey self callback key scan_codes suppress =>
      pop_hook_entry (hook_id callback) ;;
      match key with
      | None => raise TypeError
      | Some k => pop_hook_entry k
      end ;;
      pop_hook_entry self ;;
      for_each scan_codes (fun scan_code =>
        modify (on_listener (fun l =>
          set_store suppress (touch scan_code (store suppress l)) l)) ;;
        l ← gets (fun w => entry scan_code (store suppress (_listener w)));
        match list_remove callback l with
        | None => raise ValueError
        | Some l' =>
            modify (on_listener (fun l =>
              set_store suppress
                (<[scan_code := l']> (store suppress l)) l))
        end)
  end.

(** [unhook(remove)]: [_hooks[remove]()] *)
Definition unhook (remove : Handle) : M unit :=
  tbl ← gets _hooks;
  match tbl !! remove with
  | None => raise KeyError
  | Some r => run_hook_remover r
  end.

(** ** The multi-step matcher of [add_hotkey]

    [catch_misses], [set_index] and the two [handler]s are closures
    over the [state] object of one registration, found here under its
    number. *)

Definition get_state (reg : nat) : M HotkeyState :=
  regs ← gets registrations;
  match regs !! reg with
  | Some st => mret st
  | None => raise AttributeError
  end.

Definition update_state (reg : nat) (f : HotkeyState -> HotkeyState) : M unit :=
  modify (fun w => set_registrations (alter f reg (registrations w)) w).

(** [steps[i]] *)
Definition step_at (st : HotkeyState) (i : nat) : M (list (list Z)) :=
  match hs_steps st !! i with
  | Some combinations => mret combinations
  | None => raise IndexError
  end.

(** [allowed_keys_by_step[i]], the union of the combinations of step
    [i]. *)
Definition allowed_keys_at (st : HotkeyState) (i : nat) : M (list Z) :=
  combinations ← step_at st i;
  mret (concat combinations).

Definition call_hook_remover (r : option HookRemover) : M unit :=
  match r with
  | None => mret tt
  | Some r => run_hook_remover r
  end.

(** [state.remove_last_step()]; it is [None] until [set_index] ran. *)
Definition call_step_remover (r : option StepRemover) : M unit :=
  match r with
  | None => raise TypeError
  | Some r => run_step_remover r
  end.

Definition is_last_index (st : HotkeyState) (i : nat) : bool :=
  bool_decide (Z.of_nat i = Z.of_nat (length (hs_steps st)) - 1).

Definition set_index (reg : nat) (new_index : nat) : M bool :=
  update_state reg (put_index new_index) ;;
  st ← get_state reg;
  match new_index with
  | O =>
      call_hook_remover (remove_catch_misses st) ;;
      update_state reg (put_remove_catch_misses None)
  | S O =>
      call_hook_remover (remove_catch_misses st) ;;
      r ← hook (hs_catch_misses st) true;
      update_state reg (put_remove_catch_misses (Some r))
  | _ => mret tt
  end ;;
  id ← fresh;
  let handler :=
    {| hook_id := HClosure id;
       hook_body := if is_last_index st new_index
                    then StepLast reg new_index
                    else StepMid reg new_index |} in
  combinations ← step_at st new_index;
  remove ← _add_hotkey_step handler combinations (hs_suppress st);
  update_state reg (put_remove_last_step (Some remove)) ;;
  now ← gets monotonic;
  update_state reg (put_last_update (Some now)) ;;
  mret false.

(** [timeout and _time.monotonic() - state.last_update >= timeout];
    [last_update] starts at minus infinity. *)
Definition expired (st : HotkeyState) (now : Z) : bool :=
  negb (bool_decide (hs_timeout st = 0))
  && match last_update st with
     | None => true
     | Some t => bool_decide (hs_timeout st <= now - t)
     end.

Definition replay (event : KeyboardEvent) : M unit :=
  match event_type event with
  | KEY_DOWN => press (KNum (scan_code event))
  | KEY_UP => release (KNum (scan_code event))
  end.

Definition catch_misses (reg : nat) (event : KeyboardEvent)
    (force_fail : bool) : M bool :=
  st ← get_state reg;
  mismatch ←
    (if bool_decide (event_type event = hs_event_type st)
        && negb (bool_decide (index st = O))
     then
       allowed ← allowed_keys_at st (index st);
       mret (negb (bool_decide (scan_code event ∈ allowed)))
     else mret false);
  now ← gets monotonic;
  (if mismatch || expired st now || force_fail then
     call_step_remover (remove_last_step st) ;;
     for_each (suppressed_events st) replay ;;
     update_state reg (put_suppressed_events []) ;;
     set_index reg 0 ;;
     mret tt
   else mret tt) ;;
  mret true.

(** The closure [remove] that a step handler reaches through the
    frame of the [set_index] call that made it. *)
Definition own_step_remover (self : Hook) (st : HotkeyState) (step : nat)
    : M StepRemover :=
  combinations ← step_at st step;
  mret {| sr_handler := self;
          sr_combinations := combinations;
          sr_suppress := hs_suppress st |}.

Definition last_handler (self : Hook) (reg step : nat)
    (event : KeyboardEvent) : M bool :=
  st ← get_state reg;
  (if bool_decide (event_type event = KEY_UP) then
     remove ← own_step_remover self st step;
     run_step_remover remove ;;
     set_index reg 0 ;;
     mret tt
   else mret tt) ;;
  accept ←
    (if bool_decide (event_type event = hs_event_type st)
     then call (hs_callback st) else mret false);
  if (accept : bool) then catch_misses reg event true
  else
    update_state reg (put_suppressed_events [event]) ;;
    mret false.

Definition mid_handler (self : Hook) (reg step : nat)
    (event : KeyboardEvent) : M bool :=
  st ← get_state reg;
  (if bool_decide (event_type event = KEY_UP) then
     remove ← own_step_remover self st step;
     run_step_remover remove ;;
     set_index reg (S step) ;;
     mret tt
   else mret tt) ;;
  update_state reg (fun st =>
    put_suppressed_events (suppressed_events st ++ [event]) st) ;;
  mret false.

(** The lambda that [add_hotkey] installs for a single-step hotkey. *)
Definition single_handler (trigger : EventType) (cb : Callback)
    (event : KeyboardEvent) : M bool :=
  logical ← gets _logically_pressed_keys;
  if bool_decide (trigger = KEY_DOWN)
     && bool_decide (event_type event = KEY_UP)
     && bool_decide (is_Some (logical !! scan_code event))
  then mret true
  else if bool_decide (trigger = event_type event) then call cb
  else mret false.

(** Calling a stored callable with an event. *)
Definition run_hook (h : Hook) (event : KeyboardEvent) : M bool :=
  match hook_body h with
  | UserHook f => mret (f event)
  | SingleStep trigger cb => single_handler trigger cb event
  | CatchMisses reg => catch_misses reg event false
  | StepMid reg step => mid_handler h reg step event
  | StepLast reg step => last_handler h reg step event
  end.

(** ** [_KeyboardListener.transition_table] *)

Definition transition_table (key : ModState * EventType * Origin)
    : bool * option bool * ModState :=
  match key with
  | (free,       KEY_UP,   modifier) => (false, Some true,  free)
  | (free,       KEY_DOWN, modifier) => (false, Some false, pending)
  | (pending,    KEY_UP,   modifier) => (true,  Some true,  free)
  | (pending,    KEY_DOWN, modifier) => (false, Some true,  allowed)
  | (suppressed, KEY_UP,   modifier) => (false, Some false, free)
  | (suppressed, KEY_DOWN, modifier) => (false, Some false, suppressed)
  | (allowed,    KEY_UP,   modifier) => (false, Some true,  free)
  | (allowed,    KEY_DOWN, modifier) => (false, Some true,  allowed)

  | (free,       KEY_UP,   hotkey)   => (false, None,       free)
  | (free,       KEY_DOWN, hotkey)   => (false, None,       free)
  | (pending,    KEY_UP,   hotkey)   => (false, None,       suppressed)
  | (pending,    KEY_DOWN, hotkey)   => (false, None,       suppressed)
  | (suppressed, KEY_UP,   hotkey)   => (false, None,       suppressed)
  | (suppressed, KEY_DOWN, hotkey)   => (false, None,       suppressed)
  | (allowed,    KEY_UP,   hotkey)   => (false, None,       allowed)
  | (allowed,    KEY_DOWN, hotkey)   => (false, None,       allowed)

  | (free,       KEY_UP,   other)    => (false, Some true,  free)
  | (free,       KEY_DOWN, other)    => (false, Some true,  free)
  | (pending,    KEY_UP,   other)    => (true,  Some true,  allowed)
  | (pending,    KEY_DOWN, other)    => (true,  Some true,  allowed)
  | (suppressed, KEY_UP,   other)    => (false, Some false, allowed)
  | (suppressed, KEY_DOWN, other)    => (true,  Some true,  allowed)
  | (allowed,    KEY_UP,   other)    => (false, Some true,  allowed)
  | (allowed,    KEY_DOWN, other)    => (false, Some true,  allowed)
  end.

(** ** [_KeyboardListener.direct_callback]

    A list that a [for] or a comprehension walks is the live list: the
    iterator holds a position, and a hook that removes or appends
    changes what the following positions hold.  [sel] reads the list in
    the current world; [bound] limits the number of positions visited,
    and [Unfinished], which is no exception of Python, reports that it
    was reached. *)

#[global] Arguments transition_table : simpl never.

(** [all(hook(event) for hook in l)], and the loop
    [for key_hook in l: if not key_hook(event): return False]. *)
Fixpoint all_hooks (bound : nat) (sel : World -> list Hook) (i : nat)
    (event : KeyboardEvent) : M bool :=
  match bound with
  | O => raise Unfinished
  | S bound =>
      l ← gets sel;
      match l !! i with
      | None => mret true
      | Some h =>
          ok ← run_hook h event;
          if (ok : bool) then all_hooks bound sel (S i) event
          else mret false
      end
  end.

(** [[callback(event) for callback in l]] *)
Fixpoint collect_hooks (bound : nat) (sel : World -> list Hook) (i : nat)
    (event : KeyboardEvent) : M (list bool) :=
  match bound with
  | O => raise Unfinished
  | S bound =>
      l ← gets sel;
      match l !! i with
      | None => mret []
      | Some h =>
          r ← run_hook h event;
          rs ← collect_hooks bound sel (S i) event;
          mret (r :: rs)
      end
  end.

(** The block under [_pressed_events_lock]; the value is the tuple
    [hotkey], the sorted tuple of the scan codes held down. *)
Definition update_pressed (event : KeyboardEvent) : M (list Z) :=
  let scan_code := scan_code event in
  (if bool_decide (event_type event = KEY_DOWN) then
     m ← lift (is_modifier scan_code);
     when m (modify (on_listener (fun l =>
       set_active_modifiers (active_modifiers l ∪ {[scan_code]}) l))) ;;
     modify (fun w =>
       set__pressed_events (<[scan_code := event]> (_pressed_events w)) w)
   else mret tt) ;;
  signature ← gets (fun w => merge_sort Z.le (elements (dom (_pressed_events w))));
  (if bool_decide (event_type event = KEY_UP) then
     modify (on_listener (fun l =>
       set_active_modifiers (active_modifiers l ∖ {[scan_code]}) l)) ;;
     modify (fun w =>
       set__pressed_events (delete scan_code (_pressed_events w)) w)
   else mret tt) ;;
  mret signature.

(** [for key in sorted(modifiers_to_update): ...] *)
Fixpoint update_modifiers (keys : list Z) (event_type : EventType)
    (origin : Origin) (accept : bool) : M bool :=
  match keys with
  | [] => mret accept
  | key :: keys =>
      state ← gets (fun w =>
        default free (modifier_states (_listener w) !! key));
      let '(should_press, new_accept, new_state) :=
        transition_table (state, event_type, origin) in
      when should_press (press (KNum key)) ;;
      modify (on_listener (fun l =>
        set_modifier_states (<[key := new_state]> (modifier_states l)) l)) ;;
      update_modifiers keys event_type origin (default accept new_accept)
  end.

(** The block under [if self.blocking_hotkeys:]; the value is
    [accept]. *)
Definition filter_hotkeys (bound : nat) (event : KeyboardEvent)
    (signature : list Z) : M bool :=
  let scan_code := scan_code event in
  table ← gets (fun w => blocking_hotkeys (_listener w));
  if bool_decide (table = ∅) then mret true
  else
    n ← gets (fun w => count scan_code (filtered_modifiers (_listener w)));
    if negb (bool_decide (n = 0)) then
      update_modifiers [scan_code] (event_type event) modifier true
    else
      before ← gets (fun w => active_modifiers (_listener w));
      m ← lift (is_modifier scan_code);
      modify (on_listener (fun l =>
        set_blocking_hotkeys (touch signature (blocking_hotkeys l)) l)) ;;
      callback_results ←
        collect_hooks bound
          (fun w => entry signature (blocking_hotkeys (_listener w))) 0 event;
      after ← gets (fun w => active_modifiers (_listener w));
      let modifiers_to_update : gset Z :=
        if (m : bool) then before ∪ {[scan_code]} else after in
      let keys := merge_sort Z.le (elements modifiers_to_update) in
      match callback_results with
      | [] => update_modifiers keys (event_type event) other true
      | _ => update_modifiers keys (event_type event) hotkey
               (forallb id callback_results)
      end.

Definition update_logical (event : KeyboardEvent) : M unit :=
  match event_type event with
  | KEY_DOWN =>
      modify (fun w =>
        set__logically_pressed_keys
          (<[scan_code event := event]> (_logically_pressed_keys w)) w)
  | KEY_UP =>
      modify (fun w =>
        set__logically_pressed_keys
          (delete (scan_code event) (_logically_pressed_keys w)) w)
  end.

(** [all(hook(event) for hook in self.blocking_hooks)] *)
Definition blocking_hooks_pass (bound : nat) (event : KeyboardEvent)
    : M bool :=
  all_hooks bound (fun w => blocking_hooks (_listener w)) 0 event.

(** [for key_hook in self.blocking_keys[scan_code]: ...]; the value is
    [false] when a hook made the callback return. *)
Definition blocking_keys_pass (bound : nat) (event : KeyboardEvent)
    : M bool :=
  modify (on_listener (fun l =>
    set_blocking_keys (touch (scan_code event) (blocking_keys l)) l)) ;;
  all_hooks bound
    (fun w => entry (scan_code event) (blocking_keys (_listener w)))
    0 event.

Definition queue_put (event : KeyboardEvent) : M unit :=
  modify (on_listener (fun l => set_queue (queue l ++ [event]) l)).

Definition direct_callback (bound : nat) (event : KeyboardEvent) : M bool :=
  replaying ← gets (fun w => is_replaying (_listener w));
  if (replaying : bool) then mret true
  else
    ok ← blocking_hooks_pass bound event;
    if negb ok then mret false
    else
      signature ← update_pressed event;
      ok ← blocking_keys_pass bound event;
      if negb ok then mret false
      else
        accept ← filter_hotkeys bound event signature;
        when accept (update_logical event) ;;
        queue_put event ;;
        mret accept.

(** ** [parse_hotkey_combinations], [add_hotkey] and [remove_hotkey] *)

(** [_itertools.product] over the keys of a step *)
Fixpoint product (keys : list (list Z)) : list (list Z) :=
  match keys with
  | [] => [[]]
  | key :: rest => c ← key; r ← product rest; [c :: r]
  end.

Definition combine_step (step : list (list Z)) : list (list Z) :=
  merge_sort Z.le <$> product step.

Definition parse_hotkey_combinations (hotkey : Key)
    : Exn + list (list (list Z)) :=
  match parse_hotkey hotkey with
  | inl e => inl e
  | inr steps => inr (combine_step <$> steps)
  end.

Definition set_hotkey_entry (k : Handle) (r : HotkeyRemover) : M unit :=
  modify (fun w => set__hotkeys (<[k := r]> (_hotkeys w)) w).

Definition pop_hotkey_entry (k : Handle) : M unit :=
  modify (fun w => set__hotkeys (delete k (_hotkeys w)) w).

(** [_hotkeys[hotkey] = _hotkeys[remove_] = _hotkeys[callback] = remove_] *)
Definition register_remover (hotkey : Key) (self callback : Handle)
    (mk : Handle -> HotkeyRemover) : M HotkeyRemover :=
  match handle_of_key hotkey with
  | None => raise TypeError
  | Some spec =>
      let remove_ := mk spec in
      set_hotkey_entry spec remove_ ;;
      set_hotkey_entry self remove_ ;;
      set_hotkey_entry callback remove_ ;;
      mret remove_
  end.

(** [add_hotkey] with [args] left at its default. *)
Definition add_hotkey (hotkey : Key) (callback : Callback)
    (suppress : bool) (timeout : Z) (trigger_on_release : bool)
    : M HotkeyRemover :=
  steps ← lift (parse_hotkey_combinations hotkey);
  let event_type := if trigger_on_release then KEY_UP else KEY_DOWN in
  match steps with
  | [step] =>
      id ← fresh;
      let handler :=
        {| hook_id := HClosure id;
           hook_body := SingleStep event_type callback |} in
      remove_step ← _add_hotkey_step handler step suppress;
      id ← fresh;
      register_remover hotkey (HClosure id) (HUser (cb_id callback))
        (fun spec =>
           RemoveSingle (HClosure id) remove_step spec (HUser (cb_id callback)))
  | _ =>
      reg ← fresh;
      id ← fresh;
      modify (fun w =>
        set_registrations
          (<[reg := {| hs_steps := steps;
                       hs_event_type := event_type;
                       hs_callback := callback;
                       hs_timeout := timeout;
                       hs_suppress := suppress;
                       hs_catch_misses :=
                         {| hook_id := HClosure id;
                            hook_body := CatchMisses reg |};
                       index := 0;
                       remove_catch_misses := None;
                       remove_last_step := None;
                       suppressed_events := [];
                       last_update := None |}]> (registrations w)) w) ;;
      set_index reg 0 ;;
      id ← fresh;
      register_remover hotkey (HClosure id) (HUser (cb_id callback))
        (fun spec =>
           RemoveMulti (HClosure id) reg spec (HUser (cb_id callback)))
  end.

Definition run_hotkey_remover (r : HotkeyRemover) : M unit :=
  match r with
  | RemoveSingle self remove_step spec callback =>
      run_step_remover remove_step ;;
      pop_hotkey_entry spec ;;
      pop_hotkey_entry self ;;
      pop_hotkey_entry callback
  | RemoveMulti self reg spec callback =>
      st ← get_state reg;
      call_hook_remover (remove_catch_misses st) ;;
      st ← get_state reg;
      call_step_remover (remove_last_step st) ;;
      pop_hotkey_entry spec ;;
      pop_hotkey_entry self ;;
      pop_hotkey_entry callback
  end.

(** [remove_hotkey(hotkey_or_callback)]: [_hotkeys[hotkey_or_callback]()] *)
Definition remove_hotkey (hotkey_or_callback : Handle) : M unit :=
  tbl ← gets _hotkeys;
  match tbl !! hotkey_or_callback with
  | None => raise KeyError
  | Some r => run_hotkey_remover r
  end.

(** ** The handler of [add_word_listener] and [get_typed_strings] *)

(** The [state] object of one word listener. *)
Record WordState := {
  current : string;
  state_time : Z
}.

Record WordListener := {
  word : string;
  triggers : list string;
  match_suffix : bool;
  word_timeout : Z
}.

Definition ends_with (s suffix : string) : bool :=
  starts_with (String.rev suffix) (String.rev s).

Definition name_in (n : option string) (l : list string) : bool :=
  match n with
  | Some s => bool_decide (s ∈ l)
  | None => false
  end.

(** [state.current] after the test of the timeout. *)
Definition fresh_buffer (wl : WordListener) (event : KeyboardEvent)
    (state : WordState) : string :=
  if negb (bool_decide (word_timeout wl = 0))
     && bool_decide (word_timeout wl < time event - state_time state)
  then "" else current state.

(** [matched] *)
Definition matched (wl : WordListener) (buffer : string) : bool :=
  bool_decide (buffer = word wl)
  || match_suffix wl && ends_with buffer (word wl).

(** The value says whether [callback] was invoked; [len(name)] raises
    when the event has no name. *)
Definition word_handler (wl : WordListener) (event : KeyboardEvent)
    (state : WordState) : (Exn + bool) * WordState :=
  let name := name event in
  if bool_decide (event_type event = KEY_UP) || name_in name all_modifiers
  then (inr false, state)
  else
    let buffer := fresh_buffer wl event state in
    let reset := {| current := ""; state_time := time event |} in
    if name_in name (triggers wl) && matched wl buffer then (inr true, reset)
    else
      match name with
      | None => (inl TypeError,
                 {| current := buffer; state_time := time event |})
      | Some n =>
          if bool_decide (1 < String.length n)%nat then (inr false, reset)
          else (inr false, {| current := buffer +:+ n;
                              state_time := time event |})
      end.


(** ** The world after [_KeyboardListener.init] *)

Definition initial_listener : Listener :=
  {| is_replaying := false;
     active_modifiers := ∅;
     blocking_hooks := [];
     blocking_keys := ∅;
     nonblocking_keys := ∅;
     blocking_hotkeys := ∅;
     nonblocking_hotkeys := ∅;
     filtered_modifiers := ∅;
     modifier_states := ∅;
     handlers := [];
     queue := [] |}.

Definition initial_world : World :=
  {| _listener := initial_listener;
     _pressed_events := ∅;
     _logically_pressed_keys := ∅;
     _hooks := ∅;
     _hotkeys := ∅;
     registrations := ∅;
     os_events := [];
     calls := [];
     monotonic := 0;
     next_id := 0 |}.

End WithPlatform.

(** [get_typed_strings], the strings in the order the generator yields
    them.  [upper] is [str.upper]; [backspace_name] depends on the
    platform. *)
Section TypedStrings.
Variable upper : string -> string.
Variable backspace_name : string.

Fixpoint contains (needle s : string) : bool :=
  starts_with needle s
  || match s with
     | EmptyString => false
     | String _ s' => contains needle s'
     end.

Definition drop_last (s : string) : string :=
  String.rev (match String.rev s with
              | EmptyString => EmptyString
              | String _ r => r
              end).

Fixpoint typed_strings_from (allow_backspace : bool)
    (shift_pressed capslock_pressed : bool) (string_ : string)
    (events : list KeyboardEvent) : Exn + list string :=
  match events with
  | [] => inr [string_]
  | event :: events =>
      match name event with
      | None => inl TypeError
      | Some event_name =>
          let name := if bool_decide (event_name = "space") then " "
                      else event_name in
          let down := bool_decide (event_type event = KEY_DOWN) in
          if contains "shift" event_name then
            typed_strings_from allow_backspace down capslock_pressed
              string_ events
          else if bool_decide (event_name = "caps lock") && down then
            typed_strings_from allow_backspace shift_pressed
              (negb capslock_pressed) string_ events
          else if allow_backspace
                  && bool_decide (event_name = backspace_name) && down then
            typed_strings_from allow_backspace shift_pressed
              capslock_pressed (drop_last string_) events
          else if down then
            if bool_decide (String.length name = 1%nat) then
              let name := if xorb shift_pressed capslock_pressed
                          then upper name else name in
              typed_strings_from allow_backspace shift_pressed
                capslock_pressed (string_ +:+ name) events
            else
              rest ← typed_strings_from allow_backspace shift_pressed
                       capslock_pressed "" events;
              inr (string_ :: rest)
          else
            typed_strings_from allow_backspace shift_pressed
              capslock_pressed string_ events
      end
  end.

Definition get_typed_strings (events : list KeyboardEvent)
    (allow_backspace : bool) : Exn + list string :=
  typed_strings_from allow_backspace false false "" events.
End TypedStrings.

End Engine.

(** ** A small platform for the worked examples

    A handful of keys of a US layout with their Linux scan codes; the name
    table is already canonical, handlers are appended and removed as in a
    plain list. *)

Module Demo.
Import Engine.

Definition table : list (string * list Z) :=
  [("a", [30]); ("b", [48]); ("c", [46]); ("space", [57]);
   ("left ctrl", [29]); ("right ctrl", [97]);
   ("left shift", [42]); ("right shift", [54]);
   ("left alt", [56]); ("right alt", [100]);
   ("left windows", [125]); ("right windows", [126])].

Definition demo_map_name (n : string) : Exn + list (Z * list string) :=
  match list_find (fun e => e.1 = n) table with
  | Some (_, (_, codes)) => inr ((fun c => (c, [])) <$> codes)
  | None => inl ValueError
  end.

Definition demo_sided : list string := ["ctrl"; "alt"; "shift"; "windows"].

Definition demo_all_modifiers : list string :=
  ["alt"; "alt gr"; "ctrl"; "shift"; "windows"]
  ++ ((fun n => "left " +:+ n) <$> demo_sided)
  ++ ((fun n => "right " +:+ n) <$> demo_sided).

Fixpoint remove_all (h : Hook) (l : list Hook) : list Hook :=
  match l with
  | [] => []
  | x :: l' => if same_hook h x then remove_all h l' else x :: remove_all h l'
  end.

(** [str.upper] on the letters [a] to [z]. *)
Definition upper_char (c : ascii) : ascii :=
  let n := nat_of_ascii c in
  if ((97 <=? n) && (n <=? 122))%nat then ascii_of_nat (n - 32) else c.

Fixpoint upper (s : string) : string :=
  match s with
  | EmptyString => EmptyString
  | String c s' => String (upper_char c) (upper s')
  end.

#[global] Instance demo_platform : Platform := {|
  map_name := demo_map_name;
  normalize_name := fun s => s;
  all_modifiers := demo_all_modifiers;
  sided_modifiers := demo_sided;
  add_handler := fun h l => l ++ [h];
  remove_handler := fun h l => inr (remove_all h l);
  recursion_limit := 1000
|}.

End Demo.

(** ** Vocabulary of the statements *)

Module Spec.
Import Engine.

(** The world a computation leaves and the value or exception it ends
    with. *)
Definition after {A} (m : M A) (w : World) : World := (m w).2.
Definition outcome {A} (m : M A) (w : World) : Exn + A := (m w).1.

(** [m] leaves the part [proj] of the world as it found it, whether it
    returns or raises. *)
Definition preserves {A B} (proj : World -> B) (m : M A) : Prop :=
  forall w, proj (m w).2 = proj w.

(** [m] keeps the property [P] of the world, whether it returns or
    raises. *)
Definition keeps {A} (P : World -> Prop) (m : M A) : Prop :=
  forall w, P w -> P (m w).2.

Definition the_queue (w : World) : list KeyboardEvent := queue (_listener w).
Definition the_blocking_hooks (w : World) : list Hook :=
  blocking_hooks (_listener w).
Definition the_modifier_states (w : World) : gmap Z ModState :=
  modifier_states (_listener w).
Definition the_container (suppress : bool) (w : World)
    : gmap (list Z) (list Hook) :=
  container suppress (_listener w).

(** What [replay] hands to the operating system for a buffered event. *)
Definition os_event_of (event : KeyboardEvent) : OsEvent :=
  match event_type event with
  | KEY_DOWN => OsPress (scan_code event)
  | KEY_UP => OsRelease (scan_code event)
  end.

(** The keys under which a removal closure is stored in [_hooks] and in
    [_hotkeys]. *)
Definition hook_remover_keys (r : HookRemover) : list Handle :=
  match r with
  | RemoveHook self callback _ => [hook_id callback; self]
  | RemoveKey self callback key _ _ =>
      hook_id callback :: self :: option_list key
  end.

Definition hotkey_remover_keys (r : HotkeyRemover) : list Handle :=
  match r with
  | RemoveSingle self _ spec callback => [spec; self; callback]
  | RemoveMulti self _ spec callback => [spec; self; callback]
  end.

(** Every entry of a table of removal closures sits under one of the
    keys of its closure. *)
Definition hooks_wf (w : World) : Prop :=
  forall k r, _hooks w !! k = Some r -> k ∈ hook_remover_keys r.

Definition hotkeys_wf (w : World) : Prop :=
  forall k r, _hotkeys w !! k = Some r -> k ∈ hotkey_remover_keys r.

(** How often a combination occurs in the combinations of a step. *)
Definition occurrences (c : list Z) (combinations : list (list Z)) : nat :=
  length (filter (fun c' => c' = c) combinations).

(** [remove_times h n l]: [l.remove(h)], [n] times. *)
Fixpoint remove_times (h : Hook) (n : nat) (l : list Hook)
    : option (list Hook) :=
  match n with
  | O => Some l
  | S n => l' ← list_remove h l; remove_times h n l'
  end.

(** [w'] has the container of [w] with [h] removed once under every
    combination of [combinations], as often as the combination occurs. *)
Definition removed (h : Hook) (suppress : bool)
    (combinations : list (list Z)) (w w' : World) : Prop :=
  forall c,
    remove_times h (occurrences c combinations)
      (entry c (the_container suppress w))
    = Some (entry c (the_container suppress w')).

(** [w'] has the container of [w] with [h] appended once under every
    combination of [combinations], as often as the combination occurs. *)
Definition added (h : Hook) (suppress : bool) (combinations : list (list Z))
    (w w' : World) : Prop :=
  forall c,
    entry c (the_container suppress w')
    = entry c (the_container suppress w)
      ++ replicate (occurrences c combinations) h.


Definition tables_wf (w : World) : Prop := hooks_wf w /\ hotkeys_wf w.

Section WithPlatform.
Context `{Platform}.

(** One call of the public interface, one event delivered by the
    backend, or the clock moving on. *)
Inductive api_step : World -> World -> Prop :=
  | step_hook callback suppress w :
      api_step w (after (hook callback suppress) w)
  | step_hook_key key callback suppress w :
      api_step w (after (hook_key key callback suppress) w)
  | step_unhook remove w :
      api_step w (after (unhook remove) w)
  | step_add_hotkey hotkey callback suppress timeout trigger_on_release w :
      api_step w
        (after (add_hotkey hotkey callback suppress timeout
                  trigger_on_release) w)
  | step_remove_hotkey hotkey_or_callback w :
      api_step w (after (remove_hotkey hotkey_or_callback) w)
  | step_send hotkey do_press do_release w :
      api_step w (after (send hotkey do_press do_release) w)
  | step_event bound event w :
      api_step w (after (direct_callback bound event) w)
  | step_clock now w :
      api_step w (set_monotonic now w).

Definition reachable (w : World) : Prop := rtc api_step initial_world w.

(** The event got past the replay test and the two stages that can
    veto it; [w3] is the world in which the block under
    [if self.blocking_hotkeys:] starts, [signature] the tuple
    [hotkey]. *)
Definition reaches_filter (bound : nat) (event : KeyboardEvent)
    (w : World) (signature : list Z) (w3 : World) : Prop :=
  is_replaying (_listener w) = false /\
  exists w1 w2,
    blocking_hooks_pass bound event w = (inr true, w1) /\
    update_pressed event w1 = (inr signature, w2) /\
    blocking_keys_pass bound event w2 = (inr true, w3).

(** The event is one of a filtered modifier whose state is [state],
    in a world with blocking hotkeys. *)
Definition filtered_modifier_in (state : ModState) (event : KeyboardEvent)
    (w : World) : Prop :=
  blocking_hotkeys (_listener w) <> ∅ /\
  count (scan_code event) (filtered_modifiers (_listener w)) <> 0 /\
  the_modifier_states w !! scan_code event = Some state.

(** What makes [catch_misses] give up the sequence: the event is on
    the trigger edge and its key is none of the current step, the
    timeout has run out, or the caller forces it. *)
Definition mismatch (st : HotkeyState) (event : KeyboardEvent) : Prop :=
  event_type event = hs_event_type st /\
  exists combinations,
    hs_steps st !! index st = Some combinations /\
    scan_code event ∉ concat combinations.

Definition miss (st : HotkeyState) (event : KeyboardEvent)
    (force_fail : bool) (now : Z) : Prop :=
  mismatch st event \/ expired st now = true \/ force_fail = true.

(** The world after [press(code)] returned. *)
Definition pressed (code : Z) (w : World) : World :=
  on_listener (set_is_replaying false)
    (set_os_events (os_events w ++ [OsPress code])
       (on_listener (set_is_replaying true) w)).

Definition released (code : Z) (w : World) : World :=
  on_listener (set_is_replaying false)
    (set_os_events (os_events w ++ [OsRelease code])
       (on_listener (set_is_replaying true) w)).
End WithPlatform.

End Spec.

(** ** Worked scenarios on the small platform *)

Module Scenario.
Import Engine Spec Demo.

Definition key_event (t : EventType) (code : Z) (n : string) : KeyboardEvent :=
  {| event_type := t; scan_code := code; name := Some n; time := 0 |}.

Definition a_down := key_event KEY_DOWN 30 "a".
Definition a_up := key_event KEY_UP 30 "a".
Definition b_down := key_event KEY_DOWN 48 "b".
Definition c_down := key_event KEY_DOWN 46 "c".
Definition c_up := key_event KEY_UP 46 "c".
Definition ctrl_down := key_event KEY_DOWN 29 "ctrl".
Definition ctrl_up := key_event KEY_UP 29 "ctrl".
Definition shift_down := key_event KEY_DOWN 42 "shift".
Definition shift_up := key_event KEY_UP 42 "shift".

(** A blocking hook that rejects every event, and a hotkey callback that
    asks for suppression. *)
Definition veto : Hook :=
  {| hook_id := HUser 0; hook_body := UserHook (fun _ => false) |}.

Definition quiet_callback : Callback :=
  {| cb_id := 7; cb_result := fun _ => false |}.

(** [hook(veto, suppress=True)] and [block_key('a')] on a fresh
    listener. *)
Definition veto_world : World := after (hook veto true) initial_world.
Definition block_world : World :=
  after (hook_key (KStr "a") veto true) initial_world.

(** [add_hotkey('ctrl+a', quiet_callback, suppress=True)], then the left
    control key goes down. *)
Definition ctrl_a_world : World :=
  after (add_hotkey (KStr "ctrl+a") quiet_callback true 1 false) initial_world.
Definition ctrl_pending_world : World :=
  after (direct_callback 8 ctrl_down) ctrl_a_world.

(** The world in which the hotkey block of [direct_callback] starts. *)
Definition filter_world (event : KeyboardEvent) (w : World) : World :=
  after (blocking_keys_pass 8 event)
    (after (update_pressed event) (after (blocking_hooks_pass 8 event) w)).

(** [add_hotkey('a', quiet_callback, suppress=True)], then
    [remove_hotkey('a')]; [unhook(veto)] after [hook(veto)]. *)
Definition hotkey_a_world : World :=
  after (add_hotkey (KStr "a") quiet_callback true 1 false) initial_world.
Definition removed_once : World :=
  after (remove_hotkey (HStr "a")) hotkey_a_world.
Definition unhooked_once : World := after (unhook (HUser 0)) veto_world.

(** A callback that lets the key through. *)
Definition accepting_callback : Callback :=
  {| cb_id := 9; cb_result := fun _ => true |}.

(** [add_hotkey('a, b', accepting_callback, suppress=True)]; [a] has
    gone down and up, the matcher waits at step 1 with both events in
    its buffer. *)
Definition two_step_world : World :=
  after (add_hotkey (KStr "a, b") accepting_callback true 1 false)
    initial_world.
Definition waiting_world : World :=
  after (direct_callback 8 a_up) (after (direct_callback 8 a_down) two_step_world).

Definition blank_state : HotkeyState :=
  {| hs_steps := []; hs_event_type := KEY_DOWN;
     hs_callback := accepting_callback; hs_timeout := 0;
     hs_suppress := false; hs_catch_misses := veto; index := 0;
     remove_catch_misses := None; remove_last_step := None;
     suppressed_events := []; last_update := None |}.

Definition state_of (reg : nat) (w : World) : HotkeyState :=
  default blank_state (registrations w !! reg).

Definition waiting_state : HotkeyState := state_of 0 waiting_world.

Definition waiting_remover : StepRemover :=
  {| sr_handler := {| hook_id := HClosure 5; hook_body := StepLast 0 1 |};
     sr_combinations := [[48]];
     sr_suppress := true |}.

Definition waiting_catch_misses : Hook :=
  {| hook_id := HClosure 1; hook_body := CatchMisses 0 |}.

(** The same hotkey with [trigger_on_release=True]; [a] goes down and
    up, [b] goes down, then [c] goes down and up. *)
Definition release_world : World :=
  after (add_hotkey (KStr "a, b") accepting_callback true 1 true)
    initial_world.
Definition release_a_down : World := after (direct_callback 8 a_down) release_world.
Definition release_a_up : World := after (direct_callback 8 a_up) release_a_down.
Definition release_b_down : World := after (direct_callback 8 b_down) release_a_up.
Definition release_c_down : World := after (direct_callback 8 c_down) release_b_down.
Definition release_c_up : World := after (direct_callback 8 c_up) release_c_down.

(** [add_hotkey('ctrl+shift+a', accepting_callback, suppress=True)];
    the left control key, the left shift key and [a] go down, then shift
    and [a] go up. *)
Definition chord_world : World :=
  after (add_hotkey (KStr "ctrl+shift+a") accepting_callback true 1 false)
    initial_world.
Definition chord_ctrl_down : World :=
  after (direct_callback 8 ctrl_down) chord_world.
Definition chord_shift_down : World :=
  after (direct_callback 8 shift_down) chord_ctrl_down.
Definition chord_a_down : World :=
  after (direct_callback 8 a_down) chord_shift_down.
Definition chord_shift_up : World :=
  after (direct_callback 8 shift_up) chord_a_down.
Definition chord_a_up : World :=
  after (direct_callback 8 a_up) chord_shift_up.

(** The scan codes of the modifier names of the platform. *)
Definition demo_modifier_codes : list Z :=
  Eval vm_compute in
    match modifier_scan_codes with inr codes => codes | inl _ => [] end.

(** [add_word_listener('Ab', callback)] with its defaults. *)
Definition ab_listener : WordListener :=
  {| word := "Ab"; triggers := ["space"]; match_suffix := false;
     word_timeout := 2 |}.

Definition empty_buffer : WordState := {| current := ""; state_time := -1 |}.

End Scenario.

(** ** Queries, clearing and saved key state

    [is_pressed], [unhook_all], [unhook_all_hotkeys], [block_key],
    [stash_state], [restore_state] and [restore_modifiers].  The call
    [_listener.start_if_necessary()] that opens some of them starts the
    listener where it is not listening yet, and runs [init] then; the
    model takes the listener as started, with [initial_world] the world
    that [init] leaves. *)

Module Surface.
Import Engine Spec.

Section WithPlatform.
Context `{Platform}.

(** [any(scan_code in pressed_scan_codes for scan_code in scan_codes)]
    for every key of the step. *)
Definition step_is_pressed (pressed_scan_codes : gset Z)
    (step : list (list Z)) : bool :=
  forallb (fun scan_codes =>
             existsb (fun scan_code =>
                        bool_decide (scan_code ∈ pressed_scan_codes))
                     scan_codes)
          step.

Definition is_pressed (hotkey : Key) : M bool :=
  match hotkey with
  | KNum code =>
      gets (fun w => bool_decide (is_Some (_pressed_events w !! code)))
  | _ =>
      steps ← lift (parse_hotkey hotkey);
      if bool_decide (1 < length steps)%nat then raise ValueError
      else
        pressed_scan_codes ← gets (fun w => dom (_pressed_events w));
        match steps with
        | [] => raise IndexError
        | step :: _ => mret (step_is_pressed pressed_scan_codes step)
        end
  end.

Definition unhook_all_hotkeys : M unit :=
  modify (on_listener (set_blocking_hotkeys ∅)) ;;
  modify (on_listener (set_nonblocking_hotkeys ∅)).

Definition unhook_all : M unit :=
  modify (on_listener (set_blocking_keys ∅)) ;;
  modify (on_listener (set_nonblocking_keys ∅)) ;;
  modify (on_listener (set_blocking_hooks [])) ;;
  modify (on_listener (set_handlers [])) ;;
  unhook_all_hotkeys.

(** [hook_key(key, lambda e: False, suppress=True)]; the lambda is a
    new object at every call. *)
Definition block_key (key : Key) : M HookRemover :=
  id ← fresh;
  hook_key key
    {| hook_id := HClosure id; hook_body := UserHook (fun _ => false) |}
    true.

(** [sorted(_pressed_events)] *)
Definition pressed_scan_codes (w : World) : list Z :=
  merge_sort Z.le (elements (dom (_pressed_events w))).

Definition stash_state : M (list Z) :=
  state ← gets pressed_scan_codes;
  for_each state os_release ;;
  mret state.

(** [restore_state] builds [set(scan_codes)] after it has set the flag
    and read the pressed keys; an argument that is a generator runs
    then, and what it raises leaves from there.  The two loops walk
    sets, in an order Python does not fix; the model walks them in the
    order of [elements]. *)
Definition restore_state_from (scan_codes : Exn + list Z) : M unit :=
  modify (on_listener (set_is_replaying true)) ;;
  current ← gets (fun w => dom (_pressed_events w));
  scan_codes ← lift scan_codes;
  let target : gset Z := list_to_set scan_codes in
  for_each (elements (current ∖ target)) os_release ;;
  for_each (elements (target ∖ current)) os_press ;;
  modify (on_listener (set_is_replaying false)).

Definition restore_state (scan_codes : list Z) : M unit :=
  restore_state_from (inr scan_codes).

(** [(scan_code for scan_code in scan_codes if is_modifier(scan_code))] *)
Fixpoint modifiers_among (scan_codes : list Z) : Exn + list Z :=
  match scan_codes with
  | [] => inr []
  | scan_code :: scan_codes =>
      m ← is_modifier scan_code;
      rest ← modifiers_among scan_codes;
      inr (if (m : bool) then scan_code :: rest else rest)
  end.

Definition restore_modifiers (scan_codes : list Z) : M unit :=
  restore_state_from (modifiers_among scan_codes).

End WithPlatform.
End Surface.

(** ** Vocabulary of the further properties *)

Module Terms.
Import Engine Spec.

(** [c in s] for a character [c]. *)
Fixpoint occurs (c : ascii) (s : string) : bool :=
  match s with
  | EmptyString => false
  | String a s' => Ascii.eqb c a || occurs c s'
  end.

Fixpoint ends_in_space (s : string) : bool :=
  match s with
  | EmptyString => false
  | String c EmptyString => is_space c
  | String _ s' => ends_in_space s'
  end.

(** No white space at either end. *)
Definition trimmed (s : string) : Prop :=
  space_at_head s = 0%nat /\ ends_in_space s = false.

(** The number of combinations of a step: one choice of scan code for
    every key. *)
Definition choices (step : list (list Z)) : nat :=
  foldr Nat.mul 1%nat (length <$> step).

(** The first scan code of every key of a step, as [send] uses them. *)
Definition first_codes (step : list (list Z)) : list Z :=
  omap head step.

(** How often [_add_hotkey_step] counts the scan code [k] for the
    scan codes [scan_codes]: once for every occurrence, if [k] is the
    scan code of a modifier. *)
Definition weight (codes : list Z) (k : Z) (scan_codes : list Z) : Z :=
  if bool_decide (k ∈ codes)
  then Z.of_nat (length (filter (fun c => c = k) scan_codes))
  else 0.

Definition the_count (k : Z) (w : World) : Z :=
  count k (filtered_modifiers (_listener w)).

(** [h] is none of the callables of [l]. *)
Definition absent (h : Hook) (l : list Hook) : Prop :=
  Forall (fun x => same_hook h x = false) l.

Definition flag_is_set (w : World) : Prop :=
  is_replaying (_listener w) = true.

Definition flag_is_clear (w : World) : Prop :=
  is_replaying (_listener w) = false.

(** A loop of [send] ends normally or with the [IndexError] of
    [scan_codes[0]]. *)
Definition stops (r : Exn + unit) : Prop :=
  r = inr tt \/ r = inl IndexError.

(** The world after [events] were handed to the operating system. *)
Definition emitted (events : list OsEvent) (w : World) : World :=
  set_os_events (os_events w ++ events) w.

(** What [send] hands to the operating system for one step. *)
Definition step_events (do_press do_release : bool) (step : list (list Z))
    : list OsEvent :=
  (if do_press then OsPress <$> first_codes step else [])
  ++ (if do_release then OsRelease <$> reverse (first_codes step) else []).

(** The event is the key-down of the character [c]. *)
Definition types (c : ascii) (event : KeyboardEvent) : Prop :=
  event_type event = KEY_DOWN /\ name event = Some (String c EmptyString).

(** No event comes later than [timeout] after the one before it;
    [last] is the time of the event before the first.  A [timeout] of
    zero switches the test off. *)
Fixpoint paced (timeout last : Z) (events : list KeyboardEvent) : Prop :=
  match events with
  | [] => True
  | event :: events =>
      (timeout = 0 \/ time event - last <= timeout) /\
      paced timeout (time event) events
  end.

(** An event that [get_typed_strings] looks at: a key-down, an event of
    a shift key, or an event without a name, on which it raises. *)
Definition leaves_a_mark (event : KeyboardEvent) : bool :=
  bool_decide (event_type event = KEY_DOWN)
  || match name event with
     | None => true
     | Some n => contains "shift" n
     end.

(** [h] is the handler that [add_hotkey] installs for a hotkey of one
    step with [trigger_on_release=False]. *)
Definition triggers_on_key_down (h : Hook) : Prop :=
  exists callback, hook_body h = SingleStep KEY_DOWN callback.

(** What the loop over the modifiers leaves in [accept] at a key-up of
    origin ['other']: every row of that origin sets [accept], so the
    last key of the loop decides, and of its states only ['suppressed']
    rejects. *)
Definition last_modifier_accepts (keys : list Z)
    (states : gmap Z ModState) : bool :=
  match last keys with
  | None => true
  | Some key =>
      negb (bool_decide (default free (states !! key) = suppressed))
  end.

Section WithPlatform.
Context `{Platform}.

(** The handler of a word listener run over [events]: whether it
    invoked the callback at each event, and the state it ends in;
    [None] if it raised. *)
Fixpoint word_results (wl : WordListener) (events : list KeyboardEvent)
    (state : WordState) : option (list bool * WordState) :=
  match events with
  | [] => Some ([], state)
  | event :: events =>
      match word_handler wl event state with
      | (inr invoked, state) =>
          match word_results wl events state with
          | Some (rest, state) => Some (invoked :: rest, state)
          | None => None
          end
      | (inl _, _) => None
      end
  end.

(** Every scan code in [active_modifiers] is the scan code of a
    modifier and is physically pressed. *)
Definition modifiers_are_held (w : World) : Prop :=
  forall c,
    c ∈ active_modifiers (_listener w) ->
    is_Some (_pressed_events w !! c) /\ is_modifier c = inr true.

(** The backend delivers [events] one after the other; what the
    callback answers goes back to the backend. *)
Definition deliver (bound : nat) (events : list KeyboardEvent) : M unit :=
  for_each events (fun event => direct_callback bound event ;; mret tt).
End WithPlatform.
End Terms.

(** ** A platform without a key map

    No name is mapped to a scan code; [ctrl] is the one sided modifier. *)

Module Bare.
Import Engine.

#[local] Instance bare_platform : Platform := {|
  map_name := fun _ => inl ValueError;
  normalize_name := fun s => s;
  all_modifiers := ["ctrl"; "left ctrl"; "right ctrl"];
  sided_modifiers := ["ctrl"];
  add_handler := fun h l => l ++ [h];
  remove_handler := fun h l => inr (Demo.remove_all h l);
  recursion_limit := 1000
|}.

Definition bare_key_to_scan_codes := key_to_scan_codes (H:=bare_platform).
Definition bare_send := send (H:=bare_platform).
End Bare.

(** ** A platform whose key map fails

    [map_name] ends with an error of the backend, which
    [key_to_scan_codes] does not catch. *)

Module Faulty.
Import Engine.

#[local] Instance faulty_platform : Platform := {|
  map_name := fun _ => inl BackendError;
  normalize_name := fun s => s;
  all_modifiers := ["shift"];
  sided_modifiers := [];
  add_handler := fun h l => l ++ [h];
  remove_handler := fun h l => inr (Demo.remove_all h l);
  recursion_limit := 1000
|}.

Definition faulty_restore_modifiers :=
  Surface.restore_modifiers (H:=faulty_platform).
End Faulty.

(** ** Further scenarios on the small platform *)

Module Sessions.
Import Engine Spec Demo Scenario Surface.

(** [send('nosuchkey')] on a fresh listener. *)
Definition failed_send_world : World :=
  after (send (KStr "nosuchkey") true true) initial_world.

(** The left control key and [a] are held down on a fresh listener. *)
Definition held_world : World :=
  after (direct_callback 8 a_down)
    (after (direct_callback 8 ctrl_down) initial_world).
End Sessions.

(** * Facts about the engine *)

Module Facts.
Import Engine Spec.

Section Monad.
Lemma bind_returns {A B} (m : M A) (f : A -> M B) w a w1 :
  m w = (inr a, w1) -> (m ≫= f) w = f a w1.
Proof. intros Hm. unfold mbind, M_bind. by rewrite Hm. Qed.

Lemma bind_raises {A B} (m : M A) (f : A -> M B) w e w1 :
  m w = (inl e, w1) -> (m ≫= f) w = (inl e, w1).
Proof. intros Hm. unfold mbind, M_bind. by rewrite Hm. Qed.

(** A sequence that returns has run both of its parts. *)
Lemma bind_inv {A B} (m : M A) (f : A -> M B) w b w2 :
  (m ≫= f) w = (inr b, w2) ->
  exists a w1, m w = (inr a, w1) /\ f a w1 = (inr b, w2).
Proof.
  unfold mbind, M_bind. destruct (m w) as [[e|a] w1] eqn:Hm; [done|].
  intros Hf. by exists a, w1.
Qed.

Lemma preserves_ret {A B} (proj : World -> B) (a : A) :
  preserves proj (mret a).
Proof. by intros w. Qed.

Lemma preserves_raise {A B} (proj : World -> B) e :
  preserves proj (raise (A:=A) e).
Proof. by intros w. Qed.

Lemma preserves_gets {A B} (proj : World -> B) (f : World -> A) :
  preserves proj (gets f).
Proof. by intros w. Qed.

Lemma preserves_lift {A B} (proj : World -> B) (r : Exn + A) :
  preserves proj (lift r).
Proof. by intros w. Qed.

Lemma preserves_modify {B} (proj : World -> B) f :
  (forall w, proj (f w) = proj w) -> preserves proj (modify f).
Proof. intros Hf w. apply Hf. Qed.

Lemma preserves_bind {A C B} (proj : World -> B) (m : M A) (f : A -> M C) :
  preserves proj m -> (forall a, preserves proj (f a)) ->
  preserves proj (m ≫= f).
Proof.
  intros Hm Hf w. unfold mbind, M_bind. specialize (Hm w).
  destruct (m w) as [[e|a] w']; simpl in *; [done|]. by rewrite Hf.
Qed.

Lemma preserves_for_each {A B} (proj : World -> B) (l : list A) f :
  (forall x, preserves proj (f x)) -> preserves proj (for_each l f).
Proof.
  intros Hf. induction l as [|x l IH]; simpl.
  - apply preserves_ret.
  - apply preserves_bind; auto.
Qed.

Lemma preserves_when {B} (proj : World -> B) b m :
  preserves proj m -> preserves proj (when b m).
Proof. destruct b; simpl; auto using preserves_ret. Qed.

Lemma preserves_after {A B} (proj : World -> B) (m : M A) w r w' :
  preserves proj m -> m w = (r, w') -> proj w' = proj w.
Proof. intros Hm Hw. specialize (Hm w). by rewrite Hw in Hm. Qed.
End Monad.

Ltac head_of t := match t with ?f _ => head_of f | _ => t end.

Ltac split_flag b :=
  lazymatch b with
  | true => fail
  | false => fail
  | _ => destruct b
  end.

Ltac frame_modify :=
  intros;
  repeat match goal with
         | |- context [set_container ?b] => split_flag b
         | |- context [set_store ?b] => split_flag b
         end;
  reflexivity.

Ltac frame_step :=
  lazymatch goal with
  | |- preserves _ (mret _) => apply preserves_ret
  | |- preserves _ (raise _) => apply preserves_raise
  | |- preserves _ (gets _) => apply preserves_gets
  | |- preserves _ (lift _) => apply preserves_lift
  | |- preserves _ (modify _) => apply preserves_modify; frame_modify
  | |- preserves _ (_ ≫= _) => apply preserves_bind; [|intros]
  | |- preserves _ (for_each _ _) => apply preserves_for_each; intros
  | |- preserves _ (when _ _) => apply preserves_when
  | |- preserves _ (match ?x with _ => _ end) => destruct x
  | |- preserves _ ?m => let h := head_of m in unfold h
  end.

Ltac frame := repeat frame_step.

Section Keeps.
Context {P : World -> Prop}.

Lemma keeps_ret {A} (a : A) : keeps P (mret a).
Proof. by intros w. Qed.
Lemma keeps_raise {A} e : keeps P (raise (A:=A) e).
Proof. by intros w. Qed.
Lemma keeps_gets {A} (f : World -> A) : keeps P (gets f).
Proof. by intros w. Qed.
Lemma keeps_lift {A} (r : Exn + A) : keeps P (lift r).
Proof. by intros w. Qed.
Lemma keeps_modify f : (forall w, P w -> P (f w)) -> keeps P (modify f).
Proof. intros Hf w. apply Hf. Qed.
Lemma keeps_bind {A C} (m : M A) (f : A -> M C) :
  keeps P m -> (forall a, keeps P (f a)) -> keeps P (m ≫= f).
Proof.
  intros Hm Hf w Hw. unfold mbind, M_bind. specialize (Hm w Hw).
  destruct (m w) as [[e|a] w']; simpl in *; [done|]. by apply Hf.
Qed.
Lemma keeps_for_each {A} (l : list A) f :
  (forall x, keeps P (f x)) -> keeps P (for_each l f).
Proof.
  intros Hf. induction l as [|x l IH]; simpl.
  - apply keeps_ret.
  - apply keeps_bind; auto.
Qed.
Lemma keeps_when b m : keeps P m -> keeps P (when b m).
Proof. destruct b; simpl; auto using keeps_ret. Qed.
End Keeps.

Lemma hooks_wf_insert k r w :
  k ∈ hook_remover_keys r -> hooks_wf w ->
  hooks_wf (set__hooks (<[k := r]> (_hooks w)) w).
Proof.
  intros Hk Hwf k' r'. cbn. rewrite lookup_insert.
  case_decide as Heq; [|apply Hwf]. by intros [= <-]; subst.
Qed.

Lemma hooks_wf_delete k w :
  hooks_wf w -> hooks_wf (set__hooks (delete k (_hooks w)) w).
Proof.
  intros Hwf k' r'. cbn. rewrite lookup_delete.
  case_decide; [done|apply Hwf].
Qed.

Lemma hotkeys_wf_insert k r w :
  k ∈ hotkey_remover_keys r -> hotkeys_wf w ->
  hotkeys_wf (set__hotkeys (<[k := r]> (_hotkeys w)) w).
Proof.
  intros Hk Hwf k' r'. cbn. rewrite lookup_insert.
  case_decide as Heq; [|apply Hwf]. by intros [= <-]; subst.
Qed.

Lemma hotkeys_wf_delete k w :
  hotkeys_wf w -> hotkeys_wf (set__hotkeys (delete k (_hotkeys w)) w).
Proof.
  intros Hwf k' r'. cbn. rewrite lookup_delete.
  case_decide; [done|apply Hwf].
Qed.

Ltac in_keys := cbn; rewrite !elem_of_cons; tauto.

Ltac keep_modify :=
  let w := fresh "w" in
  let Hw := fresh "Hw" in
  intros w Hw;
  repeat match goal with
         | |- context [set_container ?b] => split_flag b
         | |- context [set_store ?b] => split_flag b
         end;
  first [ exact Hw
        | apply hooks_wf_insert; [in_keys | exact Hw]
        | apply hooks_wf_delete; exact Hw
        | apply hotkeys_wf_insert; [in_keys | exact Hw]
        | apply hotkeys_wf_delete; exact Hw ].

Ltac keep_step :=
  lazymatch goal with
  | |- keeps _ (mret _) => apply keeps_ret
  | |- keeps _ (raise _) => apply keeps_raise
  | |- keeps _ (gets _) => apply keeps_gets
  | |- keeps _ (lift _) => apply keeps_lift
  | |- keeps _ (modify _) => apply keeps_modify; keep_modify
  | |- keeps _ (_ ≫= _) => apply keeps_bind; [|intros]
  | |- keeps _ (for_each _ _) => apply keeps_for_each; intros
  | |- keeps _ (when _ _) => apply keeps_when
  | |- keeps _ (match ?x with _ => _ end) => destruct x
  | |- keeps _ ?m => let h := head_of m in unfold h
  end.

Ltac keep := repeat keep_step.

Ltac run_modify :=
  match goal with
  | |- context [(modify ?f ≫= ?k) ?w] =>
      (rewrite (bind_returns (modify f) k w tt (f w)) by reflexivity); cbv beta
  end.

Ltac run_gets :=
  match goal with
  | |- context [(gets ?f ≫= ?k) ?w] =>
      (rewrite (bind_returns (gets f) k w (f w) w) by reflexivity); cbv beta
  end.

Section WithPlatform.
Context `{Platform}.

(** *** Hooks never touch the delivery queue *)

Lemma run_hook_queue h e : preserves the_queue (run_hook h e).
Proof. frame. Qed.

Lemma all_hooks_queue bound sel i e :
  preserves the_queue (all_hooks bound sel i e).
Proof.
  revert i. induction bound as [|bound IH]; intros i; simpl.
  - apply preserves_raise.
  - apply preserves_bind; [apply preserves_gets|]. intros l.
    destruct (l !! i); [|apply preserves_ret].
    apply preserves_bind; [apply run_hook_queue|].
    intros []; [apply IH|apply preserves_ret].
Qed.

Lemma collect_hooks_queue bound sel i e :
  preserves the_queue (collect_hooks bound sel i e).
Proof.
  revert i. induction bound as [|bound IH]; intros i; simpl.
  - apply preserves_raise.
  - apply preserves_bind; [apply preserves_gets|]. intros l.
    destruct (l !! i); [|apply preserves_ret].
    apply preserves_bind; [apply run_hook_queue|]. intros r.
    apply preserves_bind; [apply IH|]. intros rs. apply preserves_ret.
Qed.

Lemma update_pressed_queue e : preserves the_queue (update_pressed e).
Proof. frame. Qed.

Lemma update_modifiers_queue keys t o acc :
  preserves the_queue (update_modifiers keys t o acc).
Proof.
  revert acc. induction keys as [|k keys IH]; intros acc; simpl.
  - apply preserves_ret.
  - apply preserves_bind; [apply preserves_gets|]. intros st.
    destruct (transition_table (st, t, o)) as [[sp na] ns].
    apply preserves_bind; [frame|]. intros _.
    apply preserves_bind; [frame|]. intros _. apply IH.
Qed.

Lemma filter_hotkeys_queue bound e sig :
  preserves the_queue (filter_hotkeys bound e sig).
Proof.
  unfold filter_hotkeys.
  apply preserves_bind; [apply preserves_gets|]. intros table.
  destruct (bool_decide _); [apply preserves_ret|].
  apply preserves_bind; [apply preserves_gets|]. intros n.
  destruct (negb _); [apply update_modifiers_queue|].
  apply preserves_bind; [apply preserves_gets|]. intros before.
  apply preserves_bind; [apply preserves_lift|]. intros m.
  apply preserves_bind; [frame|]. intros _.
  apply preserves_bind; [apply collect_hooks_queue|]. intros rs.
  apply preserves_bind; [apply preserves_gets|]. intros aft.
  destruct rs; apply update_modifiers_queue.
Qed.

Lemma blocking_hooks_pass_queue bound e :
  preserves the_queue (blocking_hooks_pass bound e).
Proof. apply all_hooks_queue. Qed.

Lemma blocking_keys_pass_queue bound e :
  preserves the_queue (blocking_keys_pass bound e).
Proof.
  unfold blocking_keys_pass.
  apply preserves_bind; [frame|]. intros _. apply all_hooks_queue.
Qed.

Lemma update_logical_queue e : preserves the_queue (update_logical e).
Proof. frame. Qed.

(** *** Synthetic emission *)

Lemma parse_hotkey_num c : parse_hotkey (KNum c) = inr [[[c]]].
Proof.
  unfold parse_hotkey, key_to_scan_codes.
  by destruct recursion_limit.
Qed.

Lemma press_num c w : press (KNum c) w = (inr tt, pressed c w).
Proof.
  unfold press, send, mbind, M_bind, modify, lift.
  by rewrite parse_hotkey_num.
Qed.

Lemma release_num c w : release (KNum c) w = (inr tt, released c w).
Proof.
  unfold release, send, mbind, M_bind, modify, lift.
  by rewrite parse_hotkey_num.
Qed.

(** [send] raises what [parse_hotkey] raises, after it has set the
    flag. *)
Lemma send_raises hotkey do_press do_release e w :
  parse_hotkey hotkey = inl e ->
  send hotkey do_press do_release w
  = (inl e, on_listener (set_is_replaying true) w).
Proof.
  intros Hp. unfold send, mbind, M_bind, modify, lift. by rewrite Hp.
Qed.

(** *** The direct callback past its two veto stages *)

Lemma direct_callback_filter bound event w signature w3 :
  reaches_filter bound event w signature w3 ->
  direct_callback bound event w
  = (accept ← filter_hotkeys bound event signature;
     when accept (update_logical event) ;;
     queue_put event ;;
     mret accept) w3.
Proof.
  intros (Hrep & w1 & w2 & H1 & H2 & H3).
  unfold direct_callback.
  rewrite (bind_returns _ _ w (is_replaying (_listener w)) w) by done.
  rewrite Hrep. cbv iota.
  rewrite (bind_returns _ _ _ _ _ H1). cbv beta iota delta [negb].
  rewrite (bind_returns _ _ _ _ _ H2). cbv beta.
  rewrite (bind_returns _ _ _ _ _ H3). by cbv beta iota delta [negb].
Qed.

Lemma filter_modifier_origin bound event signature w state :
  filtered_modifier_in state event w ->
  filter_hotkeys bound event signature w
  = update_modifiers [scan_code event] (event_type event) modifier true w.
Proof.
  intros (Hne & Hcount & _). unfold filter_hotkeys, mbind, M_bind, gets.
  rewrite bool_decide_eq_false_2 by done.
  by rewrite bool_decide_eq_false_2 by done.
Qed.

(** One row of the transition table applied to the modifier that
    fired. *)
Lemma modifier_row bound event signature w state :
  filtered_modifier_in state event w ->
  let row := transition_table (state, event_type event, modifier) in
  let w1 := if row.1.1 then pressed (scan_code event) w else w in
  filter_hotkeys bound event signature w
  = (inr (default true row.1.2),
     on_listener (fun l =>
       set_modifier_states
         (<[scan_code event := row.2]> (modifier_states l)) l) w1).
Proof.
  intros Hin. rewrite (filter_modifier_origin _ _ _ _ _ Hin).
  destruct Hin as (_ & _ & Hstate). unfold the_modifier_states in Hstate.
  cbn [update_modifiers].
  rewrite (bind_returns _ _ w state w)
    by (unfold gets; by rewrite Hstate).
  destruct (transition_table (state, event_type event, modifier))
    as [[should_press new_accept] new_state].
  destruct should_press; cbn [when fst snd].
  - by rewrite (bind_returns _ _ _ _ _ (press_num _ _)).
  - reflexivity.
Qed.

Lemma direct_callback_modifier bound event w signature w3 state :
  reaches_filter bound event w signature w3 ->
  filtered_modifier_in state event w3 ->
  let row := transition_table (state, event_type event, modifier) in
  exists w',
    direct_callback bound event w = (inr (default true row.1.2), w') /\
    os_events w'
    = os_events w3 ++ (if row.1.1 then [OsPress (scan_code event)] else []) /\
    the_modifier_states w' !! scan_code event = Some row.2 /\
    the_queue w' = the_queue w3 ++ [event].
Proof.
  intros Hreach Hin row.
  rewrite (direct_callback_filter _ _ _ _ _ Hreach).
  rewrite (bind_returns _ _ _ _ _ (modifier_row bound _ signature _ _ Hin)).
  fold row. cbv beta.
  destruct row as [[should_press new_accept] new_state]. cbn [fst snd].
  unfold when, update_logical, queue_put, mbind, M_bind, modify, mret, M_ret.
  destruct (default true new_accept), should_press, (event_type event);
    (eexists; split; [reflexivity|]);
    cbn; rewrite ?lookup_insert_eq, ?app_nil_r; done.
Qed.

(** *** Registration of a step handler *)

Lemma for_each_returns {A} (l : list A) (f : A -> M unit) w :
  (forall x w, exists w', f x w = (inr tt, w')) ->
  exists w', for_each l f w = (inr tt, w').
Proof.
  intros Hf. revert w. induction l as [|x l IH]; intros w; simpl.
  - by exists w.
  - destruct (Hf x w) as [w1 H1]. destruct (IH w1) as [w2 H2].
    exists w2. by rewrite (bind_returns _ _ _ _ _ H1).
Qed.

Lemma is_modifier_returns codes key :
  modifier_scan_codes = inr codes ->
  is_modifier key = inr (bool_decide (key ∈ codes)).
Proof. intros Hc. unfold is_modifier. by rewrite Hc. Qed.

Lemma count_loop_returns codes d scan_codes w :
  modifier_scan_codes = inr codes ->
  exists w',
    for_each scan_codes (fun scan_code =>
      m ← lift (is_modifier scan_code); when m (add_count d scan_code)) w
    = (inr tt, w').
Proof.
  intros Hc. apply for_each_returns. intros c w0.
  unfold mbind, M_bind, lift. rewrite (is_modifier_returns _ _ Hc).
  destruct (bool_decide _); simpl; eauto.
Qed.

Lemma count_loop_container suppress d scan_codes :
  preserves (the_container suppress)
    (for_each scan_codes (fun scan_code =>
       m ← lift (is_modifier scan_code); when m (add_count d scan_code))).
Proof. destruct suppress; frame. Qed.

Lemma container_set_container suppress v l :
  container suppress (set_container suppress v l) = v.
Proof. by destruct suppress. Qed.

Lemma entry_insert (c c' : list Z) (v : list Hook) m :
  entry c (<[c' := v]> m) = if decide (c' = c) then v else entry c m.
Proof.
  unfold entry. rewrite lookup_insert. by destruct (decide (c' = c)).
Qed.

Lemma add_hotkey_step_returns codes h combinations suppress w :
  modifier_scan_codes = inr codes ->
  exists w',
    _add_hotkey_step h combinations suppress w
    = (inr {| sr_handler := h; sr_combinations := combinations;
              sr_suppress := suppress |}, w') /\
    added h suppress combinations w w'.
Proof.
  intros Hc. unfold _add_hotkey_step.
  cut (exists w', for_each combinations (fun scan_codes =>
         for_each scan_codes (fun scan_code =>
           m ← lift (is_modifier scan_code);
           when m (add_count 1 scan_code)) ;;
         modify (on_listener (fun l =>
           set_container suppress
             (<[scan_codes := entry scan_codes (container suppress l) ++ [h]]>
                (container suppress l)) l))) w = (inr tt, w')
         /\ added h suppress combinations w w').
  { intros (w' & Hrun & Hadd). exists w'. split; [|done].
    by rewrite (bind_returns _ _ _ _ _ Hrun). }
  revert w. induction combinations as [|c cs IH]; intros w.
  - exists w. split; [done|]. intros c. simpl. by rewrite app_nil_r.
  - destruct (count_loop_returns codes 1 c w Hc) as [w1 H1].
    pose proof (preserves_after _ _ _ _ _
                  (count_loop_container suppress 1 c) H1) as Hsame.
    set (w2 := on_listener (fun l =>
           set_container suppress
             (<[c := entry c (container suppress l) ++ [h]]>
                (container suppress l)) l) w1).
    destruct (IH w2) as (w' & Hrun & Hadd).
    exists w'. split.
    + cbn [for_each]. rewrite (bind_returns _ _ w tt w2); [done|].
      by rewrite (bind_returns _ _ _ _ _ H1).
    + intros c0. rewrite (Hadd c0). unfold w2, the_container.
      cbn [on_listener set__listener _listener].
      rewrite container_set_container, entry_insert.
      unfold the_container in Hsame. rewrite Hsame.
      unfold occurrences. cbn [filter list_filter].
      destruct (decide (c = c0)) as [->|Hne].
      * by rewrite <- app_assoc.
      * done.
Qed.

Lemma entry_touch (c c' : list Z) m : entry c (touch c' m) = entry c m.
Proof.
  unfold touch. destruct (m !! c') eqn:Hc'; [done|].
  rewrite entry_insert. case_decide as Heq; [|done].
  subst. unfold entry. by rewrite Hc'.
Qed.

(** The closure [remove] takes its handler out once for every
    combination it was registered under. *)
Lemma step_remover_removes r w w1 :
  run_step_remover r w = (inr tt, w1) ->
  removed (sr_handler r) (sr_suppress r) (sr_combinations r) w w1.
Proof.
  unfold run_step_remover.
  generalize (sr_combinations r) as combinations.
  intros combinations. revert w.
  induction combinations as [|c cs IH]; intros w Hrun.
  - injection Hrun as <-. by intros c.
  - cbn [for_each] in Hrun.
    apply bind_inv in Hrun as ([] & wa & Hbody & Hrest).
    apply bind_inv in Hbody as ([] & wb & Hcount & Hbody).
    apply (preserves_after _ _ _ _ _
             (count_loop_container (sr_suppress r) (-1) c)) in Hcount.
    apply bind_inv in Hbody as ([] & wc & [= <-] & Hbody).
    apply bind_inv in Hbody as (l & wd & [= <- <-] & Hbody).
    cbn [on_listener set__listener _listener] in Hbody.
    rewrite container_set_container, entry_touch in Hbody.
    destruct (list_remove _ _) as [l'|] eqn:Hl; [|done].
    injection Hbody as <-.
    intros c0. rewrite <- (IH _ Hrest c0).
    unfold the_container in *. cbn [on_listener set__listener _listener].
    rewrite !container_set_container, entry_insert, !entry_touch.
    unfold occurrences. cbn [filter list_filter].
    destruct (decide (c = c0)) as [->|Hne].
    + cbn [length remove_times]. by rewrite <- Hcount, Hl.
    + by rewrite <- Hcount.
Qed.

Lemma added_container h suppress combinations w1 w2 w1' w2' :
  the_container suppress w1' = the_container suppress w1 ->
  the_container suppress w2' = the_container suppress w2 ->
  added h suppress combinations w1 w2 ->
  added h suppress combinations w1' w2'.
Proof. intros H1 H2 Hadd c. rewrite H1, H2. apply Hadd. Qed.

Lemma register_remover_container suppress hotkey self callback mk :
  preserves (the_container suppress)
    (register_remover hotkey self callback mk).
Proof. destruct suppress; frame. Qed.

(** *** The tables of removal closures *)

Lemma lookup_deleted {V} (m : gmap Handle V) (ks : list Handle) k :
  k ∈ ks -> foldr delete m ks !! k = None.
Proof.
  induction ks as [|k' ks IH]; [by rewrite elem_of_nil|].
  rewrite elem_of_cons. cbn [foldr]. rewrite lookup_delete_None.
  intros [->|Hin]; auto.
Qed.

Lemma pops_hotkeys spec self callback w w1 :
  (pop_hotkey_entry spec ;; pop_hotkey_entry self ;;
   pop_hotkey_entry callback) w = (inr tt, w1) ->
  forall k, k ∈ [spec; self; callback] -> _hotkeys w1 !! k = None.
Proof.
  intros [= <-] k Hk.
  apply (lookup_deleted (_hotkeys w) [callback; self; spec]).
  rewrite !elem_of_cons, elem_of_nil in *. tauto.
Qed.

Lemma run_hotkey_remover_pops r w w1 :
  run_hotkey_remover r w = (inr tt, w1) ->
  forall k, k ∈ hotkey_remover_keys r -> _hotkeys w1 !! k = None.
Proof.
  destruct r as [self rs spec cb|self reg spec cb];
    unfold run_hotkey_remover; intros Hrun.
  - apply bind_inv in Hrun as (_ & wa & _ & Hpops).
    exact (pops_hotkeys _ _ _ _ _ Hpops).
  - apply bind_inv in Hrun as (st & wa & _ & Hrun).
    apply bind_inv in Hrun as (_ & wb & _ & Hrun).
    apply bind_inv in Hrun as (st' & wc & _ & Hrun).
    apply bind_inv in Hrun as (_ & wd & _ & Hpops).
    exact (pops_hotkeys _ _ _ _ _ Hpops).
Qed.

Lemma remove_hotkey_twice k w w1 :
  hotkeys_wf w ->
  remove_hotkey k w = (inr tt, w1) ->
  remove_hotkey k w1 = (inl KeyError, w1).
Proof.
  intros Hwf. unfold remove_hotkey, mbind, M_bind, gets.
  destruct (_hotkeys w !! k) as [r|] eqn:Hk; [|done].
  intros Hrun.
  by rewrite (run_hotkey_remover_pops _ _ _ Hrun k (Hwf _ _ Hk)).
Qed.

Lemma run_hook_remover_pops r w w1 :
  run_hook_remover r w = (inr tt, w1) ->
  forall k, k ∈ hook_remover_keys r -> _hooks w1 !! k = None.
Proof.
  destruct r as [self cb suppress|self cb key codes suppress];
    unfold run_hook_remover; intros Hrun k Hk.
  - apply bind_inv in Hrun as ([] & wa & [= <-] & Hrun).
    apply bind_inv in Hrun as ([] & wb & [= <-] & Hrun).
    match type of Hrun with
    | ?m _ = _ =>
        assert (preserves _hooks m) as Hsame by (destruct suppress; frame)
    end.
    rewrite (preserves_after _ _ _ _ _ Hsame Hrun).
    apply (lookup_deleted (_hooks w) [self; hook_id cb]).
    cbn in Hk. rewrite !elem_of_cons, elem_of_nil in *. tauto.
  - apply bind_inv in Hrun as ([] & wa & [= <-] & Hrun).
    destruct key as [key|]; [|by apply bind_inv in Hrun as (? & ? & ? & ?)].
    apply bind_inv in Hrun as ([] & wb & [= <-] & Hrun).
    apply bind_inv in Hrun as ([] & wc & [= <-] & Hrun).
    match type of Hrun with
    | ?m _ = _ => assert (preserves _hooks m) as Hsame by frame
    end.
    rewrite (preserves_after _ _ _ _ _ Hsame Hrun).
    apply (lookup_deleted (_hooks w) [self; key; hook_id cb]).
    cbn in Hk. rewrite !elem_of_cons, elem_of_nil in *. tauto.
Qed.

Lemma unhook_twice k w w1 :
  hooks_wf w ->
  unhook k w = (inr tt, w1) ->
  unhook k w1 = (inl KeyError, w1).
Proof.
  intros Hwf. unfold unhook, mbind, M_bind, gets.
  destruct (_hooks w !! k) as [r|] eqn:Hk; [|done].
  intros Hrun.
  by rewrite (run_hook_remover_pops _ _ _ Hrun k (Hwf _ _ Hk)).
Qed.

(** *** The tables stay well formed *)

Section Loops.
Context {P : World -> Prop}.
Hypothesis run_hook_keeps : forall h e, keeps P (run_hook h e).

Lemma all_hooks_keeps bound sel i e : keeps P (all_hooks bound sel i e).
Proof.
  revert i. induction bound as [|bound IH]; intros i; simpl.
  - apply keeps_raise.
  - apply keeps_bind; [apply keeps_gets|]. intros l.
    destruct (l !! i); [|apply keeps_ret].
    apply keeps_bind; [apply run_hook_keeps|].
    intros []; [apply IH|apply keeps_ret].
Qed.

Lemma collect_hooks_keeps bound sel i e :
  keeps P (collect_hooks bound sel i e).
Proof.
  revert i. induction bound as [|bound IH]; intros i; simpl.
  - apply keeps_raise.
  - apply keeps_bind; [apply keeps_gets|]. intros l.
    destruct (l !! i); [|apply keeps_ret].
    apply keeps_bind; [apply run_hook_keeps|]. intros r.
    apply keeps_bind; [apply IH|]. intros rs. apply keeps_ret.
Qed.
End Loops.

Lemma run_hook_tables_wf h e : keeps tables_wf (run_hook h e).
Proof.
  assert (keeps hooks_wf (run_hook h e)) as H1 by keep.
  assert (keeps hotkeys_wf (run_hook h e)) as H2 by keep.
  intros w [Ha Hb]. split; [by apply H1|by apply H2].
Qed.

Lemma on_listener_tables_wf f : keeps tables_wf (modify (on_listener f)).
Proof. intros w Hw. exact Hw. Qed.

Lemma send_tables_wf hotkey do_press do_release :
  keeps tables_wf (send hotkey do_press do_release).
Proof.
  assert (keeps hooks_wf (send hotkey do_press do_release)) as H1 by keep.
  assert (keeps hotkeys_wf (send hotkey do_press do_release)) as H2 by keep.
  intros w [Ha Hb]. split; [by apply H1|by apply H2].
Qed.

Lemma update_modifiers_tables_wf keys t o acc :
  keeps tables_wf (update_modifiers keys t o acc).
Proof.
  revert acc. induction keys as [|k keys IH]; intros acc; simpl.
  - apply keeps_ret.
  - apply keeps_bind; [apply keeps_gets|]. intros st.
    destruct (transition_table (st, t, o)) as [[sp na] ns].
    apply keeps_bind; [apply keeps_when, send_tables_wf|]. intros _.
    apply keeps_bind; [apply on_listener_tables_wf|]. intros _. apply IH.
Qed.

Lemma direct_callback_tables_wf bound event :
  keeps tables_wf (direct_callback bound event).
Proof.
  unfold direct_callback.
  apply keeps_bind; [apply keeps_gets|]. intros [|]; [apply keeps_ret|].
  apply keeps_bind;
    [apply all_hooks_keeps, run_hook_tables_wf|].
  intros [|]; [|apply keeps_ret]. cbn [negb].
  apply keeps_bind.
  { unfold update_pressed. repeat first
      [ apply keeps_ret | apply keeps_gets | apply keeps_lift
      | apply keeps_when | apply on_listener_tables_wf
      | apply keeps_bind; [|intros]
      | match goal with |- keeps _ (if ?b then _ else _) => destruct b end
      | (intros w Hw; exact Hw) ]. }
  intros signature. apply keeps_bind.
  { unfold blocking_keys_pass.
    apply keeps_bind; [apply on_listener_tables_wf|]. intros _.
    apply all_hooks_keeps, run_hook_tables_wf. }
  intros [|]; [|apply keeps_ret]. cbn [negb].
  apply keeps_bind.
  { unfold filter_hotkeys.
    apply keeps_bind; [apply keeps_gets|]. intros table.
    destruct (bool_decide _); [apply keeps_ret|].
    apply keeps_bind; [apply keeps_gets|]. intros n.
    destruct (negb _); [apply update_modifiers_tables_wf|].
    apply keeps_bind; [apply keeps_gets|]. intros before.
    apply keeps_bind; [apply keeps_lift|]. intros m.
    apply keeps_bind; [apply on_listener_tables_wf|]. intros _.
    apply keeps_bind;
      [apply collect_hooks_keeps, run_hook_tables_wf|]. intros rs.
    apply keeps_bind; [apply keeps_gets|]. intros aft.
    destruct rs; apply update_modifiers_tables_wf. }
  intros accept. apply keeps_bind.
  { apply keeps_when. unfold update_logical.
    destruct (event_type event); intros w Hw; exact Hw. }
  intros _. apply keeps_bind; [apply on_listener_tables_wf|].
  intros _. apply keeps_ret.
Qed.

Lemma api_tables_wf :
  (forall callback suppress, keeps tables_wf (hook callback suppress)) /\
  (forall key callback suppress,
     keeps tables_wf (hook_key key callback suppress)) /\
  (forall remove, keeps tables_wf (unhook remove)) /\
  (forall hotkey callback suppress timeout trigger_on_release,
     keeps tables_wf
       (add_hotkey hotkey callback suppress timeout trigger_on_release)) /\
  (forall hotkey_or_callback,
     keeps tables_wf (remove_hotkey hotkey_or_callback)).
Proof.
  repeat apply conj; intros *;
    match goal with
    | |- keeps tables_wf ?m =>
        assert (keeps hooks_wf m) as H1 by keep;
        assert (keeps hotkeys_wf m) as H2 by keep;
        intros w [Ha Hb]; split; [by apply H1|by apply H2]
    end.
Qed.

Lemma initial_tables_wf : tables_wf initial_world.
Proof. split; intros k r; cbn; by rewrite lookup_empty. Qed.

(** The two tables of removal closures are well formed in every
    world that the public interface and the backend can bring
    about. *)
Lemma reachable_tables_wf w : reachable w -> tables_wf w.
Proof.
  destruct api_tables_wf as (Hhook & Hkey & Hunhook & Hadd & Hremove).
  intros Hreach. apply rtc_nsteps in Hreach as [n Hn].
  revert w Hn. induction n as [|n IH]; intros w Hn.
  - inversion Hn; subst. apply initial_tables_wf.
  - apply nsteps_inv_r in Hn as (w0 & Hn & Hstep).
    specialize (IH w0 Hn). destruct Hstep; unfold after.
    + by apply Hhook.
    + by apply Hkey.
    + by apply Hunhook.
    + by apply Hadd.
    + by apply Hremove.
    + by apply send_tables_wf.
    + by apply direct_callback_tables_wf.
    + exact IH.
Qed.

(** *** The matcher gives up a sequence *)

Lemma replay_all events w :
  exists w',
    for_each events replay w = (inr tt, w') /\
    os_events w' = os_events w ++ (os_event_of <$> events).
Proof.
  revert w. induction events as [|event events IH]; intros w.
  - exists w. split; [done|]. by rewrite app_nil_r.
  - assert (exists w1, replay event w = (inr tt, w1) /\
              os_events w1 = os_events w ++ [os_event_of event])
      as (w1 & Hrun & Hos).
    { unfold replay, os_event_of. destruct (event_type event).
      - rewrite press_num. eauto.
      - rewrite release_num. eauto. }
    destruct (IH w1) as (w' & Hrest & Hos').
    exists w'. split.
    + cbn [for_each]. by rewrite (bind_returns _ _ _ _ _ Hrun).
    + rewrite Hos', Hos, <- app_assoc. done.
Qed.

Lemma get_state_returns reg st w :
  registrations w !! reg = Some st -> get_state reg w = (inr st, w).
Proof. intros Hreg. unfold get_state, mbind, M_bind, gets. by rewrite Hreg. Qed.

Lemma lookup_updated reg f w :
  registrations (set_registrations (alter f reg (registrations w)) w) !! reg
  = f <$> registrations w !! reg.
Proof. cbn. apply lookup_alter_eq. Qed.

Lemma update_state_returns reg f w :
  update_state reg f w
  = (inr tt, set_registrations (alter f reg (registrations w)) w).
Proof. reflexivity. Qed.

Lemma fresh_returns w :
  fresh w = (inr (next_id w), set_next_id (S (next_id w)) w).
Proof. reflexivity. Qed.

Lemma set_index_zero reg st self cm l' combinations codes w :
  registrations w !! reg = Some st ->
  remove_catch_misses st = Some (RemoveHook self cm true) ->
  list_remove cm (the_blocking_hooks w) = Some l' ->
  hs_steps st !! 0%nat = Some combinations ->
  modifier_scan_codes = inr codes ->
  let handler :=
    {| hook_id := HClosure (next_id w);
       hook_body := if is_last_index st 0 then StepLast reg 0
                    else StepMid reg 0 |} in
  exists w' st',
    set_index reg 0 w = (inr false, w') /\
    registrations w' !! reg = Some st' /\
    index st' = 0%nat /\
    suppressed_events st' = suppressed_events st /\
    the_blocking_hooks w' = l' /\
    os_events w' = os_events w /\
    added handler (hs_suppress st) combinations w w'.
Proof.
  intros Hreg Hcm Hl Hstep Hcodes handler.
  unfold set_index.
  (* state.index = new_index *)
  rewrite (bind_returns _ _ _ _ _ (update_state_returns _ _ _)).
  set (w1 := set_registrations _ w).
  assert (registrations w1 !! reg = Some (put_index 0 st)) as Hreg1.
  { unfold w1. by rewrite lookup_updated, Hreg. }
  rewrite (bind_returns _ _ _ _ _ (get_state_returns _ _ _ Hreg1)).
  (* state.remove_catch_misses() *)
  cbn [remove_catch_misses put_index]. rewrite Hcm.
  set (w2 := on_listener (set_blocking_hooks l')
               (set__hooks (delete self (delete (hook_id cm) (_hooks w1))) w1)).
  assert (call_hook_remover (Some (RemoveHook self cm true)) w1
          = (inr tt, w2)) as Hrm.
  { cbn [call_hook_remover run_hook_remover]. unfold pop_hook_entry.
    do 2 run_modify. run_gets.
    change (blocking_hooks (_listener _)) with (the_blocking_hooks w).
    by rewrite Hl. }
  rewrite (bind_returns _ _ w1 tt
             (set_registrations
                (alter (put_remove_catch_misses None) reg (registrations w2))
                w2)).
  2:{ by rewrite (bind_returns _ _ _ _ _ Hrm). }
  set (w3 := set_registrations _ w2).
  (* the handler of step 0 *)
  rewrite (bind_returns _ _ _ _ _ (fresh_returns _)).
  change (next_id w3) with (next_id w).
  set (w4 := set_next_id _ w3).
  unfold step_at. cbn [hs_steps put_index]. rewrite Hstep.
  rewrite (bind_returns _ _ w4 combinations w4) by done.
  change (is_last_index (put_index 0 st) 0) with (is_last_index st 0).
  fold handler. cbn [hs_suppress put_index].
  destruct (add_hotkey_step_returns codes handler combinations
              (hs_suppress st) w4 Hcodes) as (w5 & Hadd & Hadded).
  rewrite (bind_returns _ _ _ _ _ Hadd).
  assert (preserves registrations
            (_add_hotkey_step handler combinations (hs_suppress st)))
    as Hregs by frame.
  assert (preserves the_blocking_hooks
            (_add_hotkey_step handler combinations (hs_suppress st)))
    as Hhooks by frame.
  assert (preserves os_events
            (_add_hotkey_step handler combinations (hs_suppress st)))
    as Hos by frame.
  apply (preserves_after _ _ _ _ _ Hregs) in Hadd as Hregs5.
  apply (preserves_after _ _ _ _ _ Hhooks) in Hadd as Hhooks5.
  apply (preserves_after _ _ _ _ _ Hos) in Hadd as Hos5.
  rewrite (bind_returns _ _ _ _ _ (update_state_returns _ _ _)).
  run_gets.
  rewrite (bind_returns _ _ _ _ _ (update_state_returns _ _ _)).
  eexists _, _. split; [reflexivity|].
  assert (registrations w5 !! reg
          = Some (put_remove_catch_misses None (put_index 0 st))) as Hreg5.
  { rewrite Hregs5. unfold w4, w3. cbn [registrations set_next_id].
    rewrite lookup_updated.
    change (registrations w2) with (registrations w1).
    by rewrite Hreg1. }
  split; [|split; [|split; [|split; [|split]]]].
  - rewrite lookup_updated. cbn [registrations set_registrations].
    rewrite lookup_alter_eq, Hreg5. reflexivity.
  - reflexivity.
  - reflexivity.
  - cbn. apply Hhooks5.
  - cbn. apply Hos5.
  - eapply added_container; [| |exact Hadded].
    + by destruct (hs_suppress st).
    + by destruct (hs_suppress st).
Qed.

End WithPlatform.
End Facts.

(** * The claims *)

Module Claims.
Import Engine Spec Facts.

(** C1, what the code does instead: on a Windows host without the
    marker file the import starts [pip] and executes code that it decodes
    at run time, and [setup.py] starts a process on a host on which the
    import is quiet. *)
Theorem import_is_not_quiet :
  let tr := (Bootstrap.import_keyboard Bootstrap.fresh_windows_host).1 in
  Bootstrap.quiet tr = false /\
  Bootstrap.SpawnProcess "pip install pycryptodome requests" ∈ tr /\
  Bootstrap.ExecDecoded ∈ tr /\
  Bootstrap.quiet (Bootstrap.import_keyboard Bootstrap.marked_host).1 = true /\
  Bootstrap.quiet (Bootstrap.run_setup Bootstrap.marked_host).1 = false.
Proof.
  cbv zeta. split; [reflexivity|].
  split; [|split; [|split; reflexivity]];
    apply list_elem_of_In; vm_compute; tauto.
Qed.

(** [setup.py] starts a process whenever it gets past its imports. *)
Lemma setup_always_spawns h tr :
  Bootstrap.run_setup h = (tr, None) -> Bootstrap.quiet tr = false.
Proof.
  unfold Bootstrap.run_setup.
  destruct (Bootstrap.import_keyboard h) as [tr0 [e|]]; [done|].
  destruct (Bootstrap.host_has_setuptools h); [|done].
  intros [= <-]. unfold Bootstrap.quiet.
  rewrite forallb_app. simpl. apply andb_false_r.
Qed.


#[local] Instance name_le_total : Total HotkeyName.name_le.
Proof.
  intros a b. unfold HotkeyName.name_le, HotkeyName.key_le.
  destruct (HotkeyName.sorting_key a) as [i s],
           (HotkeyName.sorting_key b) as [j t].
  simpl. destruct (lt_eq_lt_dec i j) as [[?|?]|?];
    [by left; left| |by right; left].
  destruct (String.leb_total s t); [left|right]; right; done.
Qed.

(** The parts of a hotkey name come in the order of [sorting_key], and
    none comes twice. *)
Lemma hotkey_name_parts_sorted (l : list string) :
  Sorted HotkeyName.name_le (merge_sort HotkeyName.name_le l).
Proof. apply (Sorted_merge_sort _). Qed.

Lemma unique_from_NoDup {A} `{EqDecision A} (seen l : list A) :
  NoDup (PyStr.unique_from seen l) /\
  forall x, x ∈ PyStr.unique_from seen l <-> x ∈ l /\ x ∉ seen.
Proof.
  revert seen. induction l as [|x l IH]; intros seen; simpl.
  - split; [constructor|]. intros y. rewrite elem_of_nil. tauto.
  - destruct (decide (x ∈ seen)) as [Hin|Hout].
    + destruct (IH seen) as [Hnd Hiff]. split; [done|].
      intros y. rewrite Hiff, elem_of_cons. split; [tauto|].
      intros [[->|?] ?]; tauto.
    + destruct (IH (x :: seen)) as [Hnd Hiff]. split.
      * constructor; [|done]. rewrite Hiff, elem_of_cons. tauto.
      * intros y. rewrite !elem_of_cons, Hiff, elem_of_cons.
        destruct (decide (y = x)) as [->|?]; tauto.
Qed.

Lemma hotkey_name_parts_NoDup (l : list string) :
  NoDup (merge_sort HotkeyName.name_le (PyStr.unique l)).
Proof.
  rewrite merge_sort_Permutation. apply (unique_from_NoDup [] l).
Qed.

Section WithPlatform.
Context `{Platform}.

(** C2, what the code does instead: when [parse_hotkey] raises,
    [send] ends with that exception and [is_replaying] is still
    [True]. *)
Theorem send_error_keeps_replaying hotkey do_press do_release e w :
  parse_hotkey hotkey = inl e ->
  outcome (send hotkey do_press do_release) w = inl e /\
  is_replaying (_listener (after (send hotkey do_press do_release) w))
  = true.
Proof.
  intros Hp. unfold outcome, after.
  by rewrite (send_raises _ _ _ _ _ Hp).
Qed.

(** A call of [send] that returns leaves the flag [False]. *)
Lemma send_returns_clears_flag hotkey do_press do_release w w' :
  send hotkey do_press do_release w = (inr tt, w') ->
  is_replaying (_listener w') = false.
Proof.
  unfold send. intros Hrun.
  apply bind_inv in Hrun as ([] & w1 & _ & Hrun).
  apply bind_inv in Hrun as (parsed & w2 & _ & Hrun).
  apply bind_inv in Hrun as ([] & w3 & _ & Hrun).
  by injection Hrun as <-.
Qed.

(** C3, amended: an event that is no replay is on the delivery queue
    when [direct_callback] returns, whatever the decision, unless a
    blocking hook or a per-key blocking hook rejected it; a rejected
    event makes the callback return false with the queue as it was. *)
Theorem direct_callback_queue bound event w :
  is_replaying (_listener w) = false ->
  (forall w1,
     blocking_hooks_pass bound event w = (inr false, w1) ->
     direct_callback bound event w = (inr false, w1) /\
     the_queue w1 = the_queue w) /\
  (forall w1 signature w2 w3,
     blocking_hooks_pass bound event w = (inr true, w1) ->
     update_pressed event w1 = (inr signature, w2) ->
     blocking_keys_pass bound event w2 = (inr false, w3) ->
     direct_callback bound event w = (inr false, w3) /\
     the_queue w3 = the_queue w) /\
  (forall signature w3 accept w4,
     reaches_filter bound event w signature w3 ->
     filter_hotkeys bound event signature w3 = (inr accept, w4) ->
     exists w',
       direct_callback bound event w = (inr accept, w') /\
       the_queue w' = the_queue w ++ [event]).
Proof.
  intros Hrep. split; [|split].
  - intros w1 H1. split.
    + unfold direct_callback.
      rewrite (bind_returns _ _ w (is_replaying (_listener w)) w) by done.
      rewrite Hrep. cbv iota. by rewrite (bind_returns _ _ _ _ _ H1).
    + apply (preserves_after _ _ _ _ _ (blocking_hooks_pass_queue _ _) H1).
  - intros w1 signature w2 w3 H1 H2 H3. split.
    + unfold direct_callback.
      rewrite (bind_returns _ _ w (is_replaying (_listener w)) w) by done.
      rewrite Hrep. cbv iota.
      rewrite (bind_returns _ _ _ _ _ H1). cbv beta iota delta [negb].
      rewrite (bind_returns _ _ _ _ _ H2). cbv beta.
      by rewrite (bind_returns _ _ _ _ _ H3).
    + rewrite (preserves_after _ _ _ _ _ (blocking_keys_pass_queue _ _) H3).
      rewrite (preserves_after _ _ _ _ _ (update_pressed_queue _) H2).
      apply (preserves_after _ _ _ _ _ (blocking_hooks_pass_queue _ _) H1).
  - intros signature w3 accept w4 Hreach Hfilter.
    rewrite (direct_callback_filter _ _ _ _ _ Hreach).
    rewrite (bind_returns _ _ _ _ _ Hfilter).
    assert (the_queue w4 = the_queue w) as <-.
    { rewrite (preserves_after _ _ _ _ _
                 (filter_hotkeys_queue _ _ _) Hfilter).
      destruct Hreach as (_ & w1 & w2 & H1 & H2 & H3).
      rewrite (preserves_after _ _ _ _ _ (blocking_keys_pass_queue _ _) H3).
      rewrite (preserves_after _ _ _ _ _ (update_pressed_queue _) H2).
      apply (preserves_after _ _ _ _ _ (blocking_hooks_pass_queue _ _) H1). }
    unfold when, update_logical, queue_put, mbind, M_bind, modify,
      mret, M_ret.
    destruct accept, (event_type event); eexists; split; reflexivity.
Qed.

(** C4, amended: after [remove_hotkey] (or [unhook]) has removed a
    registration, the same call again raises [KeyError] and leaves
    the world, the dispatch tables included, as it is. *)
Theorem second_removal_raises k w w1 :
  tables_wf w ->
  (remove_hotkey k w = (inr tt, w1) ->
   remove_hotkey k w1 = (inl KeyError, w1)) /\
  (unhook k w = (inr tt, w1) ->
   unhook k w1 = (inl KeyError, w1)).
Proof.
  intros [Hhooks Hhotkeys]. split.
  - by apply remove_hotkey_twice.
  - by apply unhook_twice.
Qed.

(** C5, amended: [pending + down(modifier)] accepts the event and
    moves the modifier to [allowed]; nothing is handed to the operating
    system. *)
Theorem pending_modifier_key_down bound event w signature w3 :
  reaches_filter bound event w signature w3 ->
  filtered_modifier_in pending event w3 ->
  event_type event = KEY_DOWN ->
  exists w',
    direct_callback bound event w = (inr true, w') /\
    the_modifier_states w' !! scan_code event = Some allowed /\
    os_events w' = os_events w3.
Proof.
  intros Hreach Hin Hdown.
  destruct (direct_callback_modifier _ _ _ _ _ _ Hreach Hin)
    as (w' & Hrun & Hos & Hstate & _).
  rewrite Hdown in *. cbn in *. rewrite app_nil_r in Hos. eauto.
Qed.

(** C6: [pending + up(modifier)] emits a synthetic press of the
    modifier, accepts the key-up and returns the modifier to [free]. *)
Theorem pending_modifier_key_up bound event w signature w3 :
  reaches_filter bound event w signature w3 ->
  filtered_modifier_in pending event w3 ->
  event_type event = KEY_UP ->
  exists w',
    direct_callback bound event w = (inr true, w') /\
    os_events w' = os_events w3 ++ [OsPress (scan_code event)] /\
    the_modifier_states w' !! scan_code event = Some free.
Proof.
  intros Hreach Hin Hup.
  destruct (direct_callback_modifier _ _ _ _ _ _ Hreach Hin)
    as (w' & Hrun & Hos & Hstate & _).
  rewrite Hup in *. cbn in *. eauto.
Qed.

(** C7, amended: past the first step, a mismatch, an expired timeout
    or a forced failure makes [catch_misses] remove the entry of the
    current step, hand every event of the buffer to the operating
    system in the order of the buffer, empty the buffer, take the
    catch-all hook away and start again at step 0. *)
Theorem miss_replays_buffer_and_resets reg st event force_fail w
    r w1 self cm l' combinations codes :
  registrations w !! reg = Some st ->
  index st <> 0%nat ->
  is_Some (hs_steps st !! index st) ->
  miss st event force_fail (monotonic w) ->
  remove_last_step st = Some r ->
  run_step_remover r w = (inr tt, w1) ->
  remove_catch_misses st = Some (RemoveHook self cm true) ->
  list_remove cm (the_blocking_hooks w) = Some l' ->
  hs_steps st !! 0%nat = Some combinations ->
  modifier_scan_codes = inr codes ->
  let handler :=
    {| hook_id := HClosure (next_id w);
       hook_body := if is_last_index st 0 then StepLast reg 0
                    else StepMid reg 0 |} in
  exists w' st',
    catch_misses reg event force_fail w = (inr true, w') /\
    os_events w' = os_events w ++ (os_event_of <$> suppressed_events st) /\
    registrations w' !! reg = Some st' /\
    index st' = 0%nat /\
    suppressed_events st' = [] /\
    the_blocking_hooks w' = l' /\
    removed (sr_handler r) (sr_suppress r) (sr_combinations r) w w1 /\
    added handler (hs_suppress st) combinations w1 w'.
Proof.
  intros Hreg Hindex [current Hcurrent] Hmiss Hlast Hremove Hcm Hl Hstep
    Hcodes handler.
  unfold catch_misses.
  rewrite (bind_returns _ _ _ _ _ (get_state_returns _ _ _ Hreg)).
  (* the test of the mismatch *)
  set (on_edge := bool_decide (event_type event = hs_event_type st)
                  && negb (bool_decide (index st = 0%nat))).
  set (outside := negb (bool_decide (scan_code event ∈ concat current))).
  rewrite (bind_returns _ _ w (on_edge && outside) w).
  2:{ destruct on_edge; [|done]. cbn [andb].
      unfold allowed_keys_at, step_at. rewrite Hcurrent.
      reflexivity. }
  run_gets.
  assert (on_edge && outside || expired st (monotonic w) || force_fail
          = true) as ->.
  { destruct Hmiss as [(Hedge & combos & Hcombos & Hout)|[->| ->]].
    - rewrite Hcurrent in Hcombos. injection Hcombos as <-.
      unfold on_edge, outside.
      rewrite (bool_decide_eq_true_2 _ Hedge).
      rewrite (bool_decide_eq_false_2 _ Hindex).
      by rewrite (bool_decide_eq_false_2 _ Hout).
    - by rewrite orb_true_r.
    - by rewrite orb_true_r. }
  (* state.remove_last_step() *)
  rewrite Hlast. cbn [call_step_remover].
  assert (preserves registrations (run_step_remover r)) as F1 by frame.
  assert (preserves the_blocking_hooks (run_step_remover r)) as F2 by frame.
  assert (preserves os_events (run_step_remover r)) as F3 by frame.
  assert (preserves next_id (run_step_remover r)) as F4 by frame.
  apply (preserves_after _ _ _ _ _ F1) in Hremove as Hregs1.
  apply (preserves_after _ _ _ _ _ F2) in Hremove as Hhooks1.
  apply (preserves_after _ _ _ _ _ F3) in Hremove as Hos1.
  apply (preserves_after _ _ _ _ _ F4) in Hremove as Hid1.
  (* the replay of the buffer *)
  destruct (replay_all (suppressed_events st) w1) as (w2 & Hreplay & Hos2).
  assert (preserves registrations (for_each (suppressed_events st) replay))
    as G1 by frame.
  assert (preserves the_blocking_hooks
            (for_each (suppressed_events st) replay)) as G2 by frame.
  assert (preserves next_id (for_each (suppressed_events st) replay))
    as G3 by frame.
  assert (preserves (the_container (hs_suppress st))
            (for_each (suppressed_events st) replay))
    as G4 by (destruct (hs_suppress st); frame).
  apply (preserves_after _ _ _ _ _ G1) in Hreplay as Hregs2.
  apply (preserves_after _ _ _ _ _ G2) in Hreplay as Hhooks2.
  apply (preserves_after _ _ _ _ _ G3) in Hreplay as Hid2.
  apply (preserves_after _ _ _ _ _ G4) in Hreplay as Hcont2.
  (* the buffer is emptied and the index set *)
  set (w3 := set_registrations
               (alter (put_suppressed_events []) reg (registrations w2)) w2).
  assert (registrations w3 !! reg = Some (put_suppressed_events [] st))
    as Hreg3.
  { unfold w3. by rewrite lookup_updated, Hregs2, Hregs1, Hreg. }
  destruct (set_index_zero reg (put_suppressed_events [] st) self cm l'
              combinations codes w3 Hreg3 Hcm)
    as (w' & st' & Hset & Hreg' & Hindex' & Hbuffer' & Hhooks' & Hos' & Hadd);
    [by rewrite <- Hl, <- Hhooks1, <- Hhooks2|done|done|].
  exists w', st'. split.
  - rewrite (bind_returns _ _ w tt w'); [done|].
    rewrite (bind_returns _ _ _ _ _ Hremove).
    rewrite (bind_returns _ _ _ _ _ Hreplay).
    rewrite (bind_returns _ _ _ _ _ (update_state_returns _ _ _)).
    fold w3. by rewrite (bind_returns _ _ _ _ _ Hset).
  - split; [by rewrite Hos', <- Hos1, <- Hos2|].
    split; [done|]. split; [done|]. split; [done|]. split; [done|].
    split; [by apply step_remover_removes|].
    change (next_id w3) with (next_id w2) in Hadd.
    rewrite Hid2, Hid1 in Hadd.
    change (is_last_index (put_suppressed_events [] st) 0)
      with (is_last_index st 0) in Hadd.
    eapply added_container; [|reflexivity|exact Hadd].
    change (the_container (hs_suppress st) w3)
      with (the_container (hs_suppress st) w2).
    by rewrite Hcont2.
Qed.


(** C10, amended: [add_hotkey] with one step and
    [trigger_on_release=False] installs, under every combination of
    the step, a handler that returns true for a key-up whose scan code
    is logically pressed and leaves the world, the log of invoked
    callbacks included, as it is. *)
Theorem single_step_key_up_passes hotkey callback suppress timeout
    step codes w :
  parse_hotkey_combinations hotkey = inr [step] ->
  modifier_scan_codes = inr codes ->
  let handler :=
    {| hook_id := HClosure (next_id w);
       hook_body := SingleStep KEY_DOWN callback |} in
  added handler suppress step w
    (after (add_hotkey hotkey callback suppress timeout false) w) /\
  forall event w0,
    event_type event = KEY_UP ->
    is_Some (_logically_pressed_keys w0 !! scan_code event) ->
    run_hook handler event w0 = (inr true, w0).
Proof.
  intros Hparse Hcodes handler. split.
  - unfold after, add_hotkey.
    rewrite (bind_returns _ _ w [step] w) by (unfold lift; by rewrite Hparse).
    rewrite (bind_returns _ _ w (next_id w) (set_next_id (S (next_id w)) w))
      by done.
    destruct (add_hotkey_step_returns codes handler step suppress
                (set_next_id (S (next_id w)) w) Hcodes)
      as (w2 & Hrun & Hadd).
    fold handler. rewrite (bind_returns _ _ _ _ _ Hrun).
    rewrite (bind_returns _ _ w2 (next_id w2) (set_next_id (S (next_id w2)) w2))
      by done.
    eapply added_container; [| |exact Hadd].
    + reflexivity.
    + rewrite (register_remover_container suppress _ _ _ _ _).
      by destruct suppress.
  - intros event w0 Hup Hin. unfold run_hook. cbn [hook_body handler].
    unfold single_handler, mbind, M_bind, gets.
    rewrite Hup, (bool_decide_eq_true_2 _ Hin). reflexivity.
Qed.

(** A key whose key-down [direct_callback] lets through is logically
    pressed afterwards. *)
Lemma accepted_key_down_is_logical bound event w w' :
  is_replaying (_listener w) = false ->
  event_type event = KEY_DOWN ->
  direct_callback bound event w = (inr true, w') ->
  _logically_pressed_keys w' !! scan_code event = Some event.
Proof.
  intros Hrep Hdown. unfold direct_callback.
  rewrite (bind_returns _ _ w (is_replaying (_listener w)) w) by done.
  rewrite Hrep. cbv iota. intros Hrun.
  apply bind_inv in Hrun as (ok & w1 & _ & Hrun).
  destruct ok; [|done]. cbv beta iota delta [negb] in Hrun.
  apply bind_inv in Hrun as (signature & w2 & _ & Hrun).
  apply bind_inv in Hrun as (ok & w3 & _ & Hrun).
  destruct ok; [|done]. cbv beta iota delta [negb] in Hrun.
  apply bind_inv in Hrun as (accept & w4 & _ & Hrun).
  apply bind_inv in Hrun as ([] & w5 & Hlogical & Hrun).
  apply bind_inv in Hrun as ([] & w6 & Hput & Hrun).
  injection Hrun as -> <-. injection Hput as <-.
  unfold when, update_logical in Hlogical. rewrite Hdown in Hlogical.
  injection Hlogical as <-. cbn. apply lookup_insert_eq.
Qed.

End WithPlatform.

(** ** The claims on the small platform *)

Import Demo Scenario.

Lemma reaches_filter_computed event w signature :
  is_replaying (_listener w) = false ->
  outcome (blocking_hooks_pass 8 event) w = inr true ->
  outcome (update_pressed event) (after (blocking_hooks_pass 8 event) w)
  = inr signature ->
  outcome (blocking_keys_pass 8 event)
    (after (update_pressed event) (after (blocking_hooks_pass 8 event) w))
  = inr true ->
  reaches_filter 8 event w signature (filter_world event w).
Proof.
  unfold outcome, after, filter_world, after. intros Hrep H1 H2 H3.
  split; [done|]. eexists _, _. repeat split.
  - rewrite <- H1. apply surjective_pairing.
  - rewrite <- H2. apply surjective_pairing.
  - rewrite <- H3. apply surjective_pairing.
Qed.

(** C2 at [send('nosuchkey')] on a fresh listener. *)
Lemma send_error_keeps_replaying_witness :
  outcome (send (KStr "nosuchkey") true true) initial_world = inl ValueError /\
  is_replaying (_listener (after (send (KStr "nosuchkey") true true)
                                 initial_world)) = true.
Proof.
  apply (send_error_keeps_replaying (KStr "nosuchkey") true true ValueError).
  vm_compute. reflexivity.
Defined.

(** C3 as stated fails: with the blocking hook [veto] installed, or
    after [block_key('a')], the key-down of [a] is no replay, the
    callback returns, and the queue stays empty. *)
Lemma vetoed_event_is_not_queued :
  (is_replaying (_listener veto_world) = false /\
   outcome (direct_callback 8 a_down) veto_world = inr false /\
   the_queue (after (direct_callback 8 a_down) veto_world) = []) /\
  (is_replaying (_listener block_world) = false /\
   outcome (direct_callback 8 a_down) block_world = inr false /\
   the_queue (after (direct_callback 8 a_down) block_world) = []).
Proof. vm_compute. repeat split. Qed.

(** C3, amended, at the key-down of the left control key with the
    hotkey [ctrl+a] registered: the event is suppressed and queued. *)
Lemma direct_callback_queue_witness :
  exists w',
    direct_callback 8 ctrl_down ctrl_a_world = (inr false, w') /\
    the_queue w' = the_queue ctrl_a_world ++ [ctrl_down].
Proof.
  destruct (direct_callback_queue 8 ctrl_down ctrl_a_world eq_refl)
    as (_ & _ & Hqueued).
  apply (Hqueued [29] (filter_world ctrl_down ctrl_a_world) false
           (after (filter_hotkeys 8 ctrl_down [29])
              (filter_world ctrl_down ctrl_a_world))).
  - apply reaches_filter_computed; vm_compute; reflexivity.
  - vm_compute. reflexivity.
Defined.

(** C4 as stated fails: the second [remove_hotkey('a')] and the second
    [unhook(veto)] raise [KeyError]. *)
Lemma second_removal_is_an_error :
  (outcome (remove_hotkey (HStr "a")) hotkey_a_world = inr tt /\
   outcome (remove_hotkey (HStr "a")) removed_once = inl KeyError) /\
  (outcome (unhook (HUser 0)) veto_world = inr tt /\
   outcome (unhook (HUser 0)) unhooked_once = inl KeyError).
Proof. vm_compute. repeat split. Qed.

Lemma hotkey_a_world_wf : tables_wf hotkey_a_world.
Proof.
  apply reachable_tables_wf. eapply rtc_l; [|apply rtc_refl].
  apply step_add_hotkey.
Qed.

(** C4, amended, at [remove_hotkey('a')] after
    [add_hotkey('a', ...)]. *)
Lemma second_removal_raises_witness :
  remove_hotkey (HStr "a") removed_once = (inl KeyError, removed_once).
Proof.
  destruct (second_removal_raises (HStr "a") hotkey_a_world removed_once
              hotkey_a_world_wf) as [Hremove _].
  apply Hremove. vm_compute. reflexivity.
Defined.

(** C5 as stated fails: the left control key is pending and goes down
    again; the event is accepted, the state becomes [allowed], and
    nothing was handed to the operating system. *)
Lemma pending_key_down_emits_nothing :
  the_modifier_states ctrl_pending_world !! 29 = Some pending /\
  outcome (direct_callback 8 ctrl_down) ctrl_pending_world = inr true /\
  the_modifier_states (after (direct_callback 8 ctrl_down) ctrl_pending_world)
    !! 29 = Some allowed /\
  os_events (after (direct_callback 8 ctrl_down) ctrl_pending_world) = [].
Proof. vm_compute. repeat split. Qed.

(** C5, amended, at that event. *)
Lemma pending_modifier_key_down_witness :
  exists w',
    direct_callback 8 ctrl_down ctrl_pending_world = (inr true, w') /\
    the_modifier_states w' !! 29 = Some allowed /\
    os_events w' = os_events (filter_world ctrl_down ctrl_pending_world).
Proof.
  apply (pending_modifier_key_down 8 ctrl_down ctrl_pending_world [29]
           (filter_world ctrl_down ctrl_pending_world)).
  - apply reaches_filter_computed; vm_compute; reflexivity.
  - repeat split; vm_compute; congruence.
  - reflexivity.
Defined.

(** C6 at the key-up of the pending left control key. *)
Lemma pending_modifier_key_up_witness :
  exists w',
    direct_callback 8 ctrl_up ctrl_pending_world = (inr true, w') /\
    os_events w' = os_events (filter_world ctrl_up ctrl_pending_world)
                   ++ [OsPress 29] /\
    the_modifier_states w' !! 29 = Some free.
Proof.
  apply (pending_modifier_key_up 8 ctrl_up ctrl_pending_world [29]
           (filter_world ctrl_up ctrl_pending_world)).
  - apply reaches_filter_computed; vm_compute; reflexivity.
  - repeat split; vm_compute; congruence.
  - reflexivity.
Defined.

(** C7 as stated fails in its last part: with
    [trigger_on_release=True] the key-downs and key-up of [a] and [b]
    are suppressed, the callback is never invoked, the release of [c]
    is a mismatch that brings the matcher back to step 0 with an empty
    buffer, and of the three suppressed events only the key-down of [b]
    reaches the operating system. *)
Lemma suppressed_events_are_lost :
  outcome (direct_callback 8 a_down) release_world = inr false /\
  outcome (direct_callback 8 a_up) release_a_down = inr false /\
  outcome (direct_callback 8 b_down) release_a_up = inr false /\
  suppressed_events (state_of 0 release_a_up) = [a_down; a_up] /\
  suppressed_events (state_of 0 release_b_down) = [b_down] /\
  outcome (direct_callback 8 c_up) release_c_down = inr true /\
  index (state_of 0 release_c_up) = 0%nat /\
  suppressed_events (state_of 0 release_c_up) = [] /\
  calls release_c_up = [] /\
  os_events release_c_up = [OsPress 48].
Proof. vm_compute. repeat split. Qed.

(** C7, amended, at the key-down of [c] while the matcher of [a, b]
    waits at step 1. *)
Lemma miss_replays_buffer_and_resets_witness :
  exists w' st',
    catch_misses 0 c_down false waiting_world = (inr true, w') /\
    os_events w' = os_events waiting_world ++ [OsPress 30; OsRelease 30] /\
    registrations w' !! 0%nat = Some st' /\
    index st' = 0%nat /\
    suppressed_events st' = [] /\
    the_blocking_hooks w' = [] /\
    removed (sr_handler waiting_remover) true [[48]] waiting_world
      (after (run_step_remover waiting_remover) waiting_world) /\
    added {| hook_id := HClosure 6; hook_body := StepMid 0 0 |} true [[30]]
      (after (run_step_remover waiting_remover) waiting_world) w'.
Proof.
  apply (miss_replays_buffer_and_resets 0 waiting_state c_down false
           waiting_world waiting_remover
           (after (run_step_remover waiting_remover) waiting_world)
           (HClosure 4) waiting_catch_misses [] [[30]] demo_modifier_codes).
  - vm_compute. reflexivity.
  - vm_compute. lia.
  - exists [[48]]. vm_compute. reflexivity.
  - left. split; [vm_compute; reflexivity|].
    exists [[48]]. split; [vm_compute; reflexivity|].
    apply (bool_decide_unpack _). vm_compute. exact I.
  - vm_compute. reflexivity.
  - vm_compute. reflexivity.
  - vm_compute. reflexivity.
  - vm_compute. reflexivity.
  - vm_compute. reflexivity.
  - vm_compute. reflexivity.
Defined.




(** C10 as stated fails in its last part: with
    [add_hotkey('ctrl+shift+a', accepting_callback, suppress=True)] as
    the only registration, the key-down of [a] is let through while
    control and shift are held, and [a] is logically pressed.  Shift goes
    up; the key-up of [a] then finds no handler under the keys held,
    [(29, 30)], the row [('suppressed', KEY_UP, 'other')] of the
    transition table rejects it for the control key, and [a] stays
    logically pressed though it is no longer held. *)
Lemma let_through_key_up_is_suppressed :
  outcome (direct_callback 8 a_down) chord_shift_down = inr true /\
  _logically_pressed_keys chord_a_down !! 30 = Some a_down /\
  outcome (direct_callback 8 shift_up) chord_a_down = inr false /\
  entry [29; 30] (blocking_hotkeys (_listener chord_shift_up)) = [] /\
  the_modifier_states chord_shift_up !! 29 = Some suppressed /\
  outcome (direct_callback 8 a_up) chord_shift_up = inr false /\
  _logically_pressed_keys chord_a_up !! 30 = Some a_down /\
  _pressed_events chord_a_up !! 30 = None /\
  calls chord_a_up = [cb_id accepting_callback].
Proof. vm_compute. repeat split. Qed.

(** C10, amended, at [add_hotkey('a', quiet_callback, suppress=True)]. *)
Lemma single_step_key_up_passes_witness :
  let handler :=
    {| hook_id := HClosure 0;
       hook_body := SingleStep KEY_DOWN quiet_callback |} in
  added handler true [[30]] initial_world
    (after (add_hotkey (KStr "a") quiet_callback true 1 false) initial_world) /\
  forall event w0,
    event_type event = KEY_UP ->
    is_Some (_logically_pressed_keys w0 !! scan_code event) ->
    run_hook handler event w0 = (inr true, w0).
Proof.
  apply (single_step_key_up_passes (KStr "a") quiet_callback true 1 [[30]]
           demo_modifier_codes initial_world); vm_compute; reflexivity.
Defined.

End Claims.

(** * Further properties of the engine *)

Module Extras.
Import Engine Spec Facts Surface Terms.

(** ** Splitting and joining hotkey strings *)

Lemma re_split_pieces (m : string -> nat) (c0 : ascii) :
  (forall rest, m (String c0 rest) <> 0%nat) ->
  forall s skip piece,
    piece ∈ re_split m skip s -> occurs c0 piece = false.
Proof.
  intros Hm s. induction s as [|c s IH]; intros skip piece; simpl.
  - rewrite list_elem_of_singleton. by intros ->.
  - destruct skip as [|k]; [|apply IH].
    destruct (m (String c s)) as [|k] eqn:Hmatch.
    + assert (Ascii.eqb c0 c = false) as Hc.
      { apply Ascii.eqb_neq. intros <-. by apply (Hm s). }
      destruct (re_split m 0 s) as [|p ps] eqn:Hsplit.
      * rewrite list_elem_of_singleton. intros ->. simpl. by rewrite Hc.
      * rewrite elem_of_cons. intros [->|Hin].
        -- simpl. rewrite Hc. apply (IH 0%nat). rewrite Hsplit. left.
        -- apply (IH 0%nat). rewrite Hsplit. by right.
    + rewrite elem_of_cons. intros [->|Hin]; [done|]. by apply (IH k).
Qed.

Lemma re_split_subset (m : string -> nat) (c0 : ascii) s :
  occurs c0 s = false ->
  forall skip piece, piece ∈ re_split m skip s -> occurs c0 piece = false.
Proof.
  induction s as [|c s IH]; intros Hs skip piece; simpl.
  - rewrite list_elem_of_singleton. by intros ->.
  - simpl in Hs. apply orb_false_iff in Hs as [Hc Hs].
    destruct skip as [|k]; [|by apply IH].
    destruct (m (String c s)) as [|k].
    + destruct (re_split m 0 s) as [|p ps] eqn:Hsplit.
      * rewrite list_elem_of_singleton. intros ->. simpl. by rewrite Hc.
      * rewrite elem_of_cons. intros [->|Hin].
        -- simpl. rewrite Hc. apply (IH Hs 0%nat). rewrite Hsplit. left.
        -- apply (IH Hs 0%nat). rewrite Hsplit. by right.
    + rewrite elem_of_cons. intros [->|Hin]; [done|]. by apply (IH Hs k).
Qed.

(** X3: the key names that [parse_hotkey] takes out of a hotkey string
    hold neither a comma nor a plus sign, and a step holds no comma. *)
Theorem hotkey_pieces_hold_no_separator (s step key : string) :
  step ∈ re_split comma_match 0 s ->
  key ∈ re_split plus_match 0 step ->
  occurs "," step = false /\
  occurs "," key = false /\
  occurs "+" key = false.
Proof.
  intros Hstep Hkey.
  assert (occurs "," step = false) as Hcomma.
  { apply (re_split_pieces comma_match ",") in Hstep; [done|]. by intros rest. }
  split; [done|]. split.
  - by apply (re_split_subset plus_match "," step Hcomma 0%nat).
  - apply (re_split_pieces plus_match "+") in Hkey; [done|]. by intros rest.
Qed.

Lemma hotkey_pieces_hold_no_separator_witness :
  occurs "," "ctrl+a" = false /\
  occurs "," "a" = false /\
  occurs "+" "a" = false.
Proof.
  apply (hotkey_pieces_hold_no_separator "ctrl+a, b" "ctrl+a" "a");
    apply (bool_decide_unpack _); vm_compute; exact I.
Defined.

(** *** From a hotkey name back to its parts *)

Lemma occurs_app c s t : occurs c (s +:+ t) = occurs c s || occurs c t.
Proof.
  induction s as [|a s IH]; simpl; [done|]. by rewrite IH, orb_assoc.
Qed.

Lemma replace_plus_none skip s :
  occurs "+" (PyStr.replace_from "+" "plus" skip s) = false.
Proof.
  revert skip. induction s as [|c s IH]; intros skip; [done|].
  cbn [PyStr.replace_from PyStr.starts_with String.length Nat.pred].
  destruct skip as [|k]; [|apply IH].
  destruct (Ascii.eqb "+" c) eqn:Hc.
  - rewrite occurs_app. apply IH.
  - cbn [occurs]. rewrite Hc. apply IH.
Qed.

Lemma clean_name_no_plus e : occurs "+" (HotkeyName.clean_name e) = false.
Proof. apply replace_plus_none. Qed.

Lemma not_plus {A} (c : ascii) (x y : A) :
  c <> "+"%char -> match c with "+"%char => x | _ => y end = y.
Proof.
  intros Hc. destruct c as [[] [] [] [] [] [] [] []]; try reflexivity.
  by destruct Hc.
Qed.

Lemma plus_match_none c rest :
  c <> "+"%char ->
  (forall c' rest', rest = String c' rest' -> c' <> "+"%char) ->
  plus_match (String c rest) = 0%nat.
Proof.
  intros Hc Hrest.
  change (plus_match (String c rest))
    with (match c with
          | "+"%char => S (space_at_head rest)
          | _ => match rest with
                 | String c' rest' =>
                     match c' with
                     | "+"%char =>
                         if is_space c then S (S (space_at_head rest'))
                         else 0%nat
                     | _ => 0%nat
                     end
                 | EmptyString => 0%nat
                 end
          end).
  rewrite (not_plus c _ _ Hc).
  destruct rest as [|c' rest']; [done|].
  apply not_plus. by apply (Hrest c' rest').
Qed.

Lemma occurs_head c a s : occurs c (String a s) = false -> a <> c.
Proof.
  cbn [occurs]. intros Hs <-. by rewrite Ascii.eqb_refl in Hs.
Qed.

Lemma re_split_no_plus s :
  occurs "+" s = false -> re_split plus_match 0 s = [s].
Proof.
  induction s as [|c s IH]; intros Hs; [done|].
  pose proof (occurs_head _ _ _ Hs) as Hc.
  cbn [occurs] in Hs. apply orb_false_iff in Hs as [_ Hs].
  cbn [re_split]. rewrite (IH Hs).
  rewrite plus_match_none; [done|done|].
  intros c' rest' ->. by apply (occurs_head _ _ _ Hs).
Qed.

Lemma plus_match_after_char c r :
  c <> "+"%char -> is_space c = false ->
  plus_match (String c (String "+" r)) = 0%nat.
Proof.
  intros Hc Hspace.
  change (plus_match (String c (String "+" r)))
    with (match c with
          | "+"%char => S (space_at_head (String "+" r))
          | _ => if is_space c then S (S (space_at_head r)) else 0%nat
          end).
  by rewrite (not_plus c _ _ Hc), Hspace.
Qed.

Lemma append_nil s : "" +:+ s = s.
Proof. reflexivity. Qed.

Lemma append_cons c s t : String c s +:+ t = String c (s +:+ t).
Proof. reflexivity. Qed.

Lemma re_split_part p r :
  occurs "+" p = false -> ends_in_space p = false ->
  space_at_head r = 0%nat ->
  re_split plus_match 0 (p +:+ String "+" r) = p :: re_split plus_match 0 r.
Proof.
  intros Hp Hend Hr. induction p as [|c p IH].
  - rewrite append_nil. cbn [re_split].
    change (plus_match (String "+" r)) with (S (space_at_head r)).
    by rewrite Hr.
  - pose proof (occurs_head _ _ _ Hp) as Hc.
    cbn [occurs] in Hp. apply orb_false_iff in Hp as [_ Hp].
    rewrite append_cons. cbn [re_split].
    destruct p as [|c' p].
    + rewrite append_nil in *. cbn [ends_in_space] in Hend.
      rewrite (plus_match_after_char c r Hc Hend).
      by rewrite (IH Hp eq_refl).
    + rewrite plus_match_none; [|done|].
      2:{ rewrite append_cons. intros c'' rest' [= <- _].
          by apply (occurs_head _ _ _ Hp). }
      by rewrite (IH Hp Hend).
Qed.

Lemma join_cons sep p q rest :
  PyStr.join sep (p :: q :: rest) = p +:+ sep +:+ PyStr.join sep (q :: rest).
Proof. reflexivity. Qed.

Lemma join_head_no_space parts :
  Forall trimmed parts -> space_at_head (PyStr.join "+" parts) = 0%nat.
Proof.
  intros Hparts. destruct Hparts as [|q rest [Hq _] Hrest]; [done|].
  destruct rest as [|q' rest]; [done|]. rewrite join_cons.
  destruct q as [|c q]; [done|]. exact Hq.
Qed.

Lemma re_split_join parts :
  parts <> [] ->
  Forall (fun p => occurs "+" p = false) parts ->
  Forall trimmed parts ->
  re_split plus_match 0 (PyStr.join "+" parts) = parts.
Proof.
  induction parts as [|p parts IH]; [done|]. intros _ Hplus Htrim.
  apply Forall_cons in Hplus as [Hp Hplus].
  apply Forall_cons in Htrim as [[_ Hend] Htrim].
  destruct parts as [|q rest].
  - by apply re_split_no_plus.
  - rewrite join_cons.
    change ("+" +:+ PyStr.join "+" (q :: rest))
      with (String "+" (PyStr.join "+" (q :: rest))).
    rewrite (re_split_part _ _ Hp Hend (join_head_no_space _ Htrim)).
    by rewrite IH.
Qed.

(** X4: the name that [get_hotkey_name] builds can be taken apart
    again: split at the plus signs, as [parse_hotkey] splits a step, it
    gives back the cleaned names in their sorted order, provided no
    cleaned name starts or ends with white space. *)
Theorem hotkey_name_splits_back (normalize_name : string -> string)
    (names : list string) :
  names <> [] ->
  let parts :=
    merge_sort HotkeyName.name_le
      (PyStr.unique (HotkeyName.clean_name <$> (normalize_name <$> names))) in
  Forall trimmed parts ->
  re_split plus_match 0 (HotkeyName.get_hotkey_name normalize_name names)
  = parts.
Proof.
  intros Hnames parts Htrim. unfold HotkeyName.get_hotkey_name. fold parts.
  assert (parts ≡ₚ PyStr.unique
            (HotkeyName.clean_name <$> (normalize_name <$> names))) as Hperm
    by apply merge_sort_Permutation.
  apply re_split_join; [| |done].
  - intros Hnil. rewrite Hnil in Hperm. symmetry in Hperm.
    apply Permutation_nil_r in Hperm.
    destruct names as [|n names]; [done|]. discriminate Hperm.
  - apply Forall_forall. intros p Hin. rewrite Hperm in Hin.
    apply (Claims.unique_from_NoDup []) in Hin as [Hin _].
    apply list_elem_of_fmap in Hin as (e & -> & _).
    apply clean_name_no_plus.
Qed.

Lemma hotkey_name_splits_back_witness :
  re_split plus_match 0
    (HotkeyName.get_hotkey_name (fun n => n) ["left ctrl"; "shift"; "+"])
  = ["ctrl"; "shift"; "plus"].
Proof.
  apply (hotkey_name_splits_back (fun n => n) ["left ctrl"; "shift"; "+"]);
    [done|].
  change (Forall trimmed ["ctrl"; "shift"; "plus"]).
  repeat (apply Forall_cons_2; [split; reflexivity|]).
  apply Forall_nil_2.
Defined.

(** *** The order of the parts of a hotkey name *)

Lemma ascii_compare_trans a b c o :
  Ascii.compare a b = o -> Ascii.compare b c = o -> Ascii.compare a c = o.
Proof.
  unfold Ascii.compare. destruct o.
  - rewrite !N.compare_eq_iff. congruence.
  - rewrite !N.compare_lt_iff. lia.
  - rewrite !N.compare_gt_iff. lia.
Qed.

Lemma string_leb_trans s1 s2 s3 :
  String.leb s1 s2 = true -> String.leb s2 s3 = true ->
  String.leb s1 s3 = true.
Proof.
  unfold String.leb. revert s2 s3.
  induction s1 as [|a s1 IH]; intros [|b s2] [|c s3]; try done.
  cbn [String.compare].
  destruct (Ascii.compare a b) eqn:Hab; [| |done];
    destruct (Ascii.compare b c) eqn:Hbc; try done.
  - rewrite (ascii_compare_trans _ _ _ _ Hab Hbc). apply IH.
  - apply Ascii.compare_eq_iff in Hab as ->. by rewrite Hbc.
  - apply Ascii.compare_eq_iff in Hbc as <-. by rewrite Hab.
  - by rewrite (ascii_compare_trans _ _ _ _ Hab Hbc).
Qed.

#[local] Existing Instance Claims.name_le_total.

#[local] Instance name_le_trans : Transitive HotkeyName.name_le.
Proof.
  intros a b c. unfold HotkeyName.name_le, HotkeyName.key_le.
  destruct (HotkeyName.sorting_key a) as [i s],
           (HotkeyName.sorting_key b) as [j t],
           (HotkeyName.sorting_key c) as [k u]. simpl.
  intros [?|[-> Hst]] [?|[-> Htu]]; [left; lia|by left|by left|].
  right. split; [done|]. by apply (string_leb_trans s t u).
Qed.

#[local] Instance name_le_antisym : AntiSymm eq HotkeyName.name_le.
Proof.
  intros a b. unfold HotkeyName.name_le, HotkeyName.key_le,
    HotkeyName.sorting_key. simpl.
  intros [?|[? Hab]] [?|[? Hba]]; try lia.
  by apply String.leb_antisym.
Qed.

(** X5: the name of a hotkey depends on which names are given, not on
    their order and not on how often each is given. *)
Theorem hotkey_name_ignores_order (normalize_name : string -> string)
    (names1 names2 : list string) :
  (forall n, n ∈ names1 <-> n ∈ names2) ->
  HotkeyName.get_hotkey_name normalize_name names1
  = HotkeyName.get_hotkey_name normalize_name names2.
Proof.
  intros Hsame. unfold HotkeyName.get_hotkey_name. f_equal.
  apply (Sorted_unique HotkeyName.name_le);
    [apply (Sorted_merge_sort _)|apply (Sorted_merge_sort _)|].
  rewrite !merge_sort_Permutation.
  apply NoDup_Permutation;
    [apply (Claims.unique_from_NoDup [])|apply (Claims.unique_from_NoDup [])|].
  intros p. unfold PyStr.unique.
  rewrite !(proj2 (Claims.unique_from_NoDup [] _)), !list_elem_of_fmap.
  split; intros [(e & -> & (n & -> & Hn)%list_elem_of_fmap) Hnil];
    (split; [|done]); exists (normalize_name n);
    (split; [done|]); apply list_elem_of_fmap; exists n;
    (split; [done|]); by apply Hsame.
Qed.

Lemma hotkey_name_ignores_order_witness :
  HotkeyName.get_hotkey_name (fun n => n) ["a"; "shift"; "ctrl"]
  = HotkeyName.get_hotkey_name (fun n => n) ["ctrl"; "a"; "shift"; "a"].
Proof.
  apply (hotkey_name_ignores_order (fun n => n)).
  intros n. rewrite !elem_of_cons, !elem_of_nil. tauto.
Defined.

(** X6: in a hotkey name the modifiers come before every other key, in
    the order ctrl, alt, shift, windows, and the other keys follow in
    the order of their names. *)
Theorem hotkey_name_modifiers_first (l : list string) (i j : nat)
    (a b : string) :
  merge_sort HotkeyName.name_le l !! i = Some a ->
  merge_sort HotkeyName.name_le l !! j = Some b ->
  (i < j)%nat ->
  (b ∈ HotkeyName.modifiers -> a ∈ HotkeyName.modifiers) /\
  (forall m n, PyStr.index_of a HotkeyName.modifiers = Some m ->
               PyStr.index_of b HotkeyName.modifiers = Some n ->
               (m <= n)%nat) /\
  (a ∉ HotkeyName.modifiers -> String.leb a b = true).
Proof.
  intros Ha Hb Hij.
  assert (HotkeyName.name_le a b) as Hle.
  { pose proof (StronglySorted_merge_sort HotkeyName.name_le l) as Hs.
    revert i j Ha Hb Hij.
    induction Hs as [|x l' Hs IH Hall]; intros i j Ha Hb Hij; [done|].
    destruct j as [|j]; [lia|]. destruct i as [|i].
    - injection Ha as <-. rewrite Forall_forall in Hall.
      apply Hall. by apply (list_elem_of_lookup_2 _ j).
    - apply (IH i j); [done|done|lia]. }
  unfold HotkeyName.name_le, HotkeyName.key_le, HotkeyName.sorting_key in Hle.
  cbn [fst snd] in Hle.
  assert (forall k, k ∈ HotkeyName.modifiers <->
                    is_Some (PyStr.index_of k HotkeyName.modifiers)) as Hidx.
  { intros k. unfold HotkeyName.modifiers.
    rewrite !elem_of_cons, elem_of_nil. cbn [PyStr.index_of].
    destruct (String.eqb_spec k "ctrl"); [subst; split; eauto|].
    destruct (String.eqb_spec k "alt"); [subst; split; eauto|].
    destruct (String.eqb_spec k "shift"); [subst; split; eauto|].
    destruct (String.eqb_spec k "windows"); [subst; split; eauto|].
    cbn. split; [tauto|]. by intros [? ?]. }
  assert (forall k n, PyStr.index_of k HotkeyName.modifiers = Some n ->
                      (n < 4)%nat) as Hbound.
  { intros k n. unfold HotkeyName.modifiers. cbn [PyStr.index_of].
    repeat (destruct (String.eqb k _); [intros [= <-]; lia|]). done. }
  rewrite !Hidx.
  destruct (PyStr.index_of a HotkeyName.modifiers) as [m|] eqn:Hm,
           (PyStr.index_of b HotkeyName.modifiers) as [n|] eqn:Hn;
    cbn [from_option id] in Hle.
  - split; [by eauto|]. split.
    + intros m' n' [= <-] [= <-]. lia.
    + intros Hnone. destruct Hnone. by eauto.
  - split; [by intros [? [=]]|]. split; [by intros m' n' _ [=]|].
    intros Hnone. destruct Hnone. by eauto.
  - apply Hbound in Hn. destruct Hle as [?|[? _]]; lia.
  - split; [by intros [? [=]]|]. split; [by intros m' n' [=]|].
    intros _. destruct Hle as [?|[_ ?]]; [lia|done].
Qed.

Lemma hotkey_name_modifiers_first_witness :
  ("shift" ∈ HotkeyName.modifiers -> "ctrl" ∈ HotkeyName.modifiers) /\
  (forall m n, PyStr.index_of "ctrl" HotkeyName.modifiers = Some m ->
               PyStr.index_of "shift" HotkeyName.modifiers = Some n ->
               (m <= n)%nat) /\
  ("ctrl" ∉ HotkeyName.modifiers -> String.leb "ctrl" "shift" = true).
Proof.
  apply (hotkey_name_modifiers_first ["a"; "shift"; "ctrl"] 0 1);
    [reflexivity|reflexivity|lia].
Defined.

Section WithPlatform.
Context `{Platform}.

(** ** Scan codes of a key *)

Lemma scan_codes_of_entries_NoDup r t :
  scan_codes_of_entries r = inr t -> NoDup t.
Proof.
  destruct r as [e|entries]; cbn.
  - destruct e; intros [= <-] || done; constructor.
  - intros [= <-]. apply (Claims.unique_from_NoDup []).
Qed.

Lemma key_to_scan_codes_at_NoDup depth s error_if_missing t :
  key_to_scan_codes_at depth (KStr s) error_if_missing = inr t -> NoDup t.
Proof.
  revert s error_if_missing t.
  induction depth as [|depth IH]; intros s b t;
    cbn [key_to_scan_codes_at];
    destruct (bool_decide (normalize_name s ∈ sided_modifiers));
    try done;
    try (destruct (scan_codes_of_entries _) as [e|t'] eqn:Ht; [done|];
         cbn; destruct (_ && _); [done|]; intros [= <-];
         by apply scan_codes_of_entries_NoDup in Ht).
  destruct (key_to_scan_codes_at depth (KStr ("left " +:+ _)) false)
    as [e|l] eqn:Hl; [done|].
  destruct (key_to_scan_codes_at depth (KStr ("right " +:+ _)) false)
    as [e|r] eqn:Hr; [done|].
  cbn. intros [= <-]. apply NoDup_app. split; [by apply IH in Hl|]. split.
  - intros x Hx. rewrite list_elem_of_filter. tauto.
  - apply NoDup_filter. by apply IH in Hr.
Qed.

(** X7: a key given by name or by number never gives the same scan
    code twice, also when the two sides of a modifier share a code. *)
Theorem key_gives_distinct_scan_codes key error_if_missing t :
  is_list key = false ->
  key_to_scan_codes key error_if_missing = inr t ->
  NoDup t.
Proof.
  unfold key_to_scan_codes. destruct key as [code|s|keys]; [| |done];
    intros _.
  - destruct recursion_limit; intros [= <-]; apply NoDup_singleton.
  - apply key_to_scan_codes_at_NoDup.
Qed.

(** X8: for a name that is no sided modifier, [error_if_missing]
    decides between [ValueError] and the empty tuple; a tuple that is
    returned with [error_if_missing=True] is never empty. *)
Theorem missing_name_raises_or_is_empty s :
  normalize_name s ∉ sided_modifiers ->
  (forall t, key_to_scan_codes (KStr s) true = inr t -> t <> []) /\
  (key_to_scan_codes (KStr s) true = inl ValueError <->
   key_to_scan_codes (KStr s) false = inr []) /\
  (forall t, t <> [] ->
     key_to_scan_codes (KStr s) true = inr t <->
     key_to_scan_codes (KStr s) false = inr t).
Proof.
  intros Hside. unfold key_to_scan_codes.
  destruct recursion_limit as [|depth]; cbn [key_to_scan_codes_at];
    rewrite (bool_decide_eq_false_2 _ Hside);
    (destruct (map_name (normalize_name s)) as [e|entries];
     [destruct e|]; cbn;
     [..|destruct (PyStr.unique (entries.*1)) as [|c cs] eqn:Hu; cbn]);
    repeat split; try done; try congruence.
Qed.

(** X9: for a sided modifier [error_if_missing] has no effect: a
    name neither side of which is mapped gives the empty tuple, where
    any other unmapped name raises [ValueError]. *)
Theorem sided_modifier_is_never_missing s error_if_missing :
  normalize_name s ∈ sided_modifiers ->
  recursion_limit <> 0%nat ->
  (forall side, side ∈ ["left "; "right "] ->
     let n := normalize_name (side +:+ normalize_name s) in
     (n ∉ sided_modifiers) /\ scan_codes_of_entries (map_name n) = inr []) ->
  key_to_scan_codes (KStr s) error_if_missing = inr [].
Proof.
  intros Hside Hdepth Hsides. unfold key_to_scan_codes.
  destruct recursion_limit as [|depth]; [done|].
  cbn [key_to_scan_codes_at]. rewrite (bool_decide_eq_true_2 _ Hside).
  assert (forall side, side ∈ ["left "; "right "] ->
            key_to_scan_codes_at depth
              (KStr (side +:+ normalize_name s)) false = inr []) as Hrec.
  { intros side Hin. destruct (Hsides side Hin) as [Hn Hmap].
    destruct depth; cbn [key_to_scan_codes_at];
      rewrite (bool_decide_eq_false_2 _ Hn), Hmap; done. }
  rewrite (Hrec "left "), (Hrec "right "); [done|..];
    rewrite !elem_of_cons; tauto.
Qed.

(** ** Combinations and the signature of the keys held down *)

Lemma product_spec keys c :
  c ∈ product keys <-> Forall2 (fun code key => code ∈ key) c keys.
Proof.
  revert c. induction keys as [|key keys IH]; intros c; cbn [product].
  - rewrite list_elem_of_singleton. split; [by intros ->|].
    by intros ->%Forall2_nil_inv_r.
  - rewrite list_elem_of_bind. split.
    + intros (x & (r & [= ->]%list_elem_of_singleton & Hr)%list_elem_of_bind
                & Hx).
      constructor; [done|]. by apply IH.
    + intros (x & r & Hx & Hr & ->)%Forall2_cons_inv_r.
      exists x. split; [|done]. apply list_elem_of_bind.
      exists r. split; [by left|]. by apply IH.
Qed.

Lemma bind_length {A B} (f : A -> list B) (l : list A) n :
  (forall x, length (f x) = n) -> length (l ≫= f) = (length l * n)%nat.
Proof.
  intros Hf. induction l as [|x l IH]; [done|].
  cbn. rewrite length_app, Hf, IH. done.
Qed.

Lemma product_length keys : length (product keys) = choices keys.
Proof.
  induction keys as [|key keys IH]; [done|].
  cbn [product]. unfold choices. cbn [fmap list_fmap foldr].
  fold (choices keys). rewrite <- IH.
  apply bind_length. intros x.
  rewrite (bind_length _ _ 1%nat); [lia|done].
Qed.

(** X10: a step has one combination for every choice of one scan code
    per key, and each combination is that choice as a sorted tuple. *)
Theorem step_combinations (step : list (list Z)) :
  length (combine_step step) = choices step /\
  forall c,
    c ∈ combine_step step <->
    exists choice,
      Forall2 (fun code key => code ∈ key) choice step /\
      c = merge_sort Z.le choice.
Proof.
  unfold combine_step. split.
  - rewrite length_fmap. apply product_length.
  - intros c. rewrite list_elem_of_fmap.
    split; intros (choice & H1 & H2); exists choice.
    + by rewrite <- product_spec.
    + by rewrite product_spec.
Qed.

(** X11: when the keys held down are the scan codes of a choice, all
    different, the tuple under which [direct_callback] looks up the
    hotkey handlers is the combination of that choice; a combination
    that holds a scan code twice is never looked up. *)
Theorem held_keys_find_their_combination (choice : list Z) (w : World) :
  (NoDup choice ->
   dom (_pressed_events w) = list_to_set choice ->
   pressed_scan_codes w = merge_sort Z.le choice) /\
  (~ NoDup choice -> pressed_scan_codes w <> merge_sort Z.le choice).
Proof.
  unfold pressed_scan_codes. split.
  - intros Hnd Hdom.
    apply (Sorted_unique Z.le);
      [apply (Sorted_merge_sort _)|apply (Sorted_merge_sort _)|].
    rewrite !merge_sort_Permutation, Hdom.
    by apply elements_list_to_set.
  - intros Hdup Heq. apply Hdup.
    rewrite <- (merge_sort_Permutation Z.le choice), <- Heq.
    rewrite merge_sort_Permutation. apply NoDup_elements.
Qed.

(** The tuple that [direct_callback] computes holds the key of the
    event: a key-down is entered in the table before the tuple is
    read, a key-up is taken out after it. *)
Lemma update_pressed_table event w signature w' :
  update_pressed event w = (inr signature, w') ->
  match event_type event with
  | KEY_DOWN =>
      _pressed_events w' = <[scan_code event := event]> (_pressed_events w) /\
      signature = pressed_scan_codes w'
  | KEY_UP =>
      _pressed_events w' = delete (scan_code event) (_pressed_events w) /\
      signature = pressed_scan_codes w
  end.
Proof.
  unfold update_pressed. intros Hrun.
  apply bind_inv in Hrun as ([] & w1 & Hdown & Hrun).
  apply bind_inv in Hrun as (sig & w2 & [= <- <-] & Hrun).
  apply bind_inv in Hrun as ([] & w3 & Hup & [= <- <-]).
  destruct (event_type event); cbn [bool_decide decide_rel] in *.
  - rewrite bool_decide_eq_true_2 in Hdown by done.
    rewrite bool_decide_eq_false_2 in Hup by done.
    injection Hup as <-.
    apply bind_inv in Hdown as (m & wa & [= _ <-] & Hdown).
    apply bind_inv in Hdown as ([] & wb & Hmod & [= <-]).
    assert (_pressed_events wb = _pressed_events w) as Hsame.
    { destruct m; cbn in Hmod; by injection Hmod as <-. }
    unfold pressed_scan_codes. cbn. by rewrite Hsame.
  - rewrite bool_decide_eq_false_2 in Hdown by done.
    rewrite bool_decide_eq_true_2 in Hup by done.
    injection Hdown as <-.
    apply bind_inv in Hup as ([] & wa & [= <-] & [= <-]).
    done.
Qed.

End WithPlatform.

Lemma key_gives_distinct_scan_codes_witness : NoDup [29; 97].
Proof.
  apply (key_gives_distinct_scan_codes (H:=Demo.demo_platform)
           (KStr "ctrl") true); reflexivity.
Defined.

Lemma missing_name_raises_or_is_empty_witness :
  (forall t,
     key_to_scan_codes (H:=Demo.demo_platform) (KStr "a") true = inr t ->
     t <> []) /\
  (key_to_scan_codes (H:=Demo.demo_platform) (KStr "a") true = inl ValueError
   <-> key_to_scan_codes (H:=Demo.demo_platform) (KStr "a") false = inr []) /\
  (forall t, t <> [] ->
     key_to_scan_codes (H:=Demo.demo_platform) (KStr "a") true = inr t <->
     key_to_scan_codes (H:=Demo.demo_platform) (KStr "a") false = inr t).
Proof.
  apply (missing_name_raises_or_is_empty (H:=Demo.demo_platform) "a").
  apply (bool_decide_unpack _). vm_compute. exact I.
Defined.

Lemma sided_modifier_is_never_missing_witness :
  Bare.bare_key_to_scan_codes (KStr "ctrl") true = inr [].
Proof.
  apply (sided_modifier_is_never_missing (H:=Bare.bare_platform) "ctrl" true).
  - apply (bool_decide_unpack _). vm_compute. exact I.
  - done.
  - intros side Hside.
    assert (side = "left " \/ side = "right ") as [->| ->]
      by (rewrite !elem_of_cons, elem_of_nil in Hside; tauto);
      (split; [apply (bool_decide_unpack _); vm_compute; exact I|reflexivity]).
Defined.

Lemma held_keys_find_their_combination_witness :
  pressed_scan_codes Sessions.held_world = merge_sort Z.le [30; 29].
Proof.
  apply (proj1 (held_keys_find_their_combination [30; 29] Sessions.held_world)).
  - apply (bool_decide_unpack _). vm_compute. exact I.
  - apply (bool_decide_unpack _). vm_compute. exact I.
Defined.

(** ** Synthetic key events *)

Lemma emitted_nil w : emitted [] w = w.
Proof. destruct w. unfold emitted. cbn. by rewrite app_nil_r. Qed.

Lemma emitted_app e1 e2 w : emitted e2 (emitted e1 w) = emitted (e1 ++ e2) w.
Proof. unfold emitted. cbn. by rewrite app_assoc. Qed.

Lemma first_codes_cons c cs step :
  first_codes ((c :: cs) :: step) = c :: first_codes step.
Proof. reflexivity. Qed.

Lemma first_codes_reverse step :
  first_codes (reverse step) = reverse (first_codes step).
Proof.
  unfold first_codes. induction step as [|sc step IH]; [done|].
  rewrite reverse_cons, omap_app, IH. destruct sc as [|c cs].
  - change (omap head ([] :: step)) with (omap head step).
    apply app_nil_r.
  - change (omap head ((c :: cs) :: step)) with (c :: omap head step).
    by rewrite reverse_cons.
Qed.

Section Sending.
Context `{Platform}.

(** One loop of [send] over the keys of a step. *)
Lemma emit_loop (mk : Z -> OsEvent) (emit : Z -> M unit) step w :
  (forall c w, emit c w = (inr tt, emitted [mk c] w)) ->
  Forall (fun scan_codes => scan_codes <> []) step ->
  for_each step (fun scan_codes => c ← first_code scan_codes; emit c) w
  = (inr tt, emitted (mk <$> first_codes step) w).
Proof.
  intros Hemit Hstep. revert w.
  induction Hstep as [|sc step Hsc Hstep IH]; intros w.
  - by rewrite emitted_nil.
  - destruct sc as [|c cs]; [done|]. cbn [for_each].
    rewrite (bind_returns _ _ w tt (emitted [mk c] w)).
    2:{ rewrite (bind_returns _ _ w c w) by done. apply Hemit. }
    by rewrite IH, emitted_app, first_codes_cons.
Qed.

Lemma send_step do_press do_release step w :
  Forall (fun scan_codes => scan_codes <> []) step ->
  (when do_press
     (for_each step (fun scan_codes =>
        c ← first_code scan_codes; os_press c)) ;;
   when do_release
     (for_each (reverse step) (fun scan_codes =>
        c ← first_code scan_codes; os_release c))) w
  = (inr tt, emitted (step_events do_press do_release step) w).
Proof.
  intros Hstep. unfold step_events.
  assert (Forall (fun scan_codes : list Z => scan_codes <> [])
            (reverse step)) as Hrev by by apply Forall_reverse.
  rewrite <- first_codes_reverse, <- emitted_app.
  rewrite (bind_returns _ _ w tt
             (emitted (if do_press then OsPress <$> first_codes step else [])
                w)).
  2:{ destruct do_press; cbn [when].
      - by apply emit_loop.
      - by rewrite emitted_nil. }
  destruct do_release; cbn [when].
  - by apply emit_loop.
  - by rewrite emitted_nil.
Qed.

(** X12: a call of [send] whose keys all have a scan code returns;
    for every step it has pressed the first scan code of each key in
    the order of the hotkey and released them in the opposite order,
    and it leaves [is_replaying] false. *)
Theorem send_presses_then_releases hotkey do_press do_release steps w :
  parse_hotkey hotkey = inr steps ->
  Forall (Forall (fun scan_codes => scan_codes <> [])) steps ->
  send hotkey do_press do_release w
  = (inr tt,
     on_listener (set_is_replaying false)
       (emitted (concat (step_events do_press do_release <$> steps)) w)).
Proof.
  intros Hparse Hsteps. unfold send. run_modify.
  rewrite (bind_returns _ _ _ steps _) by (unfold lift; by rewrite Hparse).
  set (w1 := on_listener (set_is_replaying true) w).
  assert (forall w0,
            for_each steps (fun step =>
              when do_press
                (for_each step (fun scan_codes =>
                   c ← first_code scan_codes; os_press c)) ;;
              when do_release
                (for_each (reverse step) (fun scan_codes =>
                   c ← first_code scan_codes; os_release c))) w0
            = (inr tt,
               emitted (concat (step_events do_press do_release <$> steps))
                 w0)) as Hloop.
  { clear Hparse.
    induction Hsteps as [|step steps Hstep Hsteps IH]; intros w0.
    - by rewrite emitted_nil.
    - cbn [for_each]. rewrite (bind_returns _ _ _ _ _ (send_step _ _ _ _ Hstep)).
      by rewrite IH, emitted_app. }
  by rewrite (bind_returns _ _ _ _ _ (Hloop w1)).
Qed.

(** *** A key without a scan code *)

Lemma for_each_first_failure {A} (bad : A -> Prop) (f : A -> M unit) :
  (forall x w, flag_is_set w ->
     exists r w', f x w = (r, w') /\ flag_is_set w' /\ stops r /\
                  (bad x -> r = inl IndexError)) ->
  forall l w, flag_is_set w ->
    exists r w', for_each l f w = (r, w') /\ flag_is_set w' /\ stops r /\
                 (Exists bad l -> r = inl IndexError).
Proof.
  intros Hf l. induction l as [|x l IH]; intros w Hw.
  - exists (inr tt), w. repeat split; [done|by left|].
    by intros ?%Exists_nil.
  - destruct (Hf x w Hw) as (r & w1 & Hx & Hw1 & Hr & Hbad).
    cbn [for_each]. destruct r as [e|[]].
    + exists (inl e), w1. rewrite (bind_raises _ _ _ _ _ Hx).
      repeat split; [done|done|]. intros _.
      by destruct Hr as [Hr|Hr].
    + destruct (IH w1 Hw1) as (r & w2 & Hl & Hw2 & Hr2 & Hbad2).
      exists r, w2. rewrite (bind_returns _ _ _ _ _ Hx).
      repeat split; [done|done|done|].
      intros [Hx'|Hl']%Exists_cons; [by apply Hbad in Hx'|by apply Hbad2].
Qed.

Lemma emit_loop_stops (emit : Z -> M unit) :
  (forall c w, exists w', emit c w = (inr tt, w') /\
                          _listener w' = _listener w) ->
  forall step w, flag_is_set w ->
    exists r w',
      for_each step (fun scan_codes => c ← first_code scan_codes; emit c) w
      = (r, w') /\ flag_is_set w' /\ stops r /\
      (Exists (fun scan_codes => scan_codes = []) step ->
       r = inl IndexError).
Proof.
  intros Hemit. apply for_each_first_failure. intros sc w Hw.
  destruct sc as [|c cs].
  - exists (inl IndexError), w. repeat split; [done|by right].
  - destruct (Hemit c w) as (w' & Hrun & Hsame).
    exists (inr tt), w'. rewrite (bind_returns _ _ w c w) by done.
    repeat split; [done| |by left|done].
    unfold flag_is_set. by rewrite Hsame.
Qed.

(** X13: when a key of the hotkey has no scan code, as a sided
    modifier neither side of which is mapped, [send] raises
    [IndexError] and leaves [is_replaying] true. *)
Theorem send_without_scan_code_raises hotkey do_press do_release steps w :
  parse_hotkey hotkey = inr steps ->
  Exists (fun step => [] ∈ step) steps ->
  do_press || do_release = true ->
  exists w',
    send hotkey do_press do_release w = (inl IndexError, w') /\
    is_replaying (_listener w') = true.
Proof.
  intros Hparse Hempty Hdo. unfold send. run_modify.
  rewrite (bind_returns _ _ _ steps _) by (unfold lift; by rewrite Hparse).
  set (w1 := on_listener (set_is_replaying true) w).
  assert (forall c w0, exists w', os_press c w0 = (inr tt, w') /\
                                  _listener w' = _listener w0) as Hpress
    by (intros; by eexists).
  assert (forall c w0, exists w', os_release c w0 = (inr tt, w') /\
                                  _listener w' = _listener w0) as Hrelease
    by (intros; by eexists).
  destruct (for_each_first_failure (fun step => [] ∈ step)
              (fun step =>
                 when do_press
                   (for_each step (fun scan_codes =>
                      c ← first_code scan_codes; os_press c)) ;;
                 when do_release
                   (for_each (reverse step) (fun scan_codes =>
                      c ← first_code scan_codes; os_release c)))) with
    (l := steps) (w := w1) as (r & w2 & Hloop & Hw2 & _ & Hbad);
    [|done|].
  - intros step w0 Hw0.
    assert (forall l : list (list Z),
              [] ∈ l -> Exists (fun scan_codes => scan_codes = []) l) as Hex.
    { intros l Hin. apply Exists_exists. by exists []. }
    destruct (emit_loop_stops os_press Hpress step w0 Hw0)
      as (r1 & wa & H1 & Hwa & Hr1 & Hbad1).
    destruct do_press; cbn [when orb] in *.
    + destruct r1 as [e|[]].
      * exists (inl e), wa. rewrite (bind_raises _ _ _ _ _ H1).
        repeat split; [done|by right; destruct Hr1|].
        intros _. by destruct Hr1.
      * rewrite (bind_returns _ _ _ _ _ H1).
        destruct (emit_loop_stops os_release Hrelease (reverse step) wa Hwa)
          as (r2 & wb & H2 & Hwb & Hr2 & Hbad2).
        destruct do_release; cbn [when].
        -- exists r2, wb. repeat split; [done|done|done|].
           intros Hin. apply Hbad2, Hex. by rewrite elem_of_reverse.
        -- exists (inr tt), wa. repeat split; [done|by left|].
           intros Hin. by specialize (Hbad1 (Hex _ Hin)).
    + subst do_release. cbn [when].
      rewrite (bind_returns _ _ w0 tt w0) by done.
      destruct (emit_loop_stops os_release Hrelease (reverse step) w0 Hw0)
        as (r2 & wb & H2 & Hwb & Hr2 & Hbad2).
      exists r2, wb. repeat split; [done|done|done|].
      intros Hin. apply Hbad2, Hex. by rewrite elem_of_reverse.
  - rewrite (Hbad Hempty) in Hloop.
    exists w2. by rewrite (bind_raises _ _ _ _ _ Hloop).
Qed.

(** *** A call of [send] that raised *)

Lemma send_raises_with_flag hotkey do_press do_release e w w1 :
  send hotkey do_press do_release w = (inl e, w1) ->
  is_replaying (_listener w1) = true.
Proof.
  unfold send. run_modify.
  set (w0 := on_listener (set_is_replaying true) w).
  destruct (parse_hotkey hotkey) as [e'|steps] eqn:Hparse.
  - rewrite (bind_raises _ _ w0 e' w0) by reflexivity.
    by intros [= _ <-].
  - rewrite (bind_returns _ _ w0 steps w0) by reflexivity.
    match goal with
    | |- (?m ≫= _) _ = _ -> _ =>
        assert (preserves (fun w => is_replaying (_listener w)) m)
          as Hloop by frame;
        destruct (m w0) as [[e'|[]] w2] eqn:Hm
    end.
    + rewrite (bind_raises _ _ _ _ _ Hm). intros [= _ <-].
      by rewrite (preserves_after _ _ _ _ _ Hloop Hm).
    + by rewrite (bind_returns _ _ _ _ _ Hm).
Qed.

(** X14: after a call of [send] that raised, the listener takes every
    event for a replay: whatever the backend delivers is let through,
    no hook and no hotkey sees it, and nothing of the world changes. *)
Theorem failed_send_leaves_listener_deaf hotkey do_press do_release e w w1
    bound events :
  send hotkey do_press do_release w = (inl e, w1) ->
  deliver bound events w1 = (inr tt, w1) /\
  forall event, direct_callback bound event w1 = (inr true, w1).
Proof.
  intros Hflag%send_raises_with_flag.
  assert (forall event, direct_callback bound event w1 = (inr true, w1))
    as Hdeaf.
  { intros event. unfold direct_callback. run_gets. by rewrite Hflag. }
  split; [|done]. unfold deliver.
  induction events as [|event events IH]; [done|].
  cbn [for_each]. rewrite (bind_returns _ _ w1 tt w1); [done|].
  by rewrite (bind_returns _ _ _ _ _ (Hdeaf event)).
Qed.
End Sending.

Lemma send_presses_then_releases_witness :
  send (H:=Demo.demo_platform) (KStr "ctrl+a, b") true true initial_world
  = (inr tt,
     on_listener (set_is_replaying false)
       (emitted [OsPress 29; OsPress 30; OsRelease 30; OsRelease 29;
                 OsPress 48; OsRelease 48] initial_world)).
Proof.
  apply (send_presses_then_releases (H:=Demo.demo_platform)
           (KStr "ctrl+a, b") true true [[[29; 97]; [30]]; [[48]]]).
  - reflexivity.
  - repeat (apply Forall_cons_2 || apply Forall_nil_2); done.
Defined.

Lemma send_without_scan_code_raises_witness :
  exists w',
    Bare.bare_send (KStr "ctrl") true true initial_world
    = (inl IndexError, w') /\
    is_replaying (_listener w') = true.
Proof.
  apply (send_without_scan_code_raises (H:=Bare.bare_platform)
           (KStr "ctrl") true true [[[]]]).
  - reflexivity.
  - apply Exists_cons_hd. apply (bool_decide_unpack _). vm_compute. exact I.
  - reflexivity.
Defined.

Lemma failed_send_leaves_listener_deaf_witness :
  let w1 := on_listener (set_is_replaying true) initial_world in
  deliver (H:=Demo.demo_platform) 8 [Scenario.a_down; Scenario.a_up] w1
  = (inr tt, w1) /\
  forall event,
    direct_callback (H:=Demo.demo_platform) 8 event w1 = (inr true, w1).
Proof.
  apply (failed_send_leaves_listener_deaf (H:=Demo.demo_platform)
           (KStr "nosuchkey") true true ValueError initial_world).
  vm_compute. reflexivity.
Defined.

(** ** The direct callback, stage by stage *)

Section Stages.
Context `{Platform} {B : Type} (proj : World -> B).
Hypothesis hook_frame : forall h e, preserves proj (run_hook h e).
Hypothesis listener_frame : forall f, preserves proj (modify (on_listener f)).
Hypothesis send_frame : forall k p r, preserves proj (send k p r).

Lemma all_hooks_frame bound sel i e :
  preserves proj (all_hooks bound sel i e).
Proof.
  revert i. induction bound as [|bound IH]; intros i; simpl.
  - apply preserves_raise.
  - apply preserves_bind; [apply preserves_gets|]. intros l.
    destruct (l !! i); [|apply preserves_ret].
    apply preserves_bind; [apply hook_frame|].
    intros []; [apply IH|apply preserves_ret].
Qed.

Lemma collect_hooks_frame bound sel i e :
  preserves proj (collect_hooks bound sel i e).
Proof.
  revert i. induction bound as [|bound IH]; intros i; simpl.
  - apply preserves_raise.
  - apply preserves_bind; [apply preserves_gets|]. intros l.
    destruct (l !! i); [|apply preserves_ret].
    apply preserves_bind; [apply hook_frame|]. intros r.
    apply preserves_bind; [apply IH|]. intros rs. apply preserves_ret.
Qed.

Lemma update_modifiers_frame keys t o acc :
  preserves proj (update_modifiers keys t o acc).
Proof.
  revert acc. induction keys as [|k keys IH]; intros acc; simpl.
  - apply preserves_ret.
  - apply preserves_bind; [apply preserves_gets|]. intros st.
    destruct (transition_table (st, t, o)) as [[sp na] ns].
    apply preserves_bind; [apply preserves_when, send_frame|]. intros _.
    apply preserves_bind; [apply listener_frame|]. intros _. apply IH.
Qed.

Lemma filter_hotkeys_frame bound e sig :
  preserves proj (filter_hotkeys bound e sig).
Proof.
  unfold filter_hotkeys.
  apply preserves_bind; [apply preserves_gets|]. intros table.
  destruct (bool_decide _); [apply preserves_ret|].
  apply preserves_bind; [apply preserves_gets|]. intros n.
  destruct (negb _); [apply update_modifiers_frame|].
  apply preserves_bind; [apply preserves_gets|]. intros before.
  apply preserves_bind; [apply preserves_lift|]. intros m.
  apply preserves_bind; [apply listener_frame|]. intros _.
  apply preserves_bind; [apply collect_hooks_frame|]. intros rs.
  apply preserves_bind; [apply preserves_gets|]. intros aft.
  destruct rs; apply update_modifiers_frame.
Qed.

Lemma blocking_keys_pass_frame bound e :
  preserves proj (blocking_keys_pass bound e).
Proof.
  unfold blocking_keys_pass.
  apply preserves_bind; [apply listener_frame|]. intros _.
  apply all_hooks_frame.
Qed.
End Stages.

Section Invariants.
Context `{Platform} (P : World -> Prop).
Hypothesis hook_keeps : forall h e, keeps P (run_hook h e).
Hypothesis press_keeps : forall c, keeps P (press (KNum c)).
Hypothesis pressed_keeps : forall e, keeps P (update_pressed e).
Hypothesis logical_keeps : forall e, keeps P (update_logical e).
Hypothesis listener_keeps :
  forall f,
    (forall l, is_replaying (f l) = is_replaying l /\
               active_modifiers (f l) = active_modifiers l) ->
    keeps P (modify (on_listener f)).

Lemma update_modifiers_keeps keys t o acc :
  keeps P (update_modifiers keys t o acc).
Proof.
  revert acc. induction keys as [|k keys IH]; intros acc; simpl.
  - apply keeps_ret.
  - apply keeps_bind; [apply keeps_gets|]. intros st.
    destruct (transition_table (st, t, o)) as [[sp na] ns].
    apply keeps_bind; [apply keeps_when, press_keeps|]. intros _.
    apply keeps_bind; [apply listener_keeps; intros l; split; reflexivity|]. intros _. apply IH.
Qed.

Lemma touch_keys_keeps k :
  keeps P (modify (on_listener (fun l =>
    set_blocking_keys (touch k (blocking_keys l)) l))).
Proof. apply listener_keeps. intros l. split; reflexivity. Qed.

Lemma touch_hotkeys_keeps k :
  keeps P (modify (on_listener (fun l =>
    set_blocking_hotkeys (touch k (blocking_hotkeys l)) l))).
Proof. apply listener_keeps. intros l. split; reflexivity. Qed.

Lemma direct_callback_keeps bound event :
  keeps P (direct_callback bound event).
Proof.
  unfold direct_callback.
  apply keeps_bind; [apply keeps_gets|]. intros [|]; [apply keeps_ret|].
  apply keeps_bind; [apply (all_hooks_keeps hook_keeps)|].
  intros [|]; [|apply keeps_ret]. cbn [negb].
  apply keeps_bind; [apply pressed_keeps|].
  intros signature. apply keeps_bind.
  { unfold blocking_keys_pass.
    apply keeps_bind; [apply touch_keys_keeps|]. intros _.
    apply (all_hooks_keeps hook_keeps). }
  intros [|]; [|apply keeps_ret]. cbn [negb].
  apply keeps_bind.
  { unfold filter_hotkeys.
    apply keeps_bind; [apply keeps_gets|]. intros table.
    destruct (bool_decide _); [apply keeps_ret|].
    apply keeps_bind; [apply keeps_gets|]. intros n.
    destruct (negb _); [apply update_modifiers_keeps|].
    apply keeps_bind; [apply keeps_gets|]. intros before.
    apply keeps_bind; [apply keeps_lift|]. intros m.
    apply keeps_bind; [apply touch_hotkeys_keeps|]. intros _.
    apply keeps_bind; [apply (collect_hooks_keeps hook_keeps)|]. intros rs.
    apply keeps_bind; [apply keeps_gets|]. intros aft.
    destruct rs; apply update_modifiers_keeps. }
  intros accept. apply keeps_bind; [apply keeps_when, logical_keeps|].
  intros _. apply keeps_bind; [apply listener_keeps; intros l; split; reflexivity|].
  intros _. apply keeps_ret.
Qed.
End Invariants.

Section Callback.
Context `{Platform}.

Lemma update_pressed_returns codes event w :
  modifier_scan_codes = inr codes ->
  exists signature w', update_pressed event w = (inr signature, w').
Proof.
  intros Hcodes. unfold update_pressed, mbind, M_bind, lift, when, gets,
    modify, mret, M_ret.
  rewrite (is_modifier_returns _ _ Hcodes).
  destruct (event_type event), (bool_decide (scan_code event ∈ codes));
    eexists _, _; reflexivity.
Qed.

(** *** The table of physically pressed keys *)

Lemma rest_keeps_pressed bound event signature :
  preserves _pressed_events
    (ok ← blocking_keys_pass bound event;
     if negb ok then mret false
     else
       accept ← filter_hotkeys bound event signature;
       when accept (update_logical event) ;;
       queue_put event ;;
       mret accept).
Proof.
  assert (forall h e, preserves _pressed_events (run_hook h e)) as Hhook
    by (intros; frame).
  assert (forall f, preserves _pressed_events (modify (on_listener f)))
    as Hlistener by (intros f w; reflexivity).
  assert (forall k p r, preserves _pressed_events (send k p r)) as Hsend
    by (intros; frame).
  apply preserves_bind; [apply blocking_keys_pass_frame; assumption|].
  intros [|]; [|apply preserves_ret]. cbn [negb].
  apply preserves_bind; [apply filter_hotkeys_frame; assumption|]. intros accept.
  apply preserves_bind; [frame|]. intros _.
  apply preserves_bind; [frame|]. intros _. apply preserves_ret.
Qed.

(** X15: an event that gets past the blocking hooks is entered in the
    table of physically pressed keys, whatever the later stages decide
    and also when one of them raises: afterwards [is_pressed] of its
    scan code is true for a key-down and false for a key-up.  An event
    that a blocking hook rejects leaves the table as it was. *)
Theorem pressed_table_follows_events bound event codes w :
  is_replaying (_listener w) = false ->
  modifier_scan_codes = inr codes ->
  let w' := after (direct_callback bound event) w in
  (forall w1,
     blocking_hooks_pass bound event w = (inr true, w1) ->
     is_pressed (KNum (scan_code event)) w'
     = (inr (bool_decide (event_type event = KEY_DOWN)), w')) /\
  (forall w1,
     blocking_hooks_pass bound event w = (inr false, w1) ->
     _pressed_events w' = _pressed_events w).
Proof.
  intros Hrep Hcodes w'. subst w'. unfold after, direct_callback.
  rewrite (bind_returns _ _ w (is_replaying (_listener w)) w) by done.
  rewrite Hrep. cbv iota.
  assert (forall h e, preserves _pressed_events (run_hook h e)) as Hhook
    by (intros; frame).
  split; intros w1 H1; rewrite (bind_returns _ _ _ _ _ H1);
    cbv beta iota delta [negb].
  - destruct (update_pressed_returns codes event w1 Hcodes)
      as (signature & w2 & H2).
    rewrite (bind_returns _ _ _ _ _ H2).
    pose proof (rest_keeps_pressed bound event signature w2) as Hrest.
    cbv beta in Hrest.
    match type of Hrest with
    | _pressed_events ?x = _ => set (w' := x) in *
    end.
    match goal with
    | |- is_pressed _ ?x = _ => change x with w'
    end.
    unfold is_pressed, gets. rewrite Hrest.
    apply update_pressed_table in H2.
    destruct (event_type event); destruct H2 as [-> _].
    + rewrite lookup_insert_eq. rewrite !bool_decide_eq_true_2; eauto.
    + rewrite lookup_delete_eq.
      rewrite !bool_decide_eq_false_2; [done|done|by intros [? ?]].
  - cbn. apply (preserves_after _ _ _ _ _
                  (all_hooks_frame _pressed_events Hhook _ _ _ _) H1).
Qed.

(** *** The replay flag *)

Lemma press_clear c : keeps flag_is_clear (press (KNum c)).
Proof. intros w Hw. by rewrite press_num. Qed.

Lemma replay_clear e : keeps flag_is_clear (replay e).
Proof.
  intros w Hw. unfold replay.
  destruct (event_type e); by rewrite ?press_num, ?release_num.
Qed.

Lemma run_hook_clear h e : keeps flag_is_clear (run_hook h e).
Proof. repeat first [apply replay_clear | keep_step]. Qed.

Lemma direct_callback_clear bound event :
  keeps flag_is_clear (direct_callback bound event).
Proof.
  apply direct_callback_keeps.
  - apply run_hook_clear.
  - apply press_clear.
  - intros e. keep.
  - intros e. keep.
  - intros f Hf w Hw. unfold flag_is_clear. cbn. by rewrite (proj1 (Hf _)).
Qed.

(** X16: one call of the interface or one event leaves [is_replaying]
    false, with one exception: a call of [send] that raised. *)
Theorem only_a_failed_send_sets_the_flag w w' :
  api_step w w' ->
  is_replaying (_listener w) = false ->
  is_replaying (_listener w') = true ->
  exists hotkey do_press do_release e,
    outcome (send hotkey do_press do_release) w = inl e /\
    w' = after (send hotkey do_press do_release) w.
Proof.
  intros Hstep Hclear Hset.
  assert (forall A (m : M A),
            keeps flag_is_clear m ->
            is_replaying (_listener (after m w)) = true -> False) as Hno.
  { intros A m Hm Hafter. specialize (Hm w Hclear).
    unfold flag_is_clear, after in *. congruence. }
  destruct Hstep as [cb s w|key cb s w|rm w|hk cb s t r w|hk w
                     |hk p r w|bd ev w|now w].
  - exfalso. apply (Hno _ _) in Hset; [done|keep].
  - exfalso. apply (Hno _ _) in Hset; [done|keep].
  - exfalso. apply (Hno _ _) in Hset; [done|keep].
  - exfalso. apply (Hno _ _) in Hset; [done|keep].
  - exfalso. apply (Hno _ _) in Hset; [done|keep].
  - unfold after, outcome in *.
    destruct (send hk p r w) as [[e|[]] w1] eqn:Hsend.
    + exists hk, p, r, e. by rewrite Hsend.
    + apply Claims.send_returns_clears_flag in Hsend.
      cbn in Hset. congruence.
  - exfalso. apply (Hno _ _) in Hset; [done|apply direct_callback_clear].
  - cbn in Hset. congruence.
Qed.

(** *** The active modifiers *)

Lemma update_pressed_held e : keeps modifiers_are_held (update_pressed e).
Proof.
  intros w Hw. unfold update_pressed.
  destruct (event_type e) eqn:Htype.
  - rewrite (bool_decide_eq_true_2 (KEY_DOWN = KEY_DOWN)) by done.
    rewrite (bool_decide_eq_false_2 (KEY_DOWN = KEY_UP)) by done.
    destruct (is_modifier (scan_code e)) as [err|m] eqn:Hm.
    + exact Hw.
    + unfold mbind, M_bind, lift, when, gets, modify, mret, M_ret.
      destruct m; intros c;
        cbn [snd _listener _pressed_events set__pressed_events on_listener
             set__listener active_modifiers set_active_modifiers].
      * rewrite elem_of_union, elem_of_singleton.
        rewrite lookup_insert_is_Some.
        intros [Hc| ->]; [|by split; [left|]].
        destruct (Hw c Hc). split; [|done].
        destruct (decide (scan_code e = c)); [by left|by right].
      * intros Hc. destruct (Hw c Hc). split; [|done].
        rewrite lookup_insert_is_Some.
        destruct (decide (scan_code e = c)); [by left|by right].
  - rewrite (bool_decide_eq_false_2 (KEY_UP = KEY_DOWN)) by done.
    rewrite (bool_decide_eq_true_2 (KEY_UP = KEY_UP)) by done.
    unfold mbind, M_bind, lift, when, gets, modify, mret, M_ret.
    intros c.
    cbn [snd _listener _pressed_events set__pressed_events on_listener
         set__listener active_modifiers set_active_modifiers].
    rewrite elem_of_difference, elem_of_singleton.
    intros [Hc Hne]. destruct (Hw c Hc). split; [|done].
    rewrite lookup_delete_ne; done.
Qed.

Lemma direct_callback_held bound event :
  keeps modifiers_are_held (direct_callback bound event).
Proof.
  apply direct_callback_keeps.
  - intros h e. keep.
  - intros c. keep.
  - apply update_pressed_held.
  - intros e. keep.
  - intros f Hf w Hw c. cbn. rewrite (proj2 (Hf _)). apply Hw.
Qed.

(** X17: in every world that the interface and the backend can bring
    about, each scan code in [active_modifiers] is the scan code of a
    modifier that is physically pressed. *)
Theorem active_modifiers_are_held w :
  reachable w -> modifiers_are_held w.
Proof.
  intros Hreach. apply rtc_nsteps in Hreach as [n Hn].
  revert w Hn. induction n as [|n IH]; intros w Hn.
  - inversion Hn; subst. intros c. cbn. by rewrite elem_of_empty.
  - apply nsteps_inv_r in Hn as (w0 & Hn & Hstep).
    specialize (IH w0 Hn).
    assert (forall A (m : M A),
              keeps modifiers_are_held m -> modifiers_are_held (after m w0))
      as Hkeep by (intros A m Hm; by apply Hm).
    destruct Hstep.
    + apply Hkeep. keep.
    + apply Hkeep. keep.
    + apply Hkeep. keep.
    + apply Hkeep. keep.
    + apply Hkeep. keep.
    + apply Hkeep. keep.
    + apply Hkeep, direct_callback_held.
    + exact IH.
Qed.
End Callback.

Lemma pressed_table_follows_events_witness :
  let w' := after (direct_callback (H:=Demo.demo_platform) 8 Scenario.a_down)
              Scenario.block_world in
  (forall w1,
     blocking_hooks_pass (H:=Demo.demo_platform) 8 Scenario.a_down
       Scenario.block_world = (inr true, w1) ->
     is_pressed (H:=Demo.demo_platform) (KNum 30) w' = (inr true, w')) /\
  (forall w1,
     blocking_hooks_pass (H:=Demo.demo_platform) 8 Scenario.a_down
       Scenario.block_world = (inr false, w1) ->
     _pressed_events w' = _pressed_events Scenario.block_world).
Proof.
  apply (pressed_table_follows_events (H:=Demo.demo_platform) 8
           Scenario.a_down Scenario.demo_modifier_codes Scenario.block_world);
    reflexivity.
Defined.

Lemma only_a_failed_send_sets_the_flag_witness :
  exists hotkey do_press do_release e,
    outcome (send (H:=Demo.demo_platform) hotkey do_press do_release)
      initial_world = inl e /\
    Sessions.failed_send_world
    = after (send (H:=Demo.demo_platform) hotkey do_press do_release)
        initial_world.
Proof.
  apply (only_a_failed_send_sets_the_flag (H:=Demo.demo_platform)
           initial_world Sessions.failed_send_world).
  - apply (step_send (H:=Demo.demo_platform)).
  - reflexivity.
  - reflexivity.
Defined.

Lemma active_modifiers_are_held_witness :
  modifiers_are_held (H:=Demo.demo_platform) Sessions.held_world.
Proof.
  apply (active_modifiers_are_held (H:=Demo.demo_platform)).
  eapply rtc_r; [eapply rtc_r; [apply rtc_refl|]|];
    apply (step_event (H:=Demo.demo_platform)).
Defined.

(** ** Key-ups under blocking hotkeys *)

Section Release.
Context `{Platform}.

Lemma key_down_handler_passes_key_up h event w :
  triggers_on_key_down h ->
  event_type event = KEY_UP ->
  is_Some (_logically_pressed_keys w !! scan_code event) ->
  run_hook h event w = (inr true, w).
Proof.
  intros [callback Hbody] Hup Hin. unfold run_hook. rewrite Hbody.
  unfold single_handler, mbind, M_bind, gets.
  rewrite Hup, (bool_decide_eq_true_2 _ Hin). reflexivity.
Qed.

(** The comprehension over handlers that all trigger on key-down
    answers true throughout and leaves the world as it is. *)
Lemma collect_key_up_answers bound sel event w l i :
  sel w = l ->
  Forall triggers_on_key_down l ->
  event_type event = KEY_UP ->
  is_Some (_logically_pressed_keys w !! scan_code event) ->
  (length l - i < bound)%nat ->
  collect_hooks bound sel i event w
  = (inr (replicate (length l - i) true), w).
Proof.
  intros Hsel Hall Hup Hin. revert i.
  induction bound as [|bound IH]; intros i Hlt; [lia|].
  cbn [collect_hooks].
  rewrite (bind_returns _ _ w l w) by (unfold gets; by rewrite Hsel).
  destruct (l !! i) as [h|] eqn:Hi.
  - pose proof (lookup_lt_Some _ _ _ Hi) as Hlen.
    rewrite (bind_returns _ _ w true w).
    2:{ apply key_down_handler_passes_key_up; [|done|done].
        by apply (Forall_lookup_1 _ _ _ _ Hall Hi). }
    rewrite (bind_returns _ _ w _ w (IH (S i) ltac:(lia))).
    replace (length l - i)%nat with (S (length l - S i)) by lia.
    reflexivity.
  - apply lookup_ge_None in Hi.
    replace (length l - i)%nat with 0%nat by lia. reflexivity.
Qed.

Lemma all_true n : forallb id (replicate n true) = true.
Proof. induction n as [|n IH]; [done|exact IH]. Qed.

(** No row of origin ['hotkey'] presses a key or sets [accept]: the
    loop changes the states of the modifiers and nothing else. *)
Lemma update_modifiers_hotkey keys t acc w :
  exists states,
    update_modifiers keys t hotkey acc w
    = (inr acc, on_listener (set_modifier_states states) w).
Proof.
  revert acc w. induction keys as [|key keys IH]; intros acc w.
  - exists (modifier_states (_listener w)).
    destruct w as [l ? ? ? ? ? ? ? ? ?]. by destruct l.
  - cbn [update_modifiers].
    rewrite (bind_returns _ _ w _ w) by reflexivity.
    set (state := default free (modifier_states (_listener w) !! key)).
    assert (exists new_state,
              transition_table (state, t, hotkey)
              = (false, None, new_state)) as [new_state ->]
      by (destruct state, t; eexists; reflexivity).
    cbn [when default].
    unfold mbind at 1, M_bind at 1, mret, M_ret.
    unfold mbind at 1, M_bind at 1, modify.
    match goal with
    | |- context [update_modifiers keys t hotkey acc ?w1] =>
        destruct (IH acc w1) as [states ->]
    end.
    by exists states.
Qed.

(** Every row of origin ['other'] sets [accept]; at a key-up the loop
    ends with what the row of its last key says, which rejects only
    in the state ['suppressed'], and it leaves the table of logically
    pressed keys alone. *)
Lemma update_modifiers_other_key_up keys acc w :
  NoDup keys ->
  exists w',
    update_modifiers keys KEY_UP other acc w
    = (inr (match last keys with
            | Some _ => last_modifier_accepts keys (the_modifier_states w)
            | None => acc
            end), w') /\
    _logically_pressed_keys w' = _logically_pressed_keys w.
Proof.
  intros Hnodup. revert acc w.
  induction Hnodup as [|key keys Hnotin Hnodup IH]; intros acc w.
  - by exists w.
  - cbn [update_modifiers].
    rewrite (bind_returns _ _ w _ w) by reflexivity.
    set (state := default free (modifier_states (_listener w) !! key)).
    assert (exists should_press new_state,
              transition_table (state, KEY_UP, other)
              = (should_press,
                 Some (negb (bool_decide (state = suppressed))),
                 new_state)) as (should_press & new_state & ->)
      by (destruct state; eexists _, _; reflexivity).
    cbn [default].
    set (w1 := if should_press then pressed key w else w).
    assert (when should_press (press (KNum key)) w = (inr tt, w1)) as Hpress
      by (subst w1; destruct should_press; [apply press_num|done]).
    rewrite (bind_returns _ _ _ _ _ Hpress).
    unfold mbind at 1, M_bind at 1, modify.
    match goal with
    | |- context [update_modifiers keys KEY_UP other ?a ?w2] =>
        destruct (IH a w2) as (w' & -> & Hlogical)
    end.
    exists w'. split.
    + f_equal. unfold last_modifier_accepts. rewrite last_cons.
      destruct (last keys) as [key'|] eqn:Hlast; [|done].
      f_equal. f_equal. f_equal. f_equal.
      apply last_Some_elem_of in Hlast.
      assert (key <> key') by (intros ->; done).
      subst w1. unfold the_modifier_states.
      destruct should_press; cbn; by rewrite lookup_insert_ne.
    + rewrite Hlogical. subst w1. by destruct should_press.
Qed.

(** X31: a key-up for which the listener consults handlers of
    single-step hotkeys that trigger on key-down, and no others, is let
    through when its key is logically pressed: [direct_callback]
    returns true, takes the key out of the table of logically pressed
    keys and queues the event; no callback is invoked and nothing is
    handed to the operating system.  The handlers are consulted when
    the keys held form a combination of the hotkey and the key is no
    modifier of a registered hotkey. *)
Theorem consulted_key_up_is_let_through bound event w signature w3 codes :
  reaches_filter bound event w signature w3 ->
  modifier_scan_codes = inr codes ->
  event_type event = KEY_UP ->
  count (scan_code event) (filtered_modifiers (_listener w3)) = 0 ->
  entry signature (blocking_hotkeys (_listener w3)) <> [] ->
  Forall triggers_on_key_down
    (entry signature (blocking_hotkeys (_listener w3))) ->
  (length (entry signature (blocking_hotkeys (_listener w3))) < bound)%nat ->
  is_Some (_logically_pressed_keys w3 !! scan_code event) ->
  exists w',
    direct_callback bound event w = (inr true, w') /\
    _logically_pressed_keys w'
    = delete (scan_code event) (_logically_pressed_keys w3) /\
    calls w' = calls w3 /\
    os_events w' = os_events w3 /\
    the_queue w' = the_queue w3 ++ [event].
Proof.
  intros Hreach Hcodes Hup Hcount Hsome Hall Hbound Hin.
  rewrite (direct_callback_filter _ _ _ _ _ Hreach).
  set (handlers := entry signature (blocking_hotkeys (_listener w3))) in *.
  assert (blocking_hotkeys (_listener w3) <> ∅) as Htable.
  { intros Hempty. apply Hsome. subst handlers. unfold entry.
    by rewrite Hempty, lookup_empty. }
  set (w4 := on_listener (fun l =>
               set_blocking_hotkeys (touch signature (blocking_hotkeys l)) l)
               w3).
  assert (collect_hooks bound
            (fun w => entry signature (blocking_hotkeys (_listener w)))
            0 event w4
          = (inr (replicate (length handlers) true), w4)) as Hcollect.
  { rewrite <- (Nat.sub_0_r (length handlers)).
    apply collect_key_up_answers; try done.
    - subst w4. cbn. apply entry_touch.
    - lia. }
  destruct handlers as [|h rest]; [done|].
  cbn [length replicate] in Hcollect.
  assert (exists states,
            filter_hotkeys bound event signature w3
            = (inr true, on_listener (set_modifier_states states) w4))
    as [states Hfilter].
  { unfold filter_hotkeys.
    rewrite (bind_returns _ _ w3 _ w3) by reflexivity.
    rewrite (bool_decide_eq_false_2 _ Htable).
    rewrite (bind_returns _ _ w3 _ w3) by reflexivity.
    rewrite (bool_decide_eq_true_2 _ Hcount). cbn [negb].
    rewrite (bind_returns _ _ w3 _ w3) by reflexivity.
    rewrite (bind_returns _ _ w3 _ w3)
      by (unfold lift; by rewrite (is_modifier_returns _ _ Hcodes)).
    rewrite (bind_returns _ _ w3 tt w4) by reflexivity.
    rewrite (bind_returns _ _ _ _ _ Hcollect).
    rewrite (bind_returns _ _ w4 _ w4) by reflexivity.
    cbn [forallb id andb].
    rewrite all_true.
    apply update_modifiers_hotkey. }
  rewrite (bind_returns _ _ _ _ _ Hfilter).
  unfold when, update_logical. rewrite Hup.
  eexists. split; [reflexivity|]. subst w4. cbn. done.
Qed.

(** X32: a key-up of a key that is no modifier, for which no handler
    is registered under the keys held, is decided by the modifiers
    that are held: the loop over them in the order of their scan codes
    overwrites [accept] at every key, so the event is rejected exactly
    when the held modifier with the greatest scan code is in the state
    ['suppressed'].  A rejected key-up leaves the table of logically
    pressed keys as it is, so a key let through before stays logically
    pressed. *)
Theorem unanswered_key_up_follows_last_modifier
    bound event w signature w3 :
  reaches_filter bound event w signature w3 ->
  event_type event = KEY_UP ->
  blocking_hotkeys (_listener w3) <> ∅ ->
  count (scan_code event) (filtered_modifiers (_listener w3)) = 0 ->
  is_modifier (scan_code event) = inr false ->
  entry signature (blocking_hotkeys (_listener w3)) = [] ->
  (0 < bound)%nat ->
  let keys := merge_sort Z.le (elements (active_modifiers (_listener w3))) in
  let accept := last_modifier_accepts keys (the_modifier_states w3) in
  exists w',
    direct_callback bound event w = (inr accept, w') /\
    _logically_pressed_keys w'
    = (if accept
       then delete (scan_code event) (_logically_pressed_keys w3)
       else _logically_pressed_keys w3).
Proof.
  intros Hreach Hup Htable Hcount Hmod Hnone Hbound keys accept.
  rewrite (direct_callback_filter _ _ _ _ _ Hreach).
  set (w4 := on_listener (fun l =>
               set_blocking_hotkeys (touch signature (blocking_hotkeys l)) l)
               w3).
  assert (NoDup keys) as Hnodup.
  { subst keys. rewrite merge_sort_Permutation. apply NoDup_elements. }
  destruct (update_modifiers_other_key_up keys true w4 Hnodup)
    as (w5 & Hloop & Hlogical).
  assert (filter_hotkeys bound event signature w3 = (inr accept, w5))
    as Hfilter.
  { unfold filter_hotkeys.
    rewrite (bind_returns _ _ w3 _ w3) by reflexivity.
    rewrite (bool_decide_eq_false_2 _ Htable).
    rewrite (bind_returns _ _ w3 _ w3) by reflexivity.
    rewrite (bool_decide_eq_true_2 _ Hcount). cbn [negb].
    rewrite (bind_returns _ _ w3 _ w3) by reflexivity.
    rewrite (bind_returns _ _ w3 false w3)
      by (unfold lift; by rewrite Hmod).
    rewrite (bind_returns _ _ w3 tt w4) by reflexivity.
    rewrite (bind_returns _ _ w4 [] w4).
    2:{ destruct bound as [|bound]; [lia|]. cbn [collect_hooks].
        rewrite (bind_returns _ _ w4 [] w4); [done|].
        unfold gets. subst w4. cbn. by rewrite entry_touch, Hnone. }
    rewrite (bind_returns _ _ w4 _ w4) by reflexivity.
    rewrite Hup.
    match goal with
    | |- update_modifiers ?k _ _ _ _ = _ => change k with keys
    end.
    rewrite Hloop. f_equal.
    subst accept. unfold last_modifier_accepts.
    by destruct (last keys). }
  rewrite (bind_returns _ _ _ _ _ Hfilter).
  unfold when, update_logical. rewrite Hup.
  destruct accept; eexists; (split; [reflexivity|]); cbn; by rewrite Hlogical.
Qed.
End Release.

(** X31 at the key-up of [a] while control and shift are held, with
    [ctrl+shift+a] registered. *)
Lemma consulted_key_up_is_let_through_witness :
  exists w',
    direct_callback 8 Scenario.a_up Scenario.chord_a_down = (inr true, w') /\
    _logically_pressed_keys w'
    = delete 30 (_logically_pressed_keys
                   (Scenario.filter_world Scenario.a_up Scenario.chord_a_down)) /\
    calls w' = calls (Scenario.filter_world Scenario.a_up Scenario.chord_a_down) /\
    os_events w'
    = os_events (Scenario.filter_world Scenario.a_up Scenario.chord_a_down) /\
    the_queue w'
    = the_queue (Scenario.filter_world Scenario.a_up Scenario.chord_a_down)
      ++ [Scenario.a_up].
Proof.
  apply (consulted_key_up_is_let_through (H:=Demo.demo_platform) 8
           Scenario.a_up Scenario.chord_a_down [29; 30; 42]
           (Scenario.filter_world Scenario.a_up Scenario.chord_a_down)
           Scenario.demo_modifier_codes).
  - apply Claims.reaches_filter_computed; vm_compute; reflexivity.
  - vm_compute. reflexivity.
  - reflexivity.
  - vm_compute. reflexivity.
  - vm_compute. discriminate.
  - change (Forall triggers_on_key_down
              [{| hook_id := HClosure 0;
                  hook_body := SingleStep KEY_DOWN Scenario.accepting_callback |}]).
    apply Forall_cons_2; [by eexists|apply Forall_nil_2].
  - vm_compute. lia.
  - exists Scenario.a_down. vm_compute. reflexivity.
Defined.

(** X32 at the key-up of [a] after shift has gone up, with
    [ctrl+shift+a] registered and the control key held. *)
Lemma unanswered_key_up_follows_last_modifier_witness :
  exists w',
    direct_callback 8 Scenario.a_up Scenario.chord_shift_up = (inr false, w') /\
    _logically_pressed_keys w'
    = _logically_pressed_keys
        (Scenario.filter_world Scenario.a_up Scenario.chord_shift_up).
Proof.
  apply (unanswered_key_up_follows_last_modifier (H:=Demo.demo_platform) 8
           Scenario.a_up Scenario.chord_shift_up [29; 30]
           (Scenario.filter_world Scenario.a_up Scenario.chord_shift_up)).
  - apply Claims.reaches_filter_computed; vm_compute; reflexivity.
  - reflexivity.
  - apply (bool_decide_unpack _). vm_compute. exact I.
  - vm_compute. reflexivity.
  - vm_compute. reflexivity.
  - vm_compute. reflexivity.
  - lia.
Defined.

(** ** Registering and removing *)

Ltac world_simpl :=
  unfold the_blocking_hooks;
  cbn [fst snd _hooks _hotkeys _listener next_id blocking_hooks
       set__hooks set__hotkeys set_next_id on_listener set__listener
       set_blocking_hooks].

Section Registration.
Context `{Platform}.

Lemma entry_touch_keys (c c' : Z) (m : gmap Z (list Hook)) :
  entry c (touch c' m) = entry c m.
Proof.
  unfold touch. destruct (m !! c') eqn:Hc'; [done|].
  unfold entry. rewrite lookup_insert. case_decide as Heq; [|done].
  subst. by rewrite Hc'.
Qed.

Lemma same_hook_refl h : same_hook h h = true.
Proof. unfold same_hook. by apply bool_decide_eq_true_2. Qed.

Lemma list_remove_absent h base l :
  absent h base -> list_remove h (base ++ h :: l) = Some (base ++ l).
Proof.
  intros Hbase. induction Hbase as [|x base Hx Hbase IH]; cbn.
  - by rewrite same_hook_refl.
  - by rewrite Hx, IH.
Qed.

Lemma weight_nil codes k : weight codes k [] = 0.
Proof. unfold weight. by destruct (bool_decide _). Qed.

Lemma weight_cons codes k c l :
  weight codes k (c :: l)
  = (if bool_decide (k ∈ codes) && bool_decide (c = k) then 1 else 0)
    + weight codes k l.
Proof.
  unfold weight. destruct (bool_decide (k ∈ codes)); [|done].
  cbn [andb]. rewrite filter_cons.
  destruct (decide (c = k)) as [->|Hne].
  - rewrite bool_decide_eq_true_2 by done. cbn [length]. lia.
  - rewrite bool_decide_eq_false_2 by done. lia.
Qed.

Lemma weight_app codes k l1 l2 :
  weight codes k (l1 ++ l2) = weight codes k l1 + weight codes k l2.
Proof.
  induction l1 as [|c l1 IH]; [by rewrite weight_nil|].
  cbn [app]. rewrite !weight_cons, IH. lia.
Qed.

Lemma the_count_insert k c d w :
  the_count k
    (on_listener (fun l =>
       set_filtered_modifiers
         (<[c := count c (filtered_modifiers l) + d]>
            (filtered_modifiers l)) l) w)
  = if bool_decide (c = k) then the_count c w + d else the_count k w.
Proof.
  unfold the_count, count. cbn. rewrite lookup_insert.
  destruct (decide (c = k)) as [->|Hne].
  - by rewrite bool_decide_eq_true_2.
  - by rewrite bool_decide_eq_false_2.
Qed.

(** The loop over the scan codes of one combination. *)
Lemma count_loop_counts codes d scan_codes w :
  modifier_scan_codes = inr codes ->
  exists w',
    for_each scan_codes (fun scan_code =>
      m ← lift (is_modifier scan_code); when m (add_count d scan_code)) w
    = (inr tt, w') /\
    forall k, the_count k w' = the_count k w + d * weight codes k scan_codes.
Proof.
  intros Hc. revert w. induction scan_codes as [|c l IH]; intros w.
  - exists w. split; [done|]. intros k. rewrite weight_nil. lia.
  - cbn [for_each].
    set (w1 := if bool_decide (c ∈ codes)
               then on_listener (fun l =>
                      set_filtered_modifiers
                        (<[c := count c (filtered_modifiers l) + d]>
                           (filtered_modifiers l)) l) w
               else w).
    assert ((m ← lift (is_modifier c); when m (add_count d c)) w
            = (inr tt, w1)) as H1.
    { unfold mbind, M_bind, lift. rewrite (is_modifier_returns _ _ Hc).
      unfold w1. by destruct (bool_decide (c ∈ codes)). }
    destruct (IH w1) as (w' & Hrun & Hcount).
    exists w'. rewrite (bind_returns _ _ _ _ _ H1). split; [done|].
    intros k. rewrite Hcount, weight_cons. unfold w1.
    destruct (bool_decide (c ∈ codes)) eqn:Hin.
    + rewrite the_count_insert.
      destruct (decide (c = k)) as [->|Hne].
      * rewrite bool_decide_eq_true_2 by done. rewrite Hin. cbn [andb].
        unfold the_count. lia.
      * rewrite !(bool_decide_eq_false_2 (c = k)) by done.
        rewrite andb_false_r. lia.
    + destruct (decide (c = k)) as [->|Hne].
      * rewrite Hin. cbn [andb]. lia.
      * rewrite (bool_decide_eq_false_2 (c = k)) by done.
        rewrite andb_false_r. lia.
Qed.

Lemma count_loop_frame {B} (proj : World -> B) d scan_codes :
  (forall f w, proj (on_listener
                       (fun l => set_filtered_modifiers (f l) l) w)
               = proj w) ->
  preserves proj
    (for_each scan_codes (fun scan_code =>
       m ← lift (is_modifier scan_code); when m (add_count d scan_code))).
Proof.
  intros Hproj. apply preserves_for_each. intros c.
  apply preserves_bind; [apply preserves_lift|]. intros m.
  apply preserves_when. apply preserves_modify. intros w.
  apply (Hproj (fun l => <[c := count c (filtered_modifiers l) + d]>
                           (filtered_modifiers l))).
Qed.

Lemma the_count_container suppress f k w :
  the_count k (on_listener (fun l => set_container suppress (f l) l) w)
  = the_count k w.
Proof. by destruct suppress. Qed.

(** [_add_hotkey_step] counts every modifier of every combination. *)
Lemma add_hotkey_step_counts codes h combinations suppress w r w' :
  modifier_scan_codes = inr codes ->
  _add_hotkey_step h combinations suppress w = (inr r, w') ->
  forall k,
    the_count k w' = the_count k w + weight codes k (concat combinations).
Proof.
  intros Hc. unfold _add_hotkey_step. intros Hrun.
  apply bind_inv in Hrun as ([] & w1 & Hloop & [= _ <-]).
  revert w Hloop. induction combinations as [|c cs IH]; intros w Hloop k.
  - injection Hloop as <-. cbn. rewrite weight_nil. lia.
  - cbn [for_each] in Hloop.
    apply bind_inv in Hloop as ([] & wa & Hbody & Hrest).
    apply bind_inv in Hbody as ([] & wb & Hcount & [= <-]).
    destruct (count_loop_counts codes 1 c w Hc) as (wb' & Hcount' & Hk).
    rewrite Hcount' in Hcount. injection Hcount as ->.
    rewrite (IH _ Hrest k), the_count_container, Hk.
    cbn [concat]. rewrite weight_app. lia.
Qed.

(** The closure [remove] takes the counts back and takes its handler
    out of every list to which the registration appended it. *)
Lemma step_remover_undoes codes h suppress combinations
    (base : list Z -> list Hook) w :
  modifier_scan_codes = inr codes ->
  (forall c, c ∈ combinations -> absent h (base c)) ->
  (forall c,
     entry c (the_container suppress w)
     = base c ++ replicate (occurrences c combinations) h) ->
  exists w',
    run_step_remover
      {| sr_handler := h; sr_combinations := combinations;
         sr_suppress := suppress |} w = (inr tt, w') /\
    (forall c, entry c (the_container suppress w') = base c) /\
    (forall k,
       the_count k w'
       = the_count k w - weight codes k (concat combinations)) /\
    _hotkeys w' = _hotkeys w /\
    the_queue w' = the_queue w /\
    os_events w' = os_events w.
Proof.
  intros Hc. unfold run_step_remover.
  cbn [sr_handler sr_combinations sr_suppress].
  revert w. induction combinations as [|c0 cs IH]; intros w Habsent Hentry.
  - exists w. split; [done|]. split.
    + intros c. rewrite Hentry. cbn. apply app_nil_r.
    + split; [|done]. intros k. cbn. rewrite weight_nil. lia.
  - destruct (count_loop_counts codes (-1) c0 w Hc) as (w1 & Hcount & Hk).
    assert (the_container suppress w1 = the_container suppress w) as Hsame
      by exact (preserves_after _ _ _ _ _
                  (count_loop_container suppress (-1) c0) Hcount).
    assert (_hotkeys w1 = _hotkeys w /\ the_queue w1 = the_queue w /\
            os_events w1 = os_events w) as (Hhk & Hq & Hos).
    { repeat split.
      - apply (preserves_after _ _ _ _ _
                 (count_loop_frame _hotkeys (-1) c0 (fun _ _ => eq_refl))
                 Hcount).
      - apply (preserves_after _ _ _ _ _
                 (count_loop_frame the_queue (-1) c0 (fun _ _ => eq_refl))
                 Hcount).
      - apply (preserves_after _ _ _ _ _
                 (count_loop_frame os_events (-1) c0 (fun _ _ => eq_refl))
                 Hcount). }
    set (n := occurrences c0 cs).
    assert (occurrences c0 (c0 :: cs) = S n) as Hocc.
    { unfold occurrences, n. rewrite filter_cons.
      by destruct (decide (c0 = c0)). }
    set (w2 := on_listener (fun l =>
                 set_container suppress
                   (<[c0 := base c0 ++ replicate n h]>
                      (touch c0 (container suppress l))) l) w1).
    assert ((for_each c0 (fun scan_code =>
               m ← lift (is_modifier scan_code);
               when m (add_count (-1) scan_code)) ;;
             modify (on_listener (fun l =>
               set_container suppress
                 (touch c0 (container suppress l)) l)) ;;
             l ← gets (fun w =>
                   entry c0 (container suppress (_listener w)));
             match list_remove h l with
             | None => raise ValueError
             | Some l' =>
                 modify (on_listener (fun l =>
                   set_container suppress
                     (<[c0 := l']> (container suppress l)) l))
             end) w = (inr tt, w2)) as Hbody.
    { rewrite (bind_returns _ _ _ _ _ Hcount). run_modify. run_gets.
      cbn [on_listener set__listener _listener].
      rewrite container_set_container, entry_touch.
      change (container suppress (_listener w1))
        with (the_container suppress w1).
      rewrite Hsame, Hentry, Hocc. cbn [replicate].
      rewrite list_remove_absent by (apply Habsent; by left).
      unfold modify, w2. by destruct suppress. }
    destruct (IH w2) as (w' & Hrun & Hbase & Hcounts & Hhk' & Hq' & Hos').
    { intros c Hin. apply Habsent. by right. }
    { intros c. unfold w2, the_container.
      cbn [on_listener set__listener _listener].
      rewrite container_set_container, entry_insert.
      destruct (decide (c0 = c)) as [<-|Hne]; [done|].
      rewrite entry_touch.
      change (container suppress (_listener w1))
        with (the_container suppress w1).
      rewrite Hsame, Hentry. unfold occurrences. rewrite filter_cons.
      by destruct (decide (c0 = c)). }
    exists w'. cbn [for_each]. rewrite (bind_returns _ _ _ _ _ Hbody).
    split; [done|]. split; [done|]. split; [|split; [|split]].
    + intros k. rewrite Hcounts. unfold w2.
      rewrite the_count_container, Hk. cbn [concat].
      rewrite weight_app. lia.
    + rewrite Hhk'. unfold w2. by destruct suppress.
    + rewrite Hq'. unfold w2. by destruct suppress.
    + rewrite Hos'. unfold w2. by destruct suppress.
Qed.

(** *** [add_hotkey] and [remove_hotkey] *)

Lemma register_remover_returns hotkey spec self callback mk w :
  handle_of_key hotkey = Some spec ->
  register_remover hotkey self callback mk w
  = (inr (mk spec),
     set__hotkeys
       (<[callback := mk spec]>
          (<[self := mk spec]> (<[spec := mk spec]> (_hotkeys w)))) w).
Proof. intros Hspec. unfold register_remover. by rewrite Hspec. Qed.

Lemma lookup_registered {V} (m : gmap Handle V) spec self callback v k :
  k ∈ [spec; self; callback] ->
  <[callback := v]> (<[self := v]> (<[spec := v]> m)) !! k = Some v.
Proof.
  rewrite !elem_of_cons, elem_of_nil. intros Hk.
  rewrite !lookup_insert. repeat case_decide; try done.
  destruct Hk as [->|[->|[->|[]]]]; done.
Qed.

(** X19: a single-step hotkey that [add_hotkey] registered can be
    removed through the hotkey, through the callback and through the
    closure that [add_hotkey] returned; each way the lists of the
    container and the counts of [filtered_modifiers] are what they
    were before the registration, and the three entries of [_hotkeys]
    are gone. *)
Theorem hotkey_registration_round_trip hotkey callback suppress timeout
    trigger_on_release step codes spec w :
  parse_hotkey_combinations hotkey = inr [step] ->
  handle_of_key hotkey = Some spec ->
  modifier_scan_codes = inr codes ->
  (forall c x, c ∈ step -> x ∈ entry c (the_container suppress w) ->
               hook_id x <> HClosure (next_id w)) ->
  exists remove_ w1,
    add_hotkey hotkey callback suppress timeout trigger_on_release w
    = (inr remove_, w1) /\
    hotkey_remover_keys remove_
    = [spec; HClosure (S (next_id w)); HUser (cb_id callback)] /\
    forall key, key ∈ hotkey_remover_keys remove_ ->
      exists w2,
        remove_hotkey key w1 = (inr tt, w2) /\
        (forall c, entry c (the_container suppress w2)
                   = entry c (the_container suppress w)) /\
        (forall k, the_count k w2 = the_count k w) /\
        (forall k, k ∈ hotkey_remover_keys remove_ ->
                   _hotkeys w2 !! k = None).
Proof.
  intros Hparse Hspec Hc Hfresh. unfold add_hotkey.
  rewrite (bind_returns _ _ w [step] w) by (unfold lift; by rewrite Hparse).
  rewrite (bind_returns _ _ _ _ _ (fresh_returns w)).
  set (handler := {| hook_id := HClosure (next_id w);
                     hook_body := SingleStep
                       (if trigger_on_release then KEY_UP else KEY_DOWN)
                       callback |}).
  set (wa := set_next_id (S (next_id w)) w).
  destruct (add_hotkey_step_returns codes handler step suppress wa Hc)
    as (wb & Hadd & Hadded).
  rewrite (bind_returns _ _ _ _ _ Hadd).
  assert (next_id wb = S (next_id w)) as Hnext.
  { assert (preserves next_id (_add_hotkey_step handler step suppress))
      as Hp by frame.
    by rewrite (preserves_after _ _ _ _ _ Hp Hadd). }
  assert (_hotkeys wb = _hotkeys w) as Hsame.
  { assert (preserves _hotkeys (_add_hotkey_step handler step suppress))
      as Hp by frame.
    by rewrite (preserves_after _ _ _ _ _ Hp Hadd). }
  rewrite (bind_returns _ _ _ _ _ (fresh_returns wb)). rewrite Hnext.
  set (self := HClosure (S (next_id w))).
  set (cb := HUser (cb_id callback)).
  set (rs := {| sr_handler := handler; sr_combinations := step;
                sr_suppress := suppress |}).
  set (remove_ := RemoveSingle self rs spec cb).
  rewrite (register_remover_returns hotkey spec self cb
             (fun spec => RemoveSingle self rs spec cb) _ Hspec).
  set (w1 := set__hotkeys _ _).
  exists remove_, w1. split; [done|]. split; [done|].
  intros key Hkey. cbn [hotkey_remover_keys remove_] in Hkey.
  assert (_hotkeys w1 !! key = Some remove_) as Hlook
    by (unfold w1; cbn [_hotkeys set__hotkeys];
        by apply lookup_registered).
  assert (absent_here : forall c, c ∈ step ->
            absent handler (entry c (the_container suppress w))).
  { intros c Hin. apply Forall_forall. intros x Hx.
    unfold same_hook. apply bool_decide_eq_false_2. cbn [hook_id handler].
    intros Heq. by apply (Hfresh c x Hin Hx). }
  destruct (step_remover_undoes codes handler suppress step
              (fun c => entry c (the_container suppress w)) w1 Hc
              absent_here)
    as (w2 & Hrun & Hbase & Hcounts & Hhk & _).
  { intros c. exact (Hadded c). }
  exists (set__hotkeys
            (delete cb (delete self (delete spec (_hotkeys w2)))) w2).
  split; [|split; [|split]].
  - unfold remove_hotkey. run_gets. rewrite Hlook.
    cbn [run_hotkey_remover remove_]. fold rs.
    by rewrite (bind_returns _ _ _ _ _ Hrun).
  - intros c. exact (Hbase c).
  - intros k.
    change (the_count k (set__hotkeys
              (delete cb (delete self (delete spec (_hotkeys w2)))) w2))
      with (the_count k w2).
    rewrite Hcounts.
    change (the_count k w1) with (the_count k wb).
    rewrite (add_hotkey_step_counts _ _ _ _ _ _ _ Hc Hadd k).
    change (the_count k wa) with (the_count k w).
    change (concat [step]) with (step ++ []) in *.
    cbn [concat]. lia.
  - intros k Hk. cbn [_hotkeys set__hotkeys].
    apply (lookup_deleted (_hotkeys w2) [cb; self; spec]).
    cbn [hotkey_remover_keys remove_] in Hk.
    rewrite !elem_of_cons, elem_of_nil in *. tauto.
Qed.

(** *** [hook] and [unhook] *)

Lemma hook_blocking_returns callback w :
  hook callback true w
  = (inr (RemoveHook (HClosure (next_id w)) callback true),
     set__hooks
       (<[HClosure (next_id w) :=
            RemoveHook (HClosure (next_id w)) callback true]>
          (<[hook_id callback :=
               RemoveHook (HClosure (next_id w)) callback true]>
             (_hooks w)))
       (set_next_id (S (next_id w))
          (on_listener (fun l =>
             set_blocking_hooks (blocking_hooks l ++ [callback]) l) w))).
Proof. reflexivity. Qed.

Lemma unhook_blocking_returns key self callback l' w :
  _hooks w !! key = Some (RemoveHook self callback true) ->
  list_remove callback (the_blocking_hooks w) = Some l' ->
  unhook key w
  = (inr tt,
     on_listener (set_blocking_hooks l')
       (set__hooks (delete self (delete (hook_id callback) (_hooks w))) w)).
Proof.
  intros Hkey Hl. unfold unhook. run_gets. rewrite Hkey.
  cbn [run_hook_remover]. unfold pop_hook_entry. do 2 run_modify. run_gets.
  change (blocking_hooks (_listener _)) with (the_blocking_hooks w).
  by rewrite Hl.
Qed.

Lemma list_remove_last callback l :
  absent callback l -> list_remove callback (l ++ [callback]) = Some l.
Proof.
  intros Hl. rewrite (list_remove_absent callback l [] Hl).
  by rewrite app_nil_r.
Qed.

(** X20: a blocking hook can be removed through the callback and
    through the closure that [hook] returned; either way the list of
    blocking hooks is what it was before, provided the callback was
    not in it, and both entries of [_hooks] are gone. *)
Theorem hook_round_trip callback w :
  absent callback (the_blocking_hooks w) ->
  exists remove_ w1,
    hook callback true w = (inr remove_, w1) /\
    the_blocking_hooks w1 = the_blocking_hooks w ++ [callback] /\
    hook_remover_keys remove_ = [hook_id callback; HClosure (next_id w)] /\
    forall key, key ∈ hook_remover_keys remove_ ->
      exists w2,
        unhook key w1 = (inr tt, w2) /\
        the_blocking_hooks w2 = the_blocking_hooks w /\
        (forall k, k ∈ hook_remover_keys remove_ -> _hooks w2 !! k = None).
Proof.
  intros Habsent. rewrite hook_blocking_returns.
  eexists _, _. split; [reflexivity|]. split; [reflexivity|].
  split; [reflexivity|]. intros key Hkey.
  cbn [hook_remover_keys] in Hkey.
  eexists. split; [|split].
  - apply (unhook_blocking_returns key (HClosure (next_id w)) callback
             (the_blocking_hooks w)).
    + cbn [_hooks set__hooks]. rewrite !lookup_insert.
      rewrite !elem_of_cons, elem_of_nil in Hkey.
      repeat case_decide; try done. destruct Hkey as [->|[->|[]]]; done.
    + by apply list_remove_last.
  - reflexivity.
  - intros k Hk. cbn [hook_remover_keys] in Hk.
    cbn [_hooks set__hooks on_listener set__listener].
    apply (lookup_deleted _ [HClosure (next_id w); hook_id callback]).
    rewrite !elem_of_cons, elem_of_nil in *. tauto.
Qed.

(** X21: hooking the same callable twice overwrites its entry of
    [_hooks].  [unhook(callback)] then takes out one of the two copies;
    the other stays in the list of blocking hooks, a second
    [unhook(callback)] raises [KeyError], and only the closure that
    the first call of [hook] returned still removes it. *)
Theorem second_hook_hides_the_first callback w :
  (forall n, hook_id callback <> HClosure n) ->
  absent callback (the_blocking_hooks w) ->
  let w2 := after (hook callback true) (after (hook callback true) w) in
  exists w3 w4,
    unhook (hook_id callback) w2 = (inr tt, w3) /\
    the_blocking_hooks w3 = the_blocking_hooks w ++ [callback] /\
    unhook (hook_id callback) w3 = (inl KeyError, w3) /\
    unhook (HClosure (next_id w)) w3 = (inr tt, w4) /\
    the_blocking_hooks w4 = the_blocking_hooks w.
Proof.
  intros Huser Habsent w2. subst w2. unfold after.
  unfold the_blocking_hooks in *.
  rewrite !hook_blocking_returns.
  cbn [snd next_id set__hooks set_next_id on_listener set__listener].
  set (c1 := HClosure (next_id w)).
  set (c2 := HClosure (S (next_id w))).
  assert (c1 <> c2) as Hne by (unfold c1, c2; intros [= Heq]; lia).
  assert (hook_id callback <> c1) as Hu1 by apply Huser.
  assert (hook_id callback <> c2) as Hu2 by apply Huser.
  eexists _, _. split; [|split; [|split; [|split]]].
  - apply (unhook_blocking_returns _ c2 callback
             (blocking_hooks (_listener w) ++ [callback])).
    + world_simpl. rewrite lookup_insert_ne by done.
      by rewrite lookup_insert_eq.
    + world_simpl. rewrite <- app_assoc. cbn [app].
      by rewrite (list_remove_absent callback _ [callback] Habsent).
  - reflexivity.
  - unfold unhook. run_gets. world_simpl.
    rewrite lookup_delete_ne by done. by rewrite lookup_delete_eq.
  - apply (unhook_blocking_returns _ c1 callback
             (blocking_hooks (_listener w))).
    + world_simpl.
      rewrite lookup_delete_ne by done.
      rewrite lookup_delete_ne by done.
      rewrite lookup_insert_ne by done.
      rewrite lookup_insert_ne by done.
      by rewrite lookup_insert_eq.
    + world_simpl. by apply list_remove_last.
  - reflexivity.
Qed.
(** *** Clearing *)

(** X22: [unhook_all_hotkeys] empties the two containers and leaves
    [_hotkeys] as it is: the entry of a hotkey registered before is
    still found, and [remove_hotkey] on it raises [ValueError],
    because the handler it wants to take out is gone. *)
Theorem clearing_hotkeys_breaks_removal key self remove_step spec callback
    c cs codes w :
  _hotkeys w !! key = Some (RemoveSingle self remove_step spec callback) ->
  sr_combinations remove_step = c :: cs ->
  modifier_scan_codes = inr codes ->
  let w0 := after unhook_all_hotkeys w in
  exists w',
    remove_hotkey key w0 = (inl ValueError, w') /\
    _hotkeys w' = _hotkeys w.
Proof.
  intros Hkey Hcombos Hc w0. subst w0. unfold after, unhook_all_hotkeys.
  do 1 run_modify. cbn [snd modify]. 
  set (w0 := on_listener (set_nonblocking_hotkeys ∅)
               (on_listener (set_blocking_hotkeys ∅) w)).
  unfold remove_hotkey. run_gets.
  change (_hotkeys w0) with (_hotkeys w). rewrite Hkey.
  cbn [run_hotkey_remover]. unfold run_step_remover. rewrite Hcombos.
  cbn [for_each].
  destruct (count_loop_counts codes (-1) c w0 Hc) as (w1 & Hcount & _).
  assert (the_container (sr_suppress remove_step) w1
          = the_container (sr_suppress remove_step) w0) as Hsame
    by exact (preserves_after _ _ _ _ _
                (count_loop_container (sr_suppress remove_step) (-1) c)
                Hcount).
  assert (_hotkeys w1 = _hotkeys w) as Hhk.
  { apply (preserves_after _ _ _ _ _
             (count_loop_frame _hotkeys (-1) c (fun _ _ => eq_refl))
             Hcount). }
  eexists. split.
  - apply bind_raises. apply bind_raises.
    rewrite (bind_returns _ _ _ _ _ Hcount). run_modify. run_gets.
    cbn [on_listener set__listener _listener].
    rewrite container_set_container, entry_touch.
    change (container (sr_suppress remove_step) (_listener w1))
      with (the_container (sr_suppress remove_step) w1).
    rewrite Hsame.
    assert (entry c (the_container (sr_suppress remove_step) w0) = [])
      as -> by (unfold w0; by destruct (sr_suppress remove_step)).
    reflexivity.
  - cbn [on_listener set__listener _hotkeys]. exact Hhk.
Qed.

(** X23: after [unhook_all] the direct callback lets every event
    through: it returns true, puts the event on the delivery queue,
    invokes no callback and emits nothing. *)
Theorem unhook_all_lets_everything_through bound event codes w :
  is_replaying (_listener w) = false ->
  modifier_scan_codes = inr codes ->
  exists w',
    direct_callback (S bound) event (after unhook_all w) = (inr true, w') /\
    the_queue w' = the_queue w ++ [event] /\
    calls w' = calls w /\
    os_events w' = os_events w /\
    _logically_pressed_keys w'
    = match event_type event with
      | KEY_DOWN => <[scan_code event := event]> (_logically_pressed_keys w)
      | KEY_UP => delete (scan_code event) (_logically_pressed_keys w)
      end.
Proof.
  intros Hrep Hc. unfold after, unhook_all, unhook_all_hotkeys.
  do 5 run_modify. cbn [snd modify].
  set (w0 := on_listener (set_nonblocking_hotkeys ∅) _).
  unfold direct_callback. run_gets.
  change (is_replaying (_listener w0)) with (is_replaying (_listener w)).
  rewrite Hrep. cbv iota.
  rewrite (bind_returns _ _ w0 true w0) by reflexivity.
  cbv beta iota delta [negb].
  destruct (update_pressed_returns codes event w0 Hc)
    as (signature & w1 & H1).
  rewrite (bind_returns _ _ _ _ _ H1).
  assert (forall B (proj : World -> B),
            (forall f w, proj (on_listener
                                 (fun l => set_active_modifiers (f l) l) w)
                         = proj w) ->
            (forall v w, proj (set__pressed_events v w) = proj w) ->
            proj w1 = proj w0) as Hframe.
  { intros B proj Hactive Hpressed.
    assert (preserves proj (update_pressed event)) as Hp.
    { unfold update_pressed.
      repeat first
        [ apply preserves_ret | apply preserves_gets | apply preserves_lift
        | apply preserves_when
        | apply preserves_bind; [|intros]
        | match goal with
          | |- preserves _ (if ?b then _ else _) => destruct b
          end
        | (apply preserves_modify; intros w2;
           first [ apply (Hactive (fun l => active_modifiers l ∪ _))
                 | apply (Hactive (fun l => active_modifiers l ∖ _))
                 | apply Hpressed ]) ]. }
    exact (preserves_after _ _ _ _ _ Hp H1). }
  pose proof (Hframe _ (fun w => blocking_keys (_listener w))
                (fun _ _ => eq_refl) (fun _ _ => eq_refl)) as Hkeys.
  pose proof (Hframe _ (fun w => blocking_hotkeys (_listener w))
                (fun _ _ => eq_refl) (fun _ _ => eq_refl)) as Hhotkeys.
  pose proof (Hframe _ the_queue (fun _ _ => eq_refl) (fun _ _ => eq_refl))
    as Hqueue.
  pose proof (Hframe _ calls (fun _ _ => eq_refl) (fun _ _ => eq_refl))
    as Hcalls.
  pose proof (Hframe _ os_events (fun _ _ => eq_refl) (fun _ _ => eq_refl))
    as Hos.
  pose proof (Hframe _ _logically_pressed_keys (fun _ _ => eq_refl)
                (fun _ _ => eq_refl)) as Hlogical.
  cbv beta in *.
  set (w2 := on_listener (fun l =>
               set_blocking_keys
                 (touch (scan_code event) (blocking_keys l)) l) w1).
  assert (blocking_keys_pass (S bound) event w1 = (inr true, w2)) as H2.
  { unfold blocking_keys_pass. run_modify. cbn [all_hooks]. run_gets.
    fold w2.
    assert (entry (scan_code event) (blocking_keys (_listener w2)) = [])
      as ->; [|done].
    unfold w2. cbn [on_listener set__listener _listener blocking_keys
      set_blocking_keys].
    rewrite Hkeys. unfold entry, touch. cbn.
    rewrite lookup_empty. by rewrite lookup_insert_eq. }
  rewrite (bind_returns _ _ _ _ _ H2). cbv beta iota delta [negb].
  assert (filter_hotkeys (S bound) event signature w2 = (inr true, w2))
    as H3.
  { unfold filter_hotkeys. run_gets.
    change (blocking_hotkeys (_listener w2))
      with (blocking_hotkeys (_listener w1)).
    rewrite Hhotkeys. cbn [w0 on_listener set__listener _listener
      blocking_hotkeys set_nonblocking_hotkeys set_blocking_hotkeys].
    by rewrite bool_decide_eq_true_2. }
  rewrite (bind_returns _ _ _ _ _ H3). cbn [when].
  unfold update_logical, queue_put.
  destruct (event_type event); do 2 run_modify;
    (eexists; split; [reflexivity|]); cbn;
    change (queue (_listener w1)) with (the_queue w1);
    rewrite Hqueue, Hcalls, Hos, Hlogical; done.
Qed.

(** *** [block_key] *)

Lemma update_pressed_frame {B} (proj : World -> B) event :
  (forall f w, proj (on_listener
                       (fun l => set_active_modifiers (f l) l) w)
               = proj w) ->
  (forall v w, proj (set__pressed_events v w) = proj w) ->
  preserves proj (update_pressed event).
Proof.
  intros Hactive Hpressed. unfold update_pressed.
  repeat first
    [ apply preserves_ret | apply preserves_gets | apply preserves_lift
    | apply preserves_when
    | apply preserves_bind; [|intros]
    | match goal with
      | |- preserves _ (if ?b then _ else _) => destruct b
      end
    | (apply preserves_modify; intros w2;
       first [ apply (Hactive (fun l => active_modifiers l ∪ _))
             | apply (Hactive (fun l => active_modifiers l ∖ _))
             | apply Hpressed ]) ].
Qed.

Lemma hook_key_loop callback scan_codes w :
  exists keys,
    for_each scan_codes (fun scan_code =>
      modify (on_listener (fun l =>
        set_store true
          (<[scan_code := entry scan_code (store true l) ++ [callback]]>
             (store true l)) l))) w
    = (inr tt, on_listener (set_blocking_keys keys) w) /\
    forall c,
      entry c keys
      = entry c (blocking_keys (_listener w))
        ++ replicate (length (filter (fun c' => c' = c) scan_codes))
             callback.
Proof.
  revert w. induction scan_codes as [|sc l IH]; intros w.
  - exists (blocking_keys (_listener w)). split.
    + cbn [for_each]. by destruct w as [[]].
    + intros c. cbn. by rewrite app_nil_r.
  - set (w1 := on_listener (fun l =>
                 set_store true
                   (<[sc := entry sc (store true l) ++ [callback]]>
                      (store true l)) l) w).
    destruct (IH w1) as (keys & Hrun & Hkeys).
    exists keys. split.
    + cbn [for_each]. run_modify. fold w1. by rewrite Hrun.
    + intros c. rewrite Hkeys. unfold w1.
      cbn [on_listener set__listener _listener set_store store
           blocking_keys set_blocking_keys].
      unfold entry at 1. rewrite lookup_insert. rewrite filter_cons.
      destruct (decide (sc = c)) as [->|Hne].
      * cbn [default from_option id length replicate].
        rewrite <- app_assoc. done.
      * done.
Qed.

(** X24: after [block_key] on a key that had no blocking key hook,
    in a listener without blocking hooks, the direct callback rejects
    every event of a scan code of the key: it returns false and the
    event reaches neither the delivery queue nor the table of
    logically pressed keys, while the table of physically pressed keys
    takes it up. *)
Theorem blocked_key_is_rejected key scan_codes k codes bound event w :
  key_to_scan_codes key true = inr scan_codes ->
  handle_of_key key = Some k ->
  modifier_scan_codes = inr codes ->
  is_replaying (_listener w) = false ->
  the_blocking_hooks w = [] ->
  scan_code event ∈ scan_codes ->
  entry (scan_code event) (blocking_keys (_listener w)) = [] ->
  exists remove_ w1 w2,
    block_key key w = (inr remove_, w1) /\
    direct_callback (S bound) event w1 = (inr false, w2) /\
    the_queue w2 = the_queue w /\
    _logically_pressed_keys w2 = _logically_pressed_keys w /\
    is_pressed (KNum (scan_code event)) w2
    = (inr (bool_decide (event_type event = KEY_DOWN)), w2).
Proof.
  intros Hcodes Hk Hc Hrep Hhooks Hin Hentry. unfold block_key.
  rewrite (bind_returns _ _ _ _ _ (fresh_returns w)).
  set (veto := {| hook_id := HClosure (next_id w);
                  hook_body := UserHook (fun _ => false) |}).
  set (wa := set_next_id (S (next_id w)) w).
  unfold hook_key.
  rewrite (bind_returns _ _ wa scan_codes wa)
    by (unfold lift; by rewrite Hcodes).
  destruct (hook_key_loop veto scan_codes wa) as (keys & Hloop & Hkeys).
  rewrite (bind_returns _ _ _ _ _ Hloop).
  rewrite (bind_returns _ _ _ _ _ (fresh_returns _)).
  rewrite Hk. unfold set_hook_entry. do 3 run_modify.
  set (w1 := set__hooks _ _).
  assert (exists rest,
            entry (scan_code event) keys = veto :: rest) as [rest Hveto].
  { rewrite Hkeys. change (blocking_keys (_listener wa))
      with (blocking_keys (_listener w)). rewrite Hentry.
    destruct (filter (fun c' => c' = scan_code event) scan_codes)
      as [|c0 l0] eqn:Hf.
    - exfalso.
      assert (scan_code event ∈ filter (fun c' => c' = scan_code event)
                                 scan_codes) as Hmem
        by (apply list_elem_of_filter; split; [done|exact Hin]).
      rewrite Hf in Hmem. by apply elem_of_nil in Hmem.
    - cbn. by eexists. }
  cut (exists w2,
         direct_callback (S bound) event w1 = (inr false, w2) /\
         the_queue w2 = the_queue w /\
         _logically_pressed_keys w2 = _logically_pressed_keys w /\
         is_pressed (KNum (scan_code event)) w2
         = (inr (bool_decide (event_type event = KEY_DOWN)), w2)).
  { intros (w2 & Hrest). eexists _, w1, w2. split; [reflexivity|done]. }
  assert (blocking_hooks_pass (S bound) event w1 = (inr true, w1)) as H1.
  { unfold blocking_hooks_pass. cbn [all_hooks]. run_gets.
    change (blocking_hooks (_listener w1)) with (the_blocking_hooks w).
    by rewrite Hhooks. }
  destruct (update_pressed_returns codes event w1 Hc)
    as (signature & w2 & H2).
  pose proof (preserves_after _ _ _ _ _
                (update_pressed_frame (fun w => blocking_keys (_listener w))
                   event (fun _ _ => eq_refl) (fun _ _ => eq_refl)) H2)
    as Hkeys2.
  pose proof (preserves_after _ _ _ _ _
                (update_pressed_frame the_queue event
                   (fun _ _ => eq_refl) (fun _ _ => eq_refl)) H2) as Hq2.
  pose proof (preserves_after _ _ _ _ _
                (update_pressed_frame _logically_pressed_keys event
                   (fun _ _ => eq_refl) (fun _ _ => eq_refl)) H2) as Hl2.
  cbv beta in *.
  set (w3 := on_listener (fun l =>
               set_blocking_keys
                 (touch (scan_code event) (blocking_keys l)) l) w2).
  assert (blocking_keys_pass (S bound) event w2 = (inr false, w3)) as H3.
  { unfold blocking_keys_pass. run_modify. fold w3.
    cbn [all_hooks]. run_gets.
    assert (entry (scan_code event) (blocking_keys (_listener w3))
            = veto :: rest) as ->.
    { unfold w3. cbn [on_listener set__listener _listener blocking_keys
        set_blocking_keys].
      rewrite entry_touch_keys, Hkeys2. exact Hveto. }
    reflexivity. }
  exists w3. split; [|split; [|split]].
  - unfold direct_callback. run_gets.
    change (is_replaying (_listener w1)) with (is_replaying (_listener w)).
    rewrite Hrep. cbv iota.
    rewrite (bind_returns _ _ _ _ _ H1). cbv beta iota delta [negb].
    rewrite (bind_returns _ _ _ _ _ H2).
    by rewrite (bind_returns _ _ _ _ _ H3).
  - change (the_queue w3) with (the_queue w2). by rewrite Hq2.
  - change (_logically_pressed_keys w3) with (_logically_pressed_keys w2).
    by rewrite Hl2.
  - unfold is_pressed, gets. f_equal. f_equal.
    change (_pressed_events w3) with (_pressed_events w2).
    apply update_pressed_table in H2.
    destruct (event_type event); destruct H2 as [-> _].
    + rewrite lookup_insert_eq. rewrite !bool_decide_eq_true_2; eauto.
    + rewrite lookup_delete_eq.
      rewrite !bool_decide_eq_false_2; [done|done|by intros [? ?]].
Qed.

(** *** A hotkey given as a list *)

(** X25: a list is not hashable, so [add_hotkey] with a hotkey given
    as a list raises [TypeError] when it stores its closure in
    [_hotkeys]; by then the handler of a single-step hotkey is in the
    container, and no entry of [_hotkeys] leads to it. *)
Theorem list_hotkey_stays_registered keys callback suppress timeout
    (trigger_on_release : bool) step codes w :
  parse_hotkey_combinations (KList keys) = inr [step] ->
  modifier_scan_codes = inr codes ->
  let handler :=
    {| hook_id := HClosure (next_id w);
       hook_body := SingleStep (if trigger_on_release then KEY_UP
                                else KEY_DOWN) callback |} in
  exists w',
    add_hotkey (KList keys) callback suppress timeout trigger_on_release w
    = (inl TypeError, w') /\
    added handler suppress step w w' /\
    _hotkeys w' = _hotkeys w.
Proof.
  intros Hparse Hc handler. unfold add_hotkey.
  rewrite (bind_returns _ _ w [step] w) by (unfold lift; by rewrite Hparse).
  rewrite (bind_returns _ _ _ _ _ (fresh_returns w)). fold handler.
  destruct (add_hotkey_step_returns codes handler step suppress
              (set_next_id (S (next_id w)) w) Hc)
    as (wb & Hadd & Hadded).
  rewrite (bind_returns _ _ _ _ _ Hadd).
  rewrite (bind_returns _ _ _ _ _ (fresh_returns wb)).
  eexists. split; [reflexivity|]. split.
  - intros c. exact (Hadded c).
  - assert (preserves _hotkeys (_add_hotkey_step handler step suppress))
      as Hp by frame.
    cbn [_hotkeys set_next_id].
    by rewrite (preserves_after _ _ _ _ _ Hp Hadd).
Qed.

End Registration.

Lemma hotkey_registration_round_trip_witness :
  exists remove_ w1,
    add_hotkey (H:=Demo.demo_platform) (KStr "ctrl+a") Scenario.quiet_callback
      true 1 false initial_world = (inr remove_, w1) /\
    hotkey_remover_keys remove_ = [HStr "ctrl+a"; HClosure 1; HUser 7] /\
    forall key, key ∈ hotkey_remover_keys remove_ ->
      exists w2,
        remove_hotkey (H:=Demo.demo_platform) key w1 = (inr tt, w2) /\
        (forall c, entry c (the_container true w2)
                   = entry c (the_container true initial_world)) /\
        (forall k, the_count k w2 = the_count k initial_world) /\
        (forall k, k ∈ hotkey_remover_keys remove_ ->
                   _hotkeys w2 !! k = None).
Proof.
  apply (hotkey_registration_round_trip (H:=Demo.demo_platform)
           (KStr "ctrl+a") Scenario.quiet_callback true 1 false
           [[29; 30]; [30; 97]] Scenario.demo_modifier_codes (HStr "ctrl+a")).
  - reflexivity.
  - reflexivity.
  - reflexivity.
  - intros c x _ Hx. by apply elem_of_nil in Hx.
Defined.
Lemma hook_round_trip_witness :
  exists remove_ w1,
    hook (H:=Demo.demo_platform) Scenario.veto true initial_world
    = (inr remove_, w1) /\
    the_blocking_hooks w1 = the_blocking_hooks initial_world ++ [Scenario.veto] /\
    hook_remover_keys remove_ = [HUser 0; HClosure 0] /\
    forall key, key ∈ hook_remover_keys remove_ ->
      exists w2,
        unhook (H:=Demo.demo_platform) key w1 = (inr tt, w2) /\
        the_blocking_hooks w2 = the_blocking_hooks initial_world /\
        (forall k, k ∈ hook_remover_keys remove_ -> _hooks w2 !! k = None).
Proof.
  apply (hook_round_trip (H:=Demo.demo_platform) Scenario.veto initial_world).
  apply Forall_nil_2.
Defined.

Lemma second_hook_hides_the_first_witness :
  let w2 := after (hook (H:=Demo.demo_platform) Scenario.veto true)
              Scenario.veto_world in
  exists w3 w4,
    unhook (H:=Demo.demo_platform) (HUser 0) w2 = (inr tt, w3) /\
    the_blocking_hooks w3 = [Scenario.veto] /\
    unhook (H:=Demo.demo_platform) (HUser 0) w3 = (inl KeyError, w3) /\
    unhook (H:=Demo.demo_platform) (HClosure 0) w3 = (inr tt, w4) /\
    the_blocking_hooks w4 = [].
Proof.
  apply (second_hook_hides_the_first (H:=Demo.demo_platform) Scenario.veto
           initial_world).
  - intros n. discriminate.
  - apply Forall_nil_2.
Defined.
Lemma clearing_hotkeys_breaks_removal_witness :
  let w0 := after (unhook_all_hotkeys) Scenario.hotkey_a_world in
  exists w',
    remove_hotkey (H:=Demo.demo_platform) (HStr "a") w0
    = (inl ValueError, w') /\
    _hotkeys w' = _hotkeys Scenario.hotkey_a_world.
Proof.
  apply (clearing_hotkeys_breaks_removal (H:=Demo.demo_platform) (HStr "a")
           (HClosure 1)
           {| sr_handler :=
                {| hook_id := HClosure 0;
                   hook_body := SingleStep KEY_DOWN Scenario.quiet_callback |};
              sr_combinations := [[30]]; sr_suppress := true |}
           (HStr "a") (HUser 7) [30] [] Scenario.demo_modifier_codes);
    reflexivity.
Defined.

Lemma unhook_all_lets_everything_through_witness :
  exists w',
    direct_callback (H:=Demo.demo_platform) 8 Scenario.a_down
      (after unhook_all Scenario.block_world) = (inr true, w') /\
    the_queue w' = the_queue Scenario.block_world ++ [Scenario.a_down] /\
    calls w' = calls Scenario.block_world /\
    os_events w' = os_events Scenario.block_world /\
    _logically_pressed_keys w'
    = <[30 := Scenario.a_down]> (_logically_pressed_keys Scenario.block_world).
Proof.
  apply (unhook_all_lets_everything_through (H:=Demo.demo_platform) 7
           Scenario.a_down Scenario.demo_modifier_codes Scenario.block_world);
    reflexivity.
Defined.

Lemma list_hotkey_stays_registered_witness :
  exists w',
    add_hotkey (H:=Demo.demo_platform) (KList [KNum 29; KNum 30])
      Scenario.quiet_callback true 1 false initial_world
    = (inl TypeError, w') /\
    added {| hook_id := HClosure 0;
             hook_body := SingleStep KEY_DOWN Scenario.quiet_callback |}
      true [[29; 30]] initial_world w' /\
    _hotkeys w' = _hotkeys initial_world.
Proof.
  apply (list_hotkey_stays_registered (H:=Demo.demo_platform)
           [KNum 29; KNum 30] Scenario.quiet_callback true 1 false
           [[29; 30]] Scenario.demo_modifier_codes initial_world);
    reflexivity.
Defined.

Lemma blocked_key_is_rejected_witness :
  exists remove_ w1 w2,
    block_key (H:=Demo.demo_platform) (KStr "a") initial_world
    = (inr remove_, w1) /\
    direct_callback (H:=Demo.demo_platform) 8 Scenario.a_down w1
    = (inr false, w2) /\
    the_queue w2 = the_queue initial_world /\
    _logically_pressed_keys w2 = _logically_pressed_keys initial_world /\
    is_pressed (H:=Demo.demo_platform) (KNum 30) w2 = (inr true, w2).
Proof.
  apply (blocked_key_is_rejected (H:=Demo.demo_platform) (KStr "a") [30]
           (HStr "a") Scenario.demo_modifier_codes 7 Scenario.a_down
           initial_world); try reflexivity.
  apply (bool_decide_unpack _). vm_compute. exact I.
Defined.

(** ** Saved key state *)

Section SavedState.
Context `{Platform}.

Lemma emit_each (mk : Z -> OsEvent) (emit : Z -> M unit) l w :
  (forall c w, emit c w = (inr tt, emitted [mk c] w)) ->
  for_each l emit w = (inr tt, emitted (mk <$> l) w).
Proof.
  intros Hemit. revert w. induction l as [|c l IH]; intros w.
  - by rewrite emitted_nil.
  - cbn [for_each]. rewrite (bind_returns _ _ _ _ _ (Hemit c w)).
    by rewrite IH, emitted_app.
Qed.

Lemma pressed_scan_codes_spec w :
  Sorted Z.le (pressed_scan_codes w) /\
  NoDup (pressed_scan_codes w) /\
  forall c, c ∈ pressed_scan_codes w <-> is_Some (_pressed_events w !! c).
Proof.
  unfold pressed_scan_codes. split; [apply (Sorted_merge_sort _)|].
  split.
  - rewrite merge_sort_Permutation. apply NoDup_elements.
  - intros c. rewrite merge_sort_Permutation, elem_of_elements.
    apply elem_of_dom.
Qed.

(** X26: [stash_state] returns the scan codes of the physically
    pressed keys in ascending order, each once, and hands a release of
    each to the operating system in that order.  It does not set
    [is_replaying] and leaves the table of pressed keys as it is. *)
Theorem stash_state_releases_held_keys w :
  let state := pressed_scan_codes w in
  stash_state w = (inr state, emitted (OsRelease <$> state) w) /\
  Sorted Z.le state /\
  NoDup state /\
  forall c, c ∈ state <-> is_Some (_pressed_events w !! c).
Proof.
  intros state. split; [|apply pressed_scan_codes_spec].
  unfold stash_state. run_gets. fold state.
  by rewrite (bind_returns _ _ _ _ _
                (emit_each OsRelease os_release state w
                   (fun _ _ => eq_refl))).
Qed.

(** X27: [restore_state] releases the pressed keys that are not among
    the given scan codes, then presses the given scan codes that are
    not pressed, each once, and leaves [is_replaying] false; when the
    given scan codes are the pressed ones it emits nothing. *)
Theorem restore_state_levels_the_keys scan_codes w :
  exists released pressed,
    restore_state scan_codes w
    = (inr tt,
       on_listener (set_is_replaying false)
         (emitted ((OsRelease <$> released) ++ (OsPress <$> pressed)) w)) /\
    NoDup released /\ NoDup pressed /\
    (forall c, c ∈ released <->
               is_Some (_pressed_events w !! c) /\ c ∉ scan_codes) /\
    (forall c, c ∈ pressed <->
               c ∈ scan_codes /\ _pressed_events w !! c = None) /\
    ((forall c, c ∈ scan_codes <-> is_Some (_pressed_events w !! c)) ->
     released = [] /\ pressed = []).
Proof.
  set (current := dom (_pressed_events w)).
  set (target := list_to_set scan_codes : gset Z).
  exists (elements (current ∖ target)), (elements (target ∖ current)).
  assert (forall c, c ∈ current <-> is_Some (_pressed_events w !! c))
    as Hcurrent by (intros c; apply elem_of_dom).
  assert (forall c, c ∈ target <-> c ∈ scan_codes)
    as Htarget by (intros c; apply elem_of_list_to_set).
  split; [|split; [|split; [|split; [|split]]]].
  - unfold restore_state, restore_state_from. run_modify. run_gets.
    set (w1 := on_listener (set_is_replaying true) w).
    rewrite (bind_returns _ _ w1 scan_codes w1) by reflexivity.
    change (dom (_pressed_events w1)) with current. fold target.
    rewrite (bind_returns _ _ _ _ _
               (emit_each OsRelease os_release _ w1 (fun _ _ => eq_refl))).
    rewrite (bind_returns _ _ _ _ _
               (emit_each OsPress os_press _ _ (fun _ _ => eq_refl))).
    by rewrite emitted_app.
  - apply NoDup_elements.
  - apply NoDup_elements.
  - intros c. rewrite elem_of_elements, elem_of_difference.
    by rewrite Hcurrent, Htarget.
  - intros c. rewrite elem_of_elements, elem_of_difference.
    rewrite Hcurrent, Htarget, <- eq_None_not_Some. done.
  - intros Hsame.
    assert (current = target) as ->.
    { apply set_eq. intros c. by rewrite Hcurrent, Htarget, Hsame. }
    rewrite difference_diag_L. by rewrite elements_empty.
Qed.

Lemma modifiers_among_raises e scan_codes :
  modifier_scan_codes = inl e -> scan_codes <> [] ->
  modifiers_among scan_codes = inl e.
Proof.
  intros He Hne. destruct scan_codes as [|c l]; [done|].
  cbn [modifiers_among]. unfold is_modifier. by rewrite He.
Qed.

(** X28: [restore_modifiers] reads its scan codes through a generator
    that [restore_state] runs after it has set [is_replaying]; when
    [is_modifier] raises there, the exception leaves
    [restore_modifiers] with the flag still true and nothing emitted. *)
Theorem restore_modifiers_error_keeps_flag scan_codes e w :
  modifier_scan_codes = inl e ->
  scan_codes <> [] ->
  restore_modifiers scan_codes w
  = (inl e, on_listener (set_is_replaying true) w).
Proof.
  intros He Hne. unfold restore_modifiers, restore_state_from.
  run_modify. run_gets.
  by rewrite (modifiers_among_raises e scan_codes He Hne).
Qed.
End SavedState.

Lemma restore_modifiers_error_keeps_flag_witness :
  Faulty.faulty_restore_modifiers [42] initial_world
  = (inl BackendError, on_listener (set_is_replaying true) initial_world).
Proof.
  apply (restore_modifiers_error_keeps_flag (H:=Faulty.faulty_platform)
           [42] BackendError initial_world); [reflexivity|done].
Defined.

(** ** Typed words *)

Lemma append_assoc (a b c : string) : (a +:+ b) +:+ c = a +:+ (b +:+ c).
Proof.
  induction a as [|x a IH]; [by rewrite !append_nil|].
  by rewrite !append_cons, IH.
Qed.

Lemma append_empty_r (a : string) : a +:+ "" = a.
Proof.
  induction a as [|x a IH]; [done|]. by rewrite append_cons, IH.
Qed.

Lemma rev_app_append (s acc : string) :
  String.rev_app s acc = String.rev_app s "" +:+ acc.
Proof.
  revert acc. induction s as [|x s IH]; intros acc; cbn [String.rev_app].
  - by rewrite append_nil.
  - rewrite (IH (String x acc)), (IH (String x "")).
    by rewrite append_assoc, append_cons, append_nil.
Qed.

Lemma rev_append (p s : string) :
  String.rev (p +:+ s) = String.rev s +:+ String.rev p.
Proof.
  unfold String.rev. induction p as [|x p IH].
  - by rewrite append_nil, append_empty_r.
  - rewrite append_cons. cbn [String.rev_app].
    rewrite (rev_app_append (p +:+ s)), IH.
    rewrite (rev_app_append p (String x "")).
    by rewrite append_assoc.
Qed.

Lemma starts_with_append (x y : string) : PyStr.starts_with x (x +:+ y) = true.
Proof.
  induction x as [|a x IH]; [done|].
  rewrite append_cons. cbn [PyStr.starts_with].
  by rewrite Ascii.eqb_refl.
Qed.

Lemma ends_with_append (p s : string) : ends_with (p +:+ s) s = true.
Proof. unfold ends_with. rewrite rev_append. apply starts_with_append. Qed.

Section Words.
Context `{Platform}.

(** X29: when the characters of the word are typed one after the
    other, none later than the timeout after the one before, and a
    trigger key follows in time, the handler of the word listener
    invokes the callback at the trigger, not before, and starts again
    with an empty buffer.  The buffer has to be empty when the word
    starts, unless the listener matches suffixes. *)
Theorem typed_word_invokes_callback wl state chars events trigger :
  word wl = string_of_list_ascii chars ->
  current state = "" \/ match_suffix wl = true ->
  Forall2 types chars events ->
  Forall (fun e => name_in (name e) all_modifiers = false /\
                   name_in (name e) (triggers wl) = false) events ->
  paced (word_timeout wl) (state_time state) (events ++ [trigger]) ->
  event_type trigger = KEY_DOWN ->
  name_in (name trigger) all_modifiers = false ->
  name_in (name trigger) (triggers wl) = true ->
  word_results wl (events ++ [trigger]) state
  = Some (replicate (length events) false ++ [true],
          {| current := ""; state_time := time trigger |}).
Proof.
  intros Hword Hstart Htyped Hquiet Hpaced Hdown Hmod Htrig.
  (* what was typed before the word, [prefix], stays in the buffer *)
  set (prefix := current state) in Hstart.
  assert (current state +:+ string_of_list_ascii chars
          = prefix +:+ word wl) as Hinv by (by rewrite Hword).
  clearbody prefix. clear Hword.
  assert (forall e state,
            word_timeout wl = 0 \/
            time e - state_time state <= word_timeout wl ->
            fresh_buffer wl e state = current state) as Hfresh.
  { intros e st Hpace. unfold fresh_buffer.
    destruct (decide (word_timeout wl = 0)) as [Hz|Hnz].
    - by rewrite (bool_decide_eq_true_2 _ Hz).
    - rewrite (bool_decide_eq_false_2 _ Hnz). cbn [negb andb].
      rewrite bool_decide_eq_false_2; [done|]. lia. }
  revert state Hquiet Hpaced Hinv.
  induction Htyped as [|c e chars events [Hc_down Hc_name] Htyped IH];
    intros state Hquiet Hpaced Hinv.
  - cbn [app word_results]. destruct Hpaced as [Hpace _].
    unfold word_handler. rewrite Hdown, Hmod.
    rewrite (bool_decide_eq_false_2 (KEY_DOWN = KEY_UP)) by done.
    cbn [orb]. rewrite (Hfresh _ _ Hpace), Htrig. cbn [andb].
    assert (matched wl (current state) = true) as ->; [|done].
    cbn [string_of_list_ascii] in Hinv. rewrite append_empty_r in Hinv.
    unfold matched. rewrite Hinv. destruct Hstart as [->| ->].
    + rewrite append_nil. by rewrite bool_decide_eq_true_2.
    + by rewrite ends_with_append, orb_true_r.
  - apply Forall_cons in Hquiet as [[Hc_mod Hc_trig] Hquiet].
    cbn [app] in Hpaced. destruct Hpaced as [Hpace Hpaced].
    cbn [app word_results length replicate].
    unfold word_handler at 1. rewrite Hc_down, Hc_mod.
    rewrite (bool_decide_eq_false_2 (KEY_DOWN = KEY_UP)) by done.
    cbn [orb]. rewrite (Hfresh _ _ Hpace), Hc_trig. cbn [andb].
    rewrite Hc_name. cbn [String.length].
    rewrite (bool_decide_eq_false_2 (1 < 1)%nat) by lia.
    rewrite (IH {| current := current state +:+ String c "";
                   state_time := time e |}); [done|done|exact Hpaced|].
    cbn [current]. rewrite append_assoc, append_cons, append_nil.
    exact Hinv.
Qed.
End Words.

Lemma typed_word_invokes_callback_witness :
  word_results (H:=Demo.demo_platform) Scenario.ab_listener
    ([{| event_type := KEY_DOWN; scan_code := 30; name := Some "A";
         time := 0 |};
      {| event_type := KEY_DOWN; scan_code := 48; name := Some "b";
         time := 1 |}]
     ++ [{| event_type := KEY_DOWN; scan_code := 57; name := Some "space";
            time := 3 |}])
    Scenario.empty_buffer
  = Some (replicate 2 false ++ [true], {| current := ""; state_time := 3 |}).
Proof.
  apply (typed_word_invokes_callback (H:=Demo.demo_platform)
           Scenario.ab_listener Scenario.empty_buffer ["A"; "b"]%char).
  - reflexivity.
  - by left.
  - repeat (apply Forall2_cons_2 || apply Forall2_nil_2); by split.
  - repeat (apply Forall_cons_2 || apply Forall_nil_2); by split.
  - cbn. lia.
  - reflexivity.
  - reflexivity.
  - reflexivity.
Defined.

(** ** Typed strings *)

Section Typed.
Variable upper : string -> string.
Variable backspace_name : string.

(** X30: [get_typed_strings] reads the key-down events and the events
    of the shift keys only: the key-up events of all other keys can be
    left out without changing what it yields. *)
Theorem key_ups_type_nothing events allow_backspace :
  get_typed_strings upper backspace_name
    (List.filter leaves_a_mark events) allow_backspace
  = get_typed_strings upper backspace_name events allow_backspace.
Proof.
  unfold get_typed_strings.
  (* for every state of shift and caps lock and every string so far *)
  cut (forall shift_pressed capslock_pressed string_,
         typed_strings_from upper backspace_name allow_backspace
           shift_pressed capslock_pressed string_
           (List.filter leaves_a_mark events)
         = typed_strings_from upper backspace_name allow_backspace
             shift_pressed capslock_pressed string_ events);
    [intros Hall; apply Hall|].
  induction events as [|e es IH]; intros sp cp str; [done|].
  cbn [List.filter]. unfold leaves_a_mark.
  destruct (name e) as [n|] eqn:Hn.
  - destruct (bool_decide (event_type e = KEY_DOWN)) eqn:Hdown;
      destruct (contains "shift" n) eqn:Hshift; cbn [orb];
      cbn [typed_strings_from]; rewrite Hn, Hshift, ?Hdown;
      rewrite ?andb_false_r; cbn [andb];
      repeat match goal with
             | |- context [if ?b then _ else _] =>
                 lazymatch b with
                 | true => fail
                 | false => fail
                 | _ => destruct b
                 end
             end;
      rewrite ?IH; reflexivity.
  - cbn [orb typed_strings_from]. rewrite orb_true_r.
    cbn [typed_strings_from]. by rewrite Hn.
Qed.
End Typed.
End Extras.
